(* ===== verification/_CoqProject ===== *)
-Q . S2P
Prelude.v
Libc.v
Header.v
Trim.v
Value.v
Decoder.v
Name.v
Line.v
Env.v
Stdio.v
Loader.v
Render.v
Calls.v
Printf.v
Harness.v
Generated.v
Main.v
Tests.v
