(* ===== verification/Prelude.v ===== *)
(** * Verification of dotenv-loader (src/dotenv.c, src/dotenv.h, src/main.c,
    src/test_dotenv.c)

    ** The program

    [dotenv_load path override] opens a text file, reads it with [fgets] into
    a fixed buffer [char line[LINE_SIZE]], and for every chunk read:
    trims it in place ([trim_whitespace]), skips it when it is empty or starts
    with [#], and otherwise splits it at the first [=] ([parse_line]):
    the text before is trimmed and checked against the identifier grammar
    ([is_valid_variable_name]), the text after is decoded ([parse_value],
    a quoted mode with backslash escapes and an unquoted mode with [#]
    comments) into [entry.value]; an accepted pair is handed to [setenv]
    unless [override] is false and [getenv] already finds the name.
    All of the parsing works in place on NUL-terminated strings: functions
    receive pointers into [line], write NUL bytes into it, and return pointers
    into it.  The aliasing is the point of the model: [parse_line] cuts the
    buffer that [dotenv_load] later prints in its diagnostic.

    ** The model (two levels)

    - The _concrete_ level follows the C text statement by statement.  A
      buffer is a [list Z] (one cell per [char], read as an unsigned byte), a
      pointer is a [nat] offset into a named buffer, a read or write outside
      the buffer and a libc call outside its domain is undefined behaviour
      and is the value [None] of the option monad.  Loops are structural
      recursions on the unread suffix of a buffer (forward scans) or on the
      distance between two pointers (the backward scan of
      [trim_whitespace]); the [fgets] loop of [dotenv_load] runs on fuel and
      [dotenv_load] supplies [S (length file)], which is proved enough.
    - The _abstract_ level is a set of pure functions on strings without
      terminator ([list Z] with no [0]): [Trim.trim], [Value.value_of],
      [Name.check_name], [Line.line_spec], [Loader.load_spec] and
      [Loader.dotenv_spec].  They are the contract of spec.md sections 4.1
      to 4.5.
    - Refinement theorems connect them: run on a buffer that holds a
      C string [s], a concrete function returns [Some] (no undefined
      behaviour) and its result holds the abstract function of [s].  The
      clients of a function use its refinement lemma ([*_correct],
      [*_spec]), never its definition.

    ** Files

    - [Prelude] (this file): character constants, [take_while] /
      [drop_while] / [drop_end_while] with their lemmas, the [list_len]
      rewrite database, the development's tactics, [str] to write test
      inputs as string literals.
    - [Libc]: the C library functions the sources call, modelled from the C
      standard since they are not under src/: [isspace], [isalpha],
      [isalnum] in the C locale with their domain [-1..255], the conversions
      [(unsigned char)c] and [char] to [int] under a [CharModel] (plain
      [char] signed or unsigned), [store] on buffers, [strlen], [strchr],
      [strncpy], [string_at] (a string argument read up to its terminator),
      and the predicate [cstring_at] with the lemmas that give each
      function's result on a buffer that holds a string.
    - [Header]: [LINE_SIZE], [MAX_VAR_NAME] and [dotenv_entry]
      (dotenv.h 11-21), the kinds of message written to [stderr].
    - [Trim]: [trim_whitespace] (dotenv.c 10-32), its abstract counterpart
      [trim], the refinement theorem, idempotence, and the proof that the
      carriage-return strip of lines 27-29 never fires.
    - [Value]: [parse_value] (dotenv.c 35-73): the quoted decoder loop, the
      unquoted comment cut, the abstract [decode] and [value_of], refinement,
      the bound that keeps the unchecked writes of the quoted loop inside
      [entry.value], and the exact condition under which they stay inside
      an output buffer of any size ([Value.parse_value_overflow]).
    - [Decoder]: the quoted loop read as the state machine of spec.md 4.5: a
      step relation [dstep] with one rule per branch, its runs [drun],
      determinism, equivalence with [Value.decode], and the refinement of
      the machine by the loop.
    - [Name]: [is_valid_variable_name] (dotenv.c 75-87) and the identifier
      grammar [check_name] with its failure kinds; the undefined call of
      [isalnum] on a signed platform.
    - [Line]: [parse_line] (dotenv.c 89-105) and its contract [line_spec].
    - [Env]: the process environment as an interface ([Class Environ]:
      [getenv], [setenv] and their laws) with two instances, a [gmap] and the
      list that mirrors the [environ] array; the relation [env_sim] between
      environments that hold the same variables, an equivalence the
      operations respect ([Proper] instances).
    - [Stdio]: [fopen] and [fgets] from the C standard; [chunks], the texts
      that successive calls of [fgets] deliver, and [lines].
    - [Loader]: [dotenv_load] (dotenv.c 107-137) with its loop, and the
      contract [dotenv_spec]; the refinement theorem and its consequences.
    - [Render]: the file format of spec.md 6 as a function from entries to
      files, and the round trip: [dotenv_load] reads back every file written
      that way.  A line format is an interface ([Class Format]: the line of
      an entry, the entries it can write, and the laws the round trip
      needs) with two instances, [quoted] (the value between quotes, in
      escaped form) and [bare] (the value as it is); the round trip is
      proved once, against the interface.
    - [Calls]: [dotenv_load] once more, as the calls it makes: an
      interaction tree over the calls of the C library ([fopen], [fgets],
      [fclose], [getenv], [setenv], [fprintf], [perror]) in the order of
      the code, a handler that gives every call its meaning on the state of
      the process (files, open streams, environment, a log of the calls),
      the rules of a run, the contract [load_calls] (the calls of a load)
      and the protocol of a stream as an automaton.
    - [Printf]: the conversion [%d] and [snprintf], from the C standard.
    - [Harness]: what src/test_dotenv.c is written with: the state of the
      process (files, environment, [stderr], [stdout]), a monad [test] that
      threads it and stops at a failed [assert] or at undefined behaviour,
      the calls of the program, [test_env_loading] (lines 9-19) and
      [run_test] (lines 22-31), and the rules that run them: a load is
      replaced by its contract.
    - [Generated]: the two cases that write their file in a loop
      (lines 194-215, 225-246) as one definition, proved for every number
      of lines.
    - [Main]: [main] of src/main.c.
    - [Tests]: the nineteen cases and [main] of src/test_dotenv.c
      (lines 33-322), statement by statement, and the proof that the
      program passes.

    ** What the theorems show

    - Memory safety and termination: on every buffer that holds a
      NUL-terminated string each function returns [Some]; every write lands
      inside the buffer it is meant for; the loop of [dotenv_load] ends
      ([Loader.load_loop_terminates]); the only undefined behaviour of a
      load is a call of [isalpha] or [isalnum] outside its domain, and the
      files on which it happens are characterised
      ([Loader.dotenv_load_defined]).
    - Functional correctness: the result of each concrete function is the
      abstract function of the string it was given, on every branch, the
      rejections included; [Loader.dotenv_load_refines] composes them into
      the contract of the whole load.
    - Properties of the contract: trimming is idempotent and leaves no
      whitespace at either end; a decoded quoted value is never longer than
      its source and the escaping round-trips; an accepted name matches the
      identifier grammar and is a name [setenv] accepts; after a load every
      variable has the value the file's assignments give it under the
      override rule ([Loader.dotenv_load_getenv]), so existing variables are
      kept without [override], the last assignment wins with it, loading is
      idempotent, loading two files in a row is loading their concatenation,
      and a file written in the quoted format is read back entry by entry
      ([Render.dotenv_load_render]).
    - The calls of a load: the tree of [Calls] ends as the function of
      [Loader] says, from every state and undefined behaviour included
      ([Calls.dotenv_load_calls_agree]); the calls it makes are those of
      the contract, they follow the protocol of a stream (the stream that
      was opened is closed, once, and last), [getenv] is not called under
      [override], and [setenv] is called with the name and the value of an
      assignment of the file only ([Calls.dotenv_load_calls_order]).
    - Boundaries of the input: a line longer than the buffer is read as
      several lines ([Loader.dotenv_load_long_line]), a NUL byte hides
      the rest of its line ([Loader.dotenv_load_nul_byte]), and the
      truncation of lines 70-71 never cuts a value of a file, since [fgets]
      has cut the line before
      ([Loader.unquoted_value_never_truncated]).
    - The test program: [Tests.test_main_passes] runs [main] of
      src/test_dotenv.c symbolically, from a state of the files and of the
      environment that is not known: every case passes, the program
      returns 0, and what it printed, what the loads reported and the files
      it left are given; the only assumption is that six names are unset
      before.  Without it the program aborts, in the [assert] that
      [Tests.test_main_aborts] names.  The cases on generated files hold for
      every number of lines ([Generated.generated_case_passes]): nothing is
      evaluated, the proof is the round trip of the format [bare] and the
      injectivity of the decimal conversion.  Since the cases are proved
      through the contract of the load, and the load refines the contract,
      the assertions hold of the code of src/dotenv.c as modelled.
    - Findings: behaviours where the code and spec.md differ, or where the
      code has undefined behaviour, are stated as theorems with concrete
      witnesses (see PROJECT.json).

    ** Bounds, fuel and assumptions

    - [LINE_SIZE = 1024] and [MAX_VAR_NAME = 256] as in dotenv.h.  [fgets]
      hands over at most [LINE_SIZE - 1] bytes, so every string the parser
      sees is shorter than [LINE_SIZE]; the theorems on single functions
      state the bound as a hypothesis on the string's length, and
      [Loader] discharges it for every file.
    - The only loop that is not a structural recursion is the [fgets] loop.
      [Loader.load_loop] takes fuel, one unit per call of [fgets]; every
      successful call consumes a byte at least, so more fuel than the file
      has bytes is enough, and [dotenv_load] supplies [S (length file)].
      [Loader.load_loop] without fuel has no result ([None], as undefined
      behaviour has); [Loader.load_loop_terminates] shows that the fuel
      supplied is never used up.  In [Calls] the loop is [ITree.iter] and
      needs no fuel; that it ends is part of
      [Calls.dotenv_load_calls_agree].
    - The locals [line] and [entry] of [dotenv_load] are not initialised by
      the code: they are arguments of the model, constrained only in their
      sizes.
    - Plain [char] may be signed or unsigned ([CharModel]); [isalpha] and
      [isalnum] receive a plain [char], so on a signed platform a byte above
      127 in a name is outside their domain.  The refinement theorems
      assume that no such byte reaches the two functions
      ([Name.name_dom], [Line.line_dom], [Loader.file_ok]); the assumption
      is exact ([Loader.dotenv_load_defined]: the load is defined if and
      only if it holds), and it holds on an unsigned platform and on every
      file of ASCII text.
    - The counters of the generated cases are [int]: the theorems on them
      assume the number of lines is below [2 ^ 31], which a thousand and a
      hundred thousand are.  The hundred thousand are written
      [N.to_nat 100000] and never unfolded.
    - In the test program a file always opens for writing (the [assert] of
      lines 11, 196 and 227 holds), and [assert] is enabled.
    - The locale is the C locale.  A file is the list of its bytes; read
      errors are not modelled.  [setenv] changes nothing when the name is
      empty or holds [=] (its [EINVAL] case, which the code ignores and the
      theorems show never happens); it does not fail otherwise (no lack of
      memory), and the code ignores what it and [fclose] return.
    - A cell of a buffer is a [Z] with no bound of its own: the cells of a
      file are bytes, and the code copies cells or writes constants, so the
      theorems need no bound.  [EOF] is [-1], as on every platform the
      sources were written for.
    - In [Calls] a stream is a number [fopen] chooses among those not open
      ([fresh]); the theorems hold for every table of open streams.

    ** Not modelled

    The bytes of the diagnostics ([fprintf], [perror]) beyond their kind
    and argument, the preprocessor lines of the sources, and the value of
    [clock()] that [run_test] prints (the line it prints is modelled
    without the time). *)

From Stdlib Require Export ZArith Lia.
From Stdlib Require Import Ascii String.
From stdpp Require Export base tactics option list numbers strings.

(** ** Character constants

    Parse-only abbreviations ([C_NUL] is the numeral 0): [lia] and
    evaluation see the numerals. *)
Abbreviation C_NUL := 0%Z (only parsing).
Abbreviation C_TAB := 9%Z (only parsing).
Abbreviation C_LF := 10%Z (only parsing).
Abbreviation C_CR := 13%Z (only parsing).
Abbreviation C_SPACE := 32%Z (only parsing).
Abbreviation C_QUOTE := 34%Z (only parsing).
Abbreviation C_HASH := 35%Z (only parsing).
Abbreviation C_EQUALS := 61%Z (only parsing).
Abbreviation C_BACKSLASH := 92%Z (only parsing).
Abbreviation C_UNDERSCORE := 95%Z (only parsing).
Abbreviation C_LOWER_N := 110%Z (only parsing).
Abbreviation C_LOWER_R := 114%Z (only parsing).
Abbreviation C_LOWER_T := 116%Z (only parsing).

(** [str "A=1"] is the list of the bytes of the literal. *)
Definition str (s : string) : list Z :=
  (λ a, Z.of_N (N_of_ascii a)) <$> list_ascii_of_string s.

(** ** Scanning a list with a boolean test *)
Section scan.
Context {A : Type} (f : A → bool).

Fixpoint take_while (l : list A) : list A :=
  match l with
  | [] => []
  | x :: l' => if f x then x :: take_while l' else []
  end.

Fixpoint drop_while (l : list A) : list A :=
  match l with
  | [] => []
  | x :: l' => if f x then drop_while l' else l
  end.

(** Removes the longest suffix whose elements all pass the test. *)
Definition drop_end_while (l : list A) : list A :=
  reverse (drop_while (reverse l)).

(** The test fails on the first element, if there is one. *)
Definition head_fails (l : list A) : Prop :=
  match l with [] => True | x :: _ => f x = false end.

(** The test fails on the last element, if there is one. *)
Definition last_fails (l : list A) : Prop := head_fails (reverse l).

Lemma take_drop_while l : take_while l ++ drop_while l = l.
Proof. induction l as [|x l IH]; simpl; [done|]. destruct (f x); simpl; by f_equal. Qed.

Lemma take_while_all l : Forall (λ x, f x = true) (take_while l).
Proof. induction l as [|x l IH]; simpl; [done|]. destruct (f x) eqn:E; auto. Qed.

Lemma drop_while_head l : head_fails (drop_while l).
Proof. induction l as [|x l IH]; simpl; [done|]. by destruct (f x) eqn:E. Qed.

Lemma drop_while_fixed l : head_fails l → drop_while l = l.
Proof. destruct l as [|x l]; simpl; [done|]. by intros ->. Qed.

Lemma take_while_fixed l : head_fails l → take_while l = [].
Proof. destruct l as [|x l]; simpl; [done|]. by intros ->. Qed.

Lemma drop_while_app_all l k :
  Forall (λ x, f x = true) l → drop_while (l ++ k) = drop_while k.
Proof. induction 1 as [|x l Hx _ IH]; simpl; [done|]. by rewrite Hx. Qed.

Lemma take_while_app_all l k :
  Forall (λ x, f x = true) l → take_while (l ++ k) = l ++ take_while k.
Proof. induction 1 as [|x l Hx _ IH]; simpl; [done|]. by rewrite Hx, IH. Qed.

Lemma drop_while_app_cons l x k :
  f x = false → drop_while (l ++ x :: k) = drop_while l ++ x :: k.
Proof.
  intros Hx. induction l as [|y l IH]; simpl; [by rewrite Hx|].
  by destruct (f y).
Qed.

Lemma drop_while_length l : length (drop_while l) ≤ length l.
Proof. induction l as [|x l IH]; simpl; [done|]. destruct (f x); simpl; lia. Qed.

Lemma drop_while_suffix l : drop_while l `suffix_of` l.
Proof. exists (take_while l). by rewrite take_drop_while. Qed.

Lemma drop_while_nil_all l : drop_while l = [] ↔ Forall (λ x, f x = true) l.
Proof.
  split.
  - intros E. rewrite <-(take_drop_while l), E, app_nil_r. apply take_while_all.
  - intros H. rewrite <-(app_nil_r l). by rewrite drop_while_app_all.
Qed.

Lemma drop_while_Forall (P : A → Prop) l :
  Forall P l → Forall P (drop_while l).
Proof.
  intros H. rewrite <-(take_drop_while l) in H. by apply Forall_app in H as [_ ?].
Qed.

Lemma drop_end_while_Forall (P : A → Prop) l :
  Forall P l → Forall P (drop_end_while l).
Proof. intros H. by apply Forall_reverse, drop_while_Forall, Forall_reverse. Qed.

(** A list splits into its dropped suffix and what remains. *)
Lemma drop_end_while_split l :
  ∃ t, l = drop_end_while l ++ t ∧ Forall (λ x, f x = true) t.
Proof.
  exists (reverse (take_while (reverse l))). split.
  - unfold drop_end_while. rewrite <-reverse_app, take_drop_while.
    by rewrite reverse_involutive.
  - apply Forall_reverse, take_while_all.
Qed.

Lemma take_drop_end_while l :
  take (length (drop_end_while l)) l = drop_end_while l.
Proof.
  destruct (drop_end_while_split l) as (t & E & _).
  rewrite E at 2. by rewrite take_app_length.
Qed.

Lemma drop_end_while_last l : last_fails (drop_end_while l).
Proof.
  unfold last_fails, drop_end_while. rewrite reverse_involutive.
  apply drop_while_head.
Qed.

Lemma drop_end_while_fixed l : last_fails l → drop_end_while l = l.
Proof.
  unfold last_fails, drop_end_while. intros H.
  by rewrite drop_while_fixed, reverse_involutive.
Qed.

Lemma drop_end_while_app_all l t :
  Forall (λ x, f x = true) t → drop_end_while (l ++ t) = drop_end_while l.
Proof.
  intros H. unfold drop_end_while. rewrite reverse_app.
  by rewrite drop_while_app_all by by apply Forall_reverse.
Qed.

Lemma drop_end_while_snoc_fails l x :
  f x = false → drop_end_while (l ++ [x]) = l ++ [x].
Proof.
  intros H. apply drop_end_while_fixed. unfold last_fails.
  by rewrite reverse_snoc.
Qed.

(** Something remains when the head fails the test. *)
Lemma drop_end_while_nonempty l :
  l ≠ [] → head_fails l → drop_end_while l ≠ [].
Proof.
  intros Hne Hh E. destruct (drop_end_while_split l) as (t & El & Ht).
  rewrite E in El. simpl in El. subst t.
  destruct l as [|x l]; [done|]. inv Ht. simpl in Hh. congruence.
Qed.

(** A first element that fails the test stays first. *)
Lemma drop_end_while_cons x l :
  f x = false → ∃ k, drop_end_while (x :: l) = x :: k ∧ k `prefix_of` l.
Proof.
  intros Hx. destruct (drop_end_while_split (x :: l)) as (t & E & _).
  pose proof (drop_end_while_nonempty (x :: l)) as Hne.
  destruct (drop_end_while (x :: l)) as [|y k]; [by destruct Hne|].
  simplify_eq/=. eexists. split; [done|]. by exists t.
Qed.

(** What precedes an element that fails the test is kept as it is. *)
Lemma drop_end_while_app_cons l x k :
  f x = false → drop_end_while (l ++ x :: k) = l ++ drop_end_while (x :: k).
Proof.
  intros Hx. destruct (drop_end_while_cons x k Hx) as (k' & E & _).
  destruct (drop_end_while_split (x :: k)) as (t & Et & Ht).
  rewrite Et at 1. rewrite (assoc_L (++)), drop_end_while_app_all by done.
  apply drop_end_while_fixed. pose proof (drop_end_while_last (x :: k)) as Hl.
  unfold last_fails in *. rewrite reverse_app.
  by destruct (reverse (drop_end_while (x :: k))) eqn:Er;
    [apply (f_equal reverse) in Er; rewrite reverse_involutive, E in Er|].
Qed.

Lemma drop_end_while_length l : length (drop_end_while l) ≤ length l.
Proof.
  unfold drop_end_while. rewrite length_reverse.
  etrans; [apply drop_while_length|]. by rewrite length_reverse.
Qed.

(** Dropping from the end keeps a head on which the test fails. *)
Lemma drop_end_while_head l : head_fails l → head_fails (drop_end_while l).
Proof.
  destruct l as [|x l]; [done|]. simpl. intros Hx.
  destruct (drop_end_while_split l) as (t & El & Ht).
  rewrite El at 1. rewrite app_comm_cons, drop_end_while_app_all by done.
  destruct (drop_end_while l) as [|y k] eqn:E.
  - change [x] with ([] ++ [x]). by rewrite drop_end_while_snoc_fails.
  - assert (last_fails (y :: k)) as Hl by (rewrite <-E; apply drop_end_while_last).
    replace (drop_end_while (x :: y :: k)) with (x :: y :: k); [done|].
    symmetry. apply drop_end_while_fixed. unfold last_fails in *.
    rewrite reverse_cons. destruct (reverse (y :: k)) eqn:E'; [|done].
    apply (f_equal reverse) in E'. by rewrite reverse_involutive in E'.
Qed.
End scan.

Lemma forallb_Forall {A} (f : A → bool) l :
  forallb f l = true ↔ Forall (λ x, f x = true) l.
Proof.
  induction l as [|x l IH]; simpl; [done|].
  by rewrite andb_true_iff, Forall_cons, IH.
Qed.

(** ** Lengths *)
Create Rewrite HintDb list_len.
#[export] Hint Rewrite @length_app @length_cons @length_nil @length_insert
@length_take @length_drop @length_replicate @length_reverse @length_fmap
: list_len.

(** Normalises list lengths and closes the goal by linear arithmetic. *)
Ltac list_len := autorewrite with list_len in *; cbn [length] in *; try lia.

(** ** Tactics of the development *)

(** Case analysis on the boolean or decision that a conditional of the goal
    tests; the hypotheses that mention the test learn its value too. *)
Ltac case_test :=
  match goal with
  | |- context [if ?b then _ else _] =>
      lazymatch type of b with
      | bool =>
          let E := fresh "Etest" in
          destruct b eqn:E;
          repeat match goal with
            | H : context [b] |- _ =>
                tryif constr_eq H E then fail else rewrite E in H
            end
      | _ => destruct b
      end
  end.

(** Facts about characters that the components share go to [chars]; the
    equations that give a library call's result go to [libc]. *)
Create HintDb chars discriminated.
Create Rewrite HintDb libc.
