(* ===== verification/Libc.v ===== *)
(** * Libc: the C library as the sources use it

    The functions of <ctype.h> and <string.h> that src/dotenv.c calls, with
    the memory they work on.  None of this code is under src/: the
    definitions follow the C standard (7.4 and 7.24 of C11) and are the
    interface the components are verified against.

    - A buffer is a [list Z], one cell per [char]; a pointer into it is a
      [nat] offset.  [b !! p] reads a cell, [store] writes one; a read or a
      write outside the buffer yields [None].
    - [to_uchar] is the cast [(unsigned char)c]; [char_to_int] is the
      promotion of a plain [char] to [int], which depends on the platform
      ([CharModel]).
    - [isspace], [isalpha], [isalnum] are the C-locale classes; outside
      [-1..255] they are undefined ([None]).
    - [strlen], [strchr], [strncpy] scan the suffix of the buffer that starts
      at the pointer; reaching the end of the buffer before a NUL is
      undefined.
    - [cstring_at b p s]: the buffer [b] holds at offset [p] the string [s]
      followed by its terminator. *)

From S2P Require Import Prelude.

(** ** Characters *)

(** Whether plain [char] is a signed type (x86-64 System V: yes; AArch64
    Linux: no). *)
Class CharModel := char_signed : bool.

(** The two platforms, for running the model. *)
Definition signed_char : CharModel := true.
Definition unsigned_char : CharModel := false.

(** [(unsigned char)c] *)
Definition to_uchar (c : Z) : Z := (c `mod` 256)%Z.

(** The value of a plain [char] holding the byte [c], promoted to [int]. *)
Definition char_to_int `{CharModel} (c : Z) : Z :=
  let u := to_uchar c in
  if char_signed && (128 <=? u)%Z then (u - 256)%Z else u.

(** The domain of the <ctype.h> functions: [EOF] and the values of
    [unsigned char]. *)
Definition ctype_dom (i : Z) : Prop := (-1 ≤ i ≤ 255)%Z.

(** A byte whose promotion from plain [char] is in the domain. *)
Definition char_ok `{CharModel} (c : Z) : Prop := ctype_dom (char_to_int c).

#[export] Instance ctype_dom_dec i : Decision (ctype_dom i).
Proof. unfold ctype_dom. apply _. Defined.

#[export] Instance char_ok_dec `{CharModel} c : Decision (char_ok c).
Proof. unfold char_ok. apply _. Defined.

Definition space_C (i : Z) : bool :=
  ((i =? 32) || ((9 <=? i) && (i <=? 13)))%Z.

Definition alpha_C (i : Z) : bool :=
  (((65 <=? i) && (i <=? 90)) || ((97 <=? i) && (i <=? 122)))%Z.

Definition digit_C (i : Z) : bool := ((48 <=? i) && (i <=? 57))%Z.

Definition alnum_C (i : Z) : bool := alpha_C i || digit_C i.

Definition ctype (f : Z → bool) (i : Z) : option bool :=
  if decide (ctype_dom i) then Some (f i) else None.

Definition isspace : Z → option bool := ctype space_C.
Definition isalpha : Z → option bool := ctype alpha_C.
Definition isalnum : Z → option bool := ctype alnum_C.

(** The test [isspace((unsigned char)c)] as a total function. *)
Definition is_space (c : Z) : bool := space_C (to_uchar c).

(** ** Memory *)

(** [b[p] = v] *)
Definition store (b : list Z) (p : nat) (v : Z) : option (list Z) :=
  if decide (p < length b) then Some (<[p:=v]> b) else None.

(** ** Strings *)

Fixpoint strlen_from (s : list Z) : option nat :=
  match s with
  | [] => None
  | c :: s' => if decide (c = 0%Z) then Some 0 else S <$> strlen_from s'
  end.

(** [strlen(b + p)] *)
Definition strlen (b : list Z) (p : nat) : option nat :=
  strlen_from (drop p b).

(** The result is [None] for undefined behaviour, [Some None] for the null
    pointer, [Some (Some q)] for a pointer.  The terminator counts as part of
    the string, so [strchr(s, 0)] finds it. *)
Fixpoint strchr_from (s : list Z) (c : Z) (p : nat) : option (option nat) :=
  match s with
  | [] => None
  | x :: s' =>
      if decide (x = c) then Some (Some p)
      else if decide (x = 0%Z) then Some None
      else strchr_from s' c (S p)
  end.

(** [strchr(b + p, c)] *)
Definition strchr (b : list Z) (p : nat) (c : Z) : option (option nat) :=
  strchr_from (drop p b) c p.

(** [n] NUL bytes written from [dst + d] on. *)
Fixpoint store_zeros (dst : list Z) (d n : nat) : option (list Z) :=
  match n with
  | 0 => Some dst
  | S n' => dst ← store dst d 0%Z; store_zeros dst (S d) n'
  end.

Fixpoint strncpy_from (dst : list Z) (d : nat) (s : list Z) (n : nat)
  : option (list Z) :=
  match n with
  | 0 => Some dst
  | S n' =>
      match s with
      | [] => None
      | c :: s' =>
          dst ← store dst d c;
          if decide (c = 0%Z) then store_zeros dst (S d) n'
          else strncpy_from dst (S d) s' n'
      end
  end.

(** [strncpy(dst + d, src + p, n)]: the first [n] characters of the source
    string, padded with NUL bytes up to [n] when the string is shorter.  The
    two buffers are distinct objects. *)
Definition strncpy (dst : list Z) (d : nat) (src : list Z) (p n : nat)
  : option (list Z) :=
  strncpy_from dst d (drop p src) n.

(** No cell of [s] is the terminator. *)
Abbreviation nul_free := (Forall (λ c : Z, c ≠ 0%Z)).

(** The buffer [b] holds the string [s] at offset [p]. *)
Definition cstring_at (b : list Z) (p : nat) (s : list Z) : Prop :=
  nul_free s ∧ ∃ post, drop p b = s ++ 0%Z :: post.

(** The string at [p], read up to the first NUL or the end of the buffer. *)
Definition cstr (b : list Z) (p : nat) : list Z :=
  take_while (λ c, negb (c =? 0)%Z) (drop p b).

(** Whether a NUL follows [p] inside the buffer. *)
Definition terminated (b : list Z) (p : nat) : bool :=
  bool_decide (0%Z ∈ drop p b).

(** The string a library function reads through the pointer [b + p] (the
    argument of [getenv] and [setenv], of [%s]); undefined without a
    terminator inside the buffer. *)
Definition string_at (b : list Z) (p : nat) : option (list Z) :=
  if terminated b p then Some (cstr b p) else None.


(** The text before the first [c] of [s], all of [s] when there is none. *)
Definition before (c : Z) (s : list Z) : list Z :=
  take_while (λ x, negb (x =? c)%Z) s.

(** The text after the first [c] of [s]. *)
Definition after (c : Z) (s : list Z) : list Z :=
  drop 1 (drop_while (λ x, negb (x =? c)%Z) s).

(** Whether every cell is a 7-bit character. *)
Definition ascii_only (s : list Z) : bool :=
  forallb (λ c, (0 <=? c)%Z && (c <? 128)%Z) s.

(** ** Facts about characters *)

Lemma to_uchar_range c : (0 ≤ to_uchar c < 256)%Z.
Proof. by apply Z.mod_pos_bound. Qed.

Lemma to_uchar_small c : (0 ≤ c < 256)%Z → to_uchar c = c.
Proof. apply Z.mod_small. Qed.

Lemma ctype_dom_uchar c : ctype_dom (to_uchar c).
Proof. unfold ctype_dom. pose proof (to_uchar_range c). lia. Qed.

Lemma ctype_in_dom f i : ctype_dom i → ctype f i = Some (f i).
Proof. intros H. unfold ctype. by rewrite decide_True. Qed.

Lemma ctype_outside f i : ¬ ctype_dom i → ctype f i = None.
Proof. intros H. unfold ctype. by rewrite decide_False. Qed.

Lemma isspace_uchar c : isspace (to_uchar c) = Some (is_space c).
Proof. unfold isspace, is_space. apply ctype_in_dom, ctype_dom_uchar. Qed.

Lemma is_space_not_nul c : is_space c = true → c ≠ 0%Z.
Proof. intros H ->. done. Qed.

Lemma is_space_nul : is_space 0 = false.
Proof. done. Qed.

Lemma is_space_cr : is_space 13 = true.
Proof. done. Qed.

Lemma char_to_int_unsigned `{CharModel} c :
  char_signed = false → char_to_int c = to_uchar c.
Proof. unfold char_to_int. by intros ->. Qed.

Lemma char_to_int_ascii `{CharModel} c : (0 ≤ c < 128)%Z → char_to_int c = c.
Proof.
  intros Hc. unfold char_to_int. rewrite to_uchar_small by lia.
  destruct char_signed; simpl; [|done]. case_test; [lia|done].
Qed.

Lemma char_ok_unsigned `{CharModel} c : char_signed = false → char_ok c.
Proof.
  intros Hs. unfold char_ok. rewrite char_to_int_unsigned by done.
  apply ctype_dom_uchar.
Qed.

Lemma char_ok_ascii `{CharModel} c : (0 ≤ c < 128)%Z → char_ok c.
Proof.
  intros Hc. unfold char_ok. rewrite char_to_int_ascii by done.
  unfold ctype_dom. lia.
Qed.

Lemma ascii_only_char_ok `{CharModel} s :
  ascii_only s = true → Forall char_ok s.
Proof.
  intros Hs. apply forallb_Forall in Hs. eapply list.Forall_impl; [exact Hs|].
  intros c Hc. simpl in Hc. apply char_ok_ascii. lia.
Qed.

#[export] Hint Resolve is_space_not_nul ctype_dom_uchar : chars.
#[export] Hint Rewrite isspace_uchar : libc.

(** ** Facts about memory *)

Lemma store_Some b p v : p < length b → store b p v = Some (<[p:=v]> b).
Proof. intros H. unfold store. by rewrite decide_True. Qed.

Lemma store_None b p v : length b ≤ p → store b p v = None.
Proof. intros H. unfold store. rewrite decide_False; [done|lia]. Qed.

Lemma store_length b p v b' : store b p v = Some b' → length b' = length b.
Proof. unfold store. case_decide; [|done]. intros [= <-]. apply length_insert. Qed.

(** A write in the middle of a buffer, on its three parts. *)
Lemma insert_middle (pre post : list Z) x v :
  <[length pre:=v]> (pre ++ x :: post) = pre ++ v :: post.
Proof. by rewrite insert_app_r_alt, Nat.sub_diag by lia. Qed.

Lemma lookup_middle (pre post : list Z) x :
  (pre ++ x :: post) !! length pre = Some x.
Proof. by rewrite list_lookup_middle. Qed.

(** ** Buffers that hold a string *)
Section cstring.
Implicit Types (b s pre post : list Z) (p i : nat) (c : Z).

Lemma cstring_at_intro pre s post :
  nul_free s → cstring_at (pre ++ s ++ 0%Z :: post) (length pre) s.
Proof. intros H. split; [done|]. exists post. by rewrite drop_app_length. Qed.

Lemma cstring_at_split b p s :
  cstring_at b p s →
  ∃ pre post, b = pre ++ s ++ 0%Z :: post ∧ length pre = p.
Proof.
  intros [_ [post E]]. exists (take p b), post. split.
  - by rewrite <-E, take_drop.
  - apply length_take_le. apply Nat.lt_le_incl, Nat.nle_gt. intros Hle.
    rewrite drop_ge in E by done. by destruct s.
Qed.

Lemma cstring_at_nul_free b p s : cstring_at b p s → nul_free s.
Proof. by intros [? _]. Qed.

Lemma cstring_at_bound b p s : cstring_at b p s → p + length s < length b.
Proof. intros (pre & post & -> & <-)%cstring_at_split. list_len. Qed.

Lemma cstring_at_lookup b p s i :
  cstring_at b p s → i < length s → b !! (p + i) = s !! i.
Proof.
  intros (pre & post & -> & <-)%cstring_at_split Hi.
  by rewrite lookup_app_r, Nat.add_sub', lookup_app_l by lia.
Qed.

Lemma cstring_at_lookup_end b p s :
  cstring_at b p s → b !! (p + length s) = Some 0%Z.
Proof.
  intros (pre & post & -> & <-)%cstring_at_split.
  rewrite lookup_app_r, Nat.add_sub' by lia. apply lookup_middle.
Qed.

Lemma cstring_at_head b p s :
  cstring_at b p s → b !! p = Some (default 0%Z (head s)).
Proof.
  intros H. destruct s as [|c s]; simpl.
  - rewrite <-(Nat.add_0_r p). apply (cstring_at_lookup_end _ _ _ H).
  - rewrite <-(Nat.add_0_r p). by rewrite (cstring_at_lookup _ _ _ 0 H) by (simpl; lia).
Qed.

Lemma cstring_at_drop b p s i :
  cstring_at b p s → i ≤ length s → cstring_at b (p + i) (drop i s).
Proof.
  intros H Hi. pose proof (cstring_at_nul_free _ _ _ H) as Hs.
  apply cstring_at_split in H as (pre & post & -> & <-).
  rewrite <-(take_drop i s) at 1. rewrite <-(assoc_L (++)), (assoc_L (++) pre).
  replace (length pre + i) with (length (pre ++ take i s)) by list_len.
  by apply cstring_at_intro, Forall_drop.
Qed.

Lemma cstring_at_store_nul b p s i :
  cstring_at b p s → i ≤ length s → cstring_at (<[p + i:=0%Z]> b) p (take i s).
Proof.
  intros [Hs [post E]] Hi. split; [by apply Forall_take|].
  exists (drop (S i) (s ++ 0%Z :: post)).
  rewrite drop_insert_ge, Nat.add_sub', E by lia.
  rewrite insert_take_drop by list_len. by rewrite take_app_le.
Qed.

(** A write before the string does not touch it. *)
Lemma cstring_at_store_before b q s j v :
  j < q → cstring_at b q s → cstring_at (<[j:=v]> b) q s.
Proof. intros Hj [Hs [post E]]. split; [done|]. exists post. by rewrite drop_insert_lt. Qed.

(** A write after the terminator does not touch the string. *)
Lemma cstring_at_store_after b p s j v :
  p + length s < j → cstring_at b p s → cstring_at (<[j:=v]> b) p s.
Proof.
  intros Hj [Hs [post E]]. split; [done|]. exists (<[j - p - S (length s):=v]> post).
  rewrite drop_insert_ge, E by lia.
  rewrite insert_app_r_alt by lia. simpl.
  replace (j - p - length s) with (S (j - p - S (length s))) by lia. done.
Qed.

(** ** Results of the string functions *)

Lemma cstring_at_unique b p s s' :
  cstring_at b p s → cstring_at b p s' → s = s'.
Proof.
  intros [Hs [post E]] [Hs' [post' E']]. rewrite E in E'. clear E.
  revert s' Hs' E'. induction Hs as [|c s Hc Hs IH]; intros [|c' s'] Hs' E;
    simplify_eq/=; try done.
  - by inv Hs'.
  - inv Hs'. f_equal. by apply IH.
Qed.

Lemma cstr_app s post : nul_free s → take_while (λ c, negb (c =? 0)%Z) (s ++ 0%Z :: post) = s.
Proof.
  intros Hs. rewrite take_while_app_all; [simpl; apply app_nil_r|].
  eapply list.Forall_impl; [exact Hs|]. intros c Hc. simpl. by destruct (Z.eqb_spec c 0).
Qed.

Lemma cstring_at_cstr b p s : cstring_at b p s → cstr b p = s.
Proof. intros [Hs [post E]]. unfold cstr. rewrite E. by apply cstr_app. Qed.

Lemma terminated_cstring b p : terminated b p = true → cstring_at b p (cstr b p).
Proof.
  unfold terminated, cstr, cstring_at. rewrite bool_decide_eq_true.
  induction (drop p b) as [|c l IH]; simpl; [by intros ?%elem_of_nil|].
  destruct (Z.eqb_spec c 0) as [->|Hc]; simpl; [by eauto|].
  intros [E0|Hl]%elem_of_cons; [by subst|].
  destruct (IH Hl) as [Hs [post E]]. split; [by constructor|].
  exists post. by rewrite <-E.
Qed.

Lemma strlen_from_app s post : nul_free s → strlen_from (s ++ 0%Z :: post) = Some (length s).
Proof.
  induction 1 as [|c s Hc _ IH]; simpl; [done|].
  case_decide; [done|]. by rewrite IH.
Qed.

Lemma strlen_cstring b p s : cstring_at b p s → strlen b p = Some (length s).
Proof. intros [Hs [post E]]. unfold strlen. rewrite E. by apply strlen_from_app. Qed.

Lemma strchr_from_absent s post c p :
  c ≠ 0%Z → c ∉ s → nul_free s → strchr_from (s ++ 0%Z :: post) c p = Some None.
Proof.
  intros Hc Hn Hs. revert p. induction Hs as [|x s Hx _ IH]; intros p; simpl.
  - by repeat case_decide.
  - apply not_elem_of_cons in Hn as [? ?].
    repeat case_decide; try done. by apply IH.
Qed.

Lemma strchr_from_first s1 s2 c p :
  c ∉ s1 → nul_free s1 → strchr_from (s1 ++ c :: s2) c p = Some (Some (p + length s1)).
Proof.
  intros Hn Hs. revert p. induction Hs as [|x s Hx _ IH]; intros p; simpl.
  - case_decide; [|done]. do 2 f_equal. lia.
  - apply not_elem_of_cons in Hn as [? ?].
    repeat case_decide; try done. rewrite IH by done. do 2 f_equal. lia.
Qed.

Lemma strchr_absent b p s c :
  cstring_at b p s → c ≠ 0%Z → c ∉ s → strchr b p c = Some None.
Proof. intros [Hs [post E]] ??. unfold strchr. rewrite E. by apply strchr_from_absent. Qed.

Lemma strchr_first b p s1 s2 c :
  cstring_at b p (s1 ++ c :: s2) → c ∉ s1 →
  strchr b p c = Some (Some (p + length s1)).
Proof.
  intros [Hs [post E]] ?. unfold strchr. rewrite E, <-(assoc_L (++)). simpl.
  apply strchr_from_first; [done|]. by apply Forall_app in Hs as [? _].
Qed.

(** The prefix and the suffix of a buffer after a write at [d]. *)
Lemma store_step dst d c k m :
  d < length dst → d < m →
  take (S d) (<[d:=c]> dst) ++ k ++ drop m (<[d:=c]> dst)
  = take d dst ++ (c :: k) ++ drop m dst.
Proof.
  intros Hd Hm. rewrite (take_S_r _ _ c) by (by apply list_lookup_insert_eq).
  rewrite take_insert_ge, drop_insert_lt by lia. by rewrite <-(assoc_L (++)).
Qed.

Lemma store_zeros_spec dst d n :
  d + n ≤ length dst →
  store_zeros dst d n = Some (take d dst ++ replicate n 0%Z ++ drop (d + n) dst).
Proof.
  revert dst d. induction n as [|n IH]; intros dst d Hle; simpl.
  - by rewrite Nat.add_0_r, take_drop.
  - rewrite store_Some by lia. simpl. rewrite IH by list_len.
    by rewrite store_step, Nat.add_succ_r by lia.
Qed.

Lemma take_pad s n :
  take n (s ++ replicate (S n) 0%Z) = take n (s ++ replicate n 0%Z).
Proof. rewrite replicate_S_end, (assoc_L (++)). apply take_app_le. list_len. Qed.

Lemma strncpy_from_spec dst d s post n :
  nul_free s → d + n ≤ length dst →
  strncpy_from dst d (s ++ 0%Z :: post) n
  = Some (take d dst ++ take n (s ++ replicate n 0%Z) ++ drop (d + n) dst).
Proof.
  intros Hs. revert dst d n. induction Hs as [|c s Hc _ IH]; intros dst d [|n] Hle; simpl.
  - by rewrite Nat.add_0_r, take_drop.
  - rewrite store_Some by lia. simpl.
    rewrite store_zeros_spec by list_len. rewrite take_replicate, Nat.min_id.
    by rewrite store_step, Nat.add_succ_r by lia.
  - by rewrite Nat.add_0_r, take_drop.
  - rewrite store_Some by lia. simpl. case_decide; [done|].
    rewrite IH by list_len. rewrite store_step, Nat.add_succ_r by lia.
    simpl. change (0%Z :: replicate n 0%Z) with (replicate (S n) 0%Z).
    by rewrite take_pad.
Qed.

Lemma strncpy_cstring dst d src p s n :
  cstring_at src p s → d + n ≤ length dst →
  strncpy dst d src p n
  = Some (take d dst ++ take n (s ++ replicate n 0%Z) ++ drop (d + n) dst).
Proof. intros [Hs [post E]] ?. unfold strncpy. rewrite E. by apply strncpy_from_spec. Qed.
End cstring.

(** A buffer given in full holds the string that [cstr] reads from it. *)
Lemma cstring_at_compute b p s :
  terminated b p = true → cstr b p = s → cstring_at b p s.
Proof. intros Ht <-. by apply terminated_cstring. Qed.

(** Closes [cstring_at b p s] on closed terms. *)
Ltac cstring_closed := apply cstring_at_compute; vm_compute; reflexivity.

(** A terminator written inside a string cuts it there. *)
Lemma cstring_at_cut b p s1 s2 :
  cstring_at b p (s1 ++ s2) → cstring_at (<[p + length s1 := 0%Z]> b) p s1.
Proof.
  intros H. pose proof (cstring_at_store_nul _ _ _ (length s1) H) as H'.
  rewrite take_app_length in H'. apply H'. list_len.
Qed.

(** A buffer that starts with [s] and a NUL holds the string [s] at 0. *)
Lemma cstring_at_0 s post : nul_free s → cstring_at (s ++ 0%Z :: post) 0 s.
Proof. intros Hs. by apply (cstring_at_intro []). Qed.

(** The first character of a string and the string after it. *)
Lemma cstring_at_inv_cons b p c s :
  cstring_at b p (c :: s) →
  b !! p = Some c ∧ c ≠ 0%Z ∧ cstring_at b (S p) s.
Proof.
  intros H. pose proof (cstring_at_head _ _ _ H) as Hl.
  pose proof (cstring_at_nul_free _ _ _ H) as Hn. inv Hn.
  apply (cstring_at_drop _ _ _ 1) in H; [|simpl; lia].
  rewrite Nat.add_1_r in H. simpl in H, Hl. by rewrite drop_0 in H.
Qed.

(** ** The first occurrence of a character *)

Lemma before_not_elem c s : c ∉ before c s.
Proof.
  intros Hin. pose proof (take_while_all (λ x, negb (x =? c)%Z) s) as Ha.
  eapply Forall_forall in Ha; [|exact Hin]. simpl in Ha.
  by rewrite Z.eqb_refl in Ha.
Qed.

Lemma before_after c s : c ∈ s → s = before c s ++ c :: after c s.
Proof.
  intros Hin. unfold before, after.
  pose proof (take_drop_while (λ x, negb (x =? c)%Z) s) as E.
  pose proof (drop_while_head (λ x, negb (x =? c)%Z) s) as Hh.
  destruct (drop_while _ s) as [|x k]; simpl in *.
  - rewrite app_nil_r in E. rewrite <-E in Hin. by apply before_not_elem in Hin.
  - destruct (Z.eqb_spec x c) as [->|]; [|done]. by rewrite drop_0.
Qed.

Lemma before_absent c s : c ∉ s → before c s = s.
Proof.
  intros Hn. unfold before. rewrite <-(app_nil_r s) at 1.
  rewrite take_while_app_all; [by rewrite app_nil_r|].
  apply Forall_forall. intros x Hx. destruct (Z.eqb_spec x c); [by subst|done].
Qed.

Lemma before_first c s1 s2 : c ∉ s1 → before c (s1 ++ c :: s2) = s1.
Proof.
  intros Hn. unfold before. rewrite take_while_app_all.
  - simpl. by rewrite Z.eqb_refl, app_nil_r.
  - apply Forall_forall. intros x Hx. destruct (Z.eqb_spec x c); [by subst|done].
Qed.

Lemma before_length c s : length (before c s) ≤ length s.
Proof.
  rewrite <-(take_drop_while (λ x, negb (x =? c)%Z) s) at 2. unfold before. list_len.
Qed.

Lemma before_after_length c s :
  c ∈ s → length (before c s) + S (length (after c s)) = length s.
Proof. intros Hin. rewrite (before_after c s Hin) at 3. list_len. Qed.

(** [strchr] on a string, for a character other than the terminator. *)
Lemma strchr_cstring b p s c :
  cstring_at b p s → c ≠ 0%Z →
  strchr b p c
  = Some (if decide (c ∈ s) then Some (p + length (before c s)) else None).
Proof.
  intros Hb Hc. case_decide as Hin.
  - rewrite (before_after c s Hin) in Hb at 1.
    apply (strchr_first _ _ _ _ _ Hb), before_not_elem.
  - by apply (strchr_absent _ _ s).
Qed.

(** A NUL written over a character of a string splits it in two strings. *)
Lemma cstring_at_split_middle b p n c v :
  cstring_at b p (n ++ c :: v) →
  cstring_at (<[p + length n := 0%Z]> b) p n ∧
  cstring_at (<[p + length n := 0%Z]> b) (S (p + length n)) v.
Proof.
  intros Hb. split; [by apply cstring_at_cut in Hb|].
  apply cstring_at_store_before; [lia|].
  pose proof (cstring_at_drop _ _ _ (S (length n)) Hb) as Hd.
  rewrite (cons_middle c), (assoc_L (++)), drop_app_length' in Hd by list_len.
  rewrite Nat.add_succ_r in Hd. apply Hd. list_len.
Qed.

(** [strncpy] of a string that fits into the whole destination. *)
Lemma strncpy_fits dst src p v n :
  cstring_at src p v → length v ≤ n → length dst = n →
  strncpy dst 0 src p n = Some (v ++ replicate (n - length v) 0%Z).
Proof.
  intros Hb Hv Hd. rewrite (strncpy_cstring _ _ _ _ _ _ Hb) by lia. simpl.
  rewrite drop_ge, app_nil_r by lia.
  by rewrite take_app, take_replicate, take_ge, Nat.min_l by lia.
Qed.

(** A string the buffer holds is the string a library function reads. *)
Lemma string_at_cstring b p s : cstring_at b p s → string_at b p = Some s.
Proof.
  intros Hb. unfold string_at, terminated. rewrite (cstring_at_cstr _ _ _ Hb).
  destruct Hb as [_ [post E]]. rewrite bool_decide_eq_true_2; [done|].
  rewrite E. apply elem_of_app. right. left.
Qed.

(** The characters before the first [c] are characters of the text. *)
Lemma before_Forall (P : Z → Prop) c s : Forall P s → Forall P (before c s).
Proof.
  unfold before. induction 1 as [|x s Hx _ IH]; simpl; [done|].
  destruct (negb _); [by constructor|done].
Qed.

Lemma nul_free_not_elem s : nul_free s → 0%Z ∉ s.
Proof. intros Hs Hin. eapply Forall_forall in Hs; [|exact Hin]. done. Qed.

(** The text before the first NUL holds none. *)
Lemma before_nul_free s : nul_free (before 0%Z s).
Proof.
  apply Forall_forall. intros x Hx ->. by apply (before_not_elem 0%Z s).
Qed.

(** A buffer that starts with [s] and a NUL holds, as a string, the text of
    [s] before its first NUL. *)
Lemma cstring_at_before s post : cstring_at (s ++ 0%Z :: post) 0 (before 0%Z s).
Proof.
  split; [apply before_nul_free|]. rewrite drop_0.
  destruct (decide (0%Z ∈ s)) as [Hin|Hin].
  - exists (after 0%Z s ++ 0%Z :: post).
    by rewrite app_comm_cons, app_assoc, <-(before_after 0%Z s).
  - rewrite before_absent by done. eauto.
Qed.

(** The text after the first [c]. *)
Lemma after_first c s1 s2 : c ∉ s1 → after c (s1 ++ c :: s2) = s2.
Proof.
  intros Hc. unfold after. induction s1 as [|x s1 IH]; simpl.
  - by rewrite Z.eqb_refl.
  - apply not_elem_of_cons in Hc as [Hx Hc].
    destruct (Z.eqb_spec x c); [done|]. simpl. by apply IH.
Qed.
