(* ===== verification/Header.v ===== *)
(** * Header: the constants and the entry type of src/dotenv.h, and the
    diagnostics of src/dotenv.c *)

From S2P Require Import Prelude.

(** Line 12: the size of the line buffer and of the two fields of an entry. *)
Definition LINE_SIZE : nat := 1024.

(** Line 15: the longest name [is_valid_variable_name] accepts. *)
Definition MAX_VAR_NAME : nat := 256.

(** Lines 18-21: [typedef struct { char name[LINE_SIZE]; char value[LINE_SIZE]; }
    dotenv_entry;] with each array as a buffer. *)
Record dotenv_entry := Entry {
  entry_name : list Z;
  entry_value : list Z;
}.

(** What the code writes to [stderr]: the message of dotenv.c line 82, of
    line 111 ([perror]) and of line 131 with the string it prints. *)
Inductive diag :=
  | NameExceedsMaximum
  | FailedToOpen
  | SkippingInvalidLine (text : list Z).

(** Both arrays of an entry have their declared size. *)
Definition entry_wf (e : dotenv_entry) : Prop :=
  length (entry_name e) = LINE_SIZE ∧ length (entry_value e) = LINE_SIZE.

(** An entry whose arrays hold [c] everywhere, for tests: the code never
    initialises the entry, so its first content is arbitrary. *)
Definition entry_filled (c : Z) : dotenv_entry :=
  Entry (replicate LINE_SIZE c) (replicate LINE_SIZE c).

Lemma LINE_SIZE_eq : LINE_SIZE = 1024.
Proof. reflexivity. Qed.

Lemma MAX_VAR_NAME_eq : MAX_VAR_NAME = 256.
Proof. reflexivity. Qed.

Lemma LINE_SIZE_room : 0 < LINE_SIZE - 1.
Proof. rewrite LINE_SIZE_eq. lia. Qed.

Lemma MAX_VAR_NAME_lt : MAX_VAR_NAME < LINE_SIZE.
Proof. unfold MAX_VAR_NAME, LINE_SIZE. lia. Qed.

Lemma entry_filled_wf c : entry_wf (entry_filled c).
Proof. split; apply length_replicate. Qed.

#[global] Opaque LINE_SIZE MAX_VAR_NAME.
