(* ===== verification/Trim.v ===== *)
(** * Trim: [trim_whitespace] (src/dotenv.c, lines 10-32)

    The function works in place: it advances the pointer over leading
    whitespace, writes a NUL after the last character that is not
    whitespace, and returns the advanced pointer.  The model returns the
    buffer after the writes together with the pointer.

    - [skip_spaces], [back_spaces]: the two loops.
    - [trim_trailing]: lines 20-24; [strip_cr]: lines 27-29.
    - [trim_whitespace]: the whole function.
    - [lead], [trim]: the abstract counterpart on strings without terminator.

    Main results: [trim_whitespace_refines] (the function never leaves the
    buffer and computes [trim]), [strip_cr_after_trim] (lines 27-29 never
    change anything), [trim_characterised], [trim_whitespace_twice]. *)

From S2P Require Import Prelude Libc.

(** ** The code *)

(** Line 14: [while (isspace((unsigned char)*str)) str++;] run on the cells
    from [str] on. *)
Fixpoint skip_spaces (s : list Z) (str : nat) : option nat :=
  match s with
  | [] => None
  | c :: s' =>
      sp ← isspace (to_uchar c);
      if sp : bool then skip_spaces s' (S str) else Some str
  end.

(** Line 21: [while (end > str && isspace((unsigned char)*end)) end--;]
    where [n] is the distance [end - str]. *)
Fixpoint back_spaces (b : list Z) (str n : nat) : option nat :=
  match n with
  | 0 => Some str
  | S n' =>
      c ← b !! (str + n);
      sp ← isspace (to_uchar c);
      if sp : bool then back_spaces b str n' else Some (str + n)
  end.

(** [strlen(str) - 1] as an index: for an empty string the subtraction wraps
    around in [size_t] and the index is outside every buffer. *)
Definition last_index (len : nat) : option nat :=
  match len with 0 => None | S n => Some n end.

(** Lines 20-24: find the last character that is not whitespace and write
    the terminator after it. *)
Definition trim_trailing (b : list Z) (str : nat) : option (list Z) :=
  len ← strlen b str;
  n ← last_index len;
  end_ ← back_spaces b str n;
  store b (end_ + 1) 0%Z.

(** Lines 27-29: [if (str[strlen(str) - 1] == '\r') str[strlen(str) - 1] = 0;] *)
Definition strip_cr (b : list Z) (str : nat) : option (list Z) :=
  len ← strlen b str;
  i ← last_index len;
  c ← b !! (str + i);
  if decide (c = C_CR) then
    len ← strlen b str;
    i ← last_index len;
    store b (str + i) 0%Z
  else Some b.

Definition trim_whitespace (b : list Z) (str : nat) : option (list Z * nat) :=
  str ← skip_spaces (drop str b) str;
  c ← b !! str;
  if decide (c = C_NUL) then Some (b, str)
  else
    b ← trim_trailing b str;
    b ← strip_cr b str;
    Some (b, str).

(** ** The contract *)

(** The number of leading whitespace characters. *)
Definition lead (s : list Z) : nat := length (take_while is_space s).

Definition trim (s : list Z) : list Z :=
  drop_end_while is_space (drop_while is_space s).

(** ** The loops *)

Lemma skip_spaces_spec ws c rest str :
  Forall (λ x, is_space x = true) ws → is_space c = false →
  skip_spaces (ws ++ c :: rest) str = Some (str + length ws).
Proof.
  intros Hws Hc. revert str.
  induction Hws as [|x ws Hx _ IH]; intros str; simpl.
  - rewrite isspace_uchar. simpl. rewrite Hc. f_equal. lia.
  - rewrite isspace_uchar. simpl. rewrite Hx, IH. f_equal. lia.
Qed.

(** On a string the first loop stops at the first character that is not
    whitespace, at the latest on the terminator. *)
Lemma skip_spaces_cstring b p s :
  cstring_at b p s → skip_spaces (drop p b) p = Some (p + lead s).
Proof.
  intros [_ [post E]]. rewrite E, <-(take_drop_while is_space s) at 1.
  rewrite <-(assoc_L (++)).
  pose proof (drop_while_head is_space s) as Hh.
  destruct (drop_while is_space s) as [|c k]; simpl.
  - apply skip_spaces_spec; [apply take_while_all|done].
  - apply skip_spaces_spec; [apply take_while_all|done].
Qed.

Lemma drop_lead s : drop (lead s) s = drop_while is_space s.
Proof.
  unfold lead. rewrite <-(take_drop_while is_space s) at 2.
  by rewrite drop_app_length.
Qed.

(** The second loop, started [n] cells after a character that is not
    whitespace, stops on the last such character among the first [S n]. *)
Lemma back_spaces_spec b p s n :
  cstring_at b p s → head_fails is_space s → n < length s →
  back_spaces b p n
  = Some (p + length (drop_end_while is_space (take (S n) s)) - 1).
Proof.
  intros Hb Hh. induction n as [|n IH]; intros Hn.
  - destruct s as [|c s]; [simpl in Hn; lia|]. simpl in *. rewrite take_0.
    rewrite (drop_end_while_snoc_fails _ [] c) by done. simpl. f_equal. lia.
  - destruct (lookup_lt_is_Some_2 s (S n) Hn) as [c Hc].
    cbn [back_spaces]. rewrite (cstring_at_lookup _ _ _ _ Hb), Hc by done.
    simpl. rewrite isspace_uchar. simpl. rewrite (take_S_r _ _ _ Hc).
    destruct (is_space c) eqn:Ec.
    + rewrite drop_end_while_app_all by (by repeat constructor).
      apply IH. lia.
    + rewrite drop_end_while_snoc_fails by done. f_equal.
      rewrite length_app, length_take_le by lia. simpl. lia.
Qed.

(** ** The contract's own properties *)

Lemma trim_head s : head_fails is_space (trim s).
Proof. apply drop_end_while_head, drop_while_head. Qed.

Lemma trim_last s : last_fails is_space (trim s).
Proof. apply drop_end_while_last. Qed.

Lemma trim_fixed s :
  head_fails is_space s → last_fails is_space s → trim s = s.
Proof.
  intros Hh Hl. unfold trim. rewrite drop_while_fixed by done.
  by apply drop_end_while_fixed.
Qed.

Lemma trim_length s : length (trim s) ≤ length s.
Proof.
  unfold trim. etrans; [apply drop_end_while_length|apply drop_while_length].
Qed.

Lemma trim_lead_length s : lead s + length (trim s) ≤ length s.
Proof.
  rewrite <-(take_drop_while is_space s) at 3. rewrite length_app.
  unfold lead, trim. pose proof (drop_end_while_length is_space (drop_while is_space s)).
  lia.
Qed.

(** The trimmed string is a prefix of what follows the leading whitespace. *)
Lemma trim_prefix s : take (length (trim s)) (drop (lead s) s) = trim s.
Proof.
  rewrite drop_lead. apply take_drop_end_while.
Qed.

Lemma trim_nil_iff s : trim s = [] ↔ drop_while is_space s = [].
Proof.
  split; [|by unfold trim; intros ->].
  intros E. pose proof (trim_head s) as Hh. unfold trim in *.
  destruct (drop_while is_space s) as [|c k] eqn:Ek; [done|]. exfalso.
  pose proof (drop_while_head is_space s) as Hc. rewrite Ek in Hc. simpl in Hc.
  destruct (drop_end_while_split is_space (c :: k)) as (t & Et & Ht).
  rewrite E in Et. simpl in Et. subst t. inv Ht. congruence.
Qed.

(** Trimming keeps everything between a first and a later character that
    are not whitespace. *)
Lemma trim_keeps ws x l y k :
  Forall (λ c, is_space c = true) ws → is_space x = false → is_space y = false →
  ∃ k', trim (ws ++ x :: l ++ y :: k) = x :: l ++ y :: k'.
Proof.
  intros Hws Hx Hy. unfold trim.
  rewrite drop_while_app_all, drop_while_fixed by done.
  rewrite (app_comm_cons l), drop_end_while_app_cons by done.
  destruct (drop_end_while_cons is_space y k Hy) as (k' & -> & _). by exists k'.
Qed.

(** Whitespace after a text does not change what trimming leaves. *)
Lemma trim_app_spaces s ws :
  Forall (λ c, is_space c = true) ws → trim (s ++ ws) = trim s.
Proof.
  intros Hws. unfold trim. destruct (drop_while is_space s) as [|x k] eqn:E.
  - apply drop_while_nil_all in E.
    by rewrite (proj2 (drop_while_nil_all is_space (s ++ ws))) by by apply Forall_app.
  - pose proof (drop_while_head is_space s) as Hh. rewrite E in Hh.
    rewrite <-(take_drop_while is_space s) at 1.
    rewrite E, <-(assoc_L (++)), drop_while_app_all by apply take_while_all.
    rewrite <-app_comm_cons, drop_while_fixed by done.
    by rewrite app_comm_cons, drop_end_while_app_all.
Qed.

(** Trimming removes exactly the whitespace around a text that starts and
    ends with characters that are not whitespace. *)
Lemma trim_between ws x l y ws' :
  Forall (λ c, is_space c = true) ws → Forall (λ c, is_space c = true) ws' →
  is_space x = false → is_space y = false →
  trim (ws ++ x :: l ++ y :: ws') = x :: l ++ [y].
Proof.
  intros Hws Hws' Hx Hy. unfold trim.
  rewrite drop_while_app_all, drop_while_fixed by done.
  change (x :: l ++ y :: ws') with ((x :: l) ++ [y] ++ ws').
  rewrite (assoc_L (++)), drop_end_while_app_all by done.
  by apply (drop_end_while_snoc_fails is_space (x :: l)).
Qed.

(** Text before a character that is not whitespace loses only its leading
    whitespace. *)
Lemma trim_before s x k :
  is_space x = false →
  ∃ k', trim (s ++ x :: k) = drop_while is_space s ++ x :: k'.
Proof.
  intros Hx. unfold trim. rewrite drop_while_app_cons by done.
  rewrite drop_end_while_app_cons by done.
  destruct (drop_end_while_cons is_space x k Hx) as (k' & -> & _). by exists k'.
Qed.

Lemma trim_Forall (P : Z → Prop) s : Forall P s → Forall P (trim s).
Proof. intros Hs. by apply drop_end_while_Forall, drop_while_Forall. Qed.

Lemma trim_nul_free s : nul_free s → nul_free (trim s).
Proof. intros Hs. by apply drop_end_while_Forall, drop_while_Forall. Qed.
(** ** The function *)

Lemma last_fails_lookup s n c :
  last_fails is_space s → length s = S n → s !! n = Some c → is_space c = false.
Proof.
  unfold last_fails. intros Hl Hn Hc.
  assert (head (reverse s) = Some c) as Hh.
  { rewrite head_reverse, last_lookup, Hn. done. }
  destruct (reverse s); simplify_eq/=. done.
Qed.

Lemma trim_trailing_spec b p s :
  cstring_at b p s → s ≠ [] → head_fails is_space s →
  trim_trailing b p
  = Some (<[p + length (drop_end_while is_space s) := 0%Z]> b).
Proof.
  intros Hb Hne Hh. unfold trim_trailing.
  rewrite (strlen_cstring _ _ _ Hb). simpl.
  destruct (length s) as [|n] eqn:En; [by destruct s|]. simpl.
  rewrite (back_spaces_spec _ _ _ _ Hb Hh) by lia. simpl.
  rewrite <-En, firstn_all.
  pose proof (drop_end_while_nonempty is_space s Hne Hh) as Hc.
  pose proof (drop_end_while_length is_space s).
  pose proof (cstring_at_bound _ _ _ Hb).
  destruct (drop_end_while is_space s) as [|x k]; [done|]. simpl in *.
  replace (p + S (length k) - 1 + 1) with (p + S (length k)) by lia.
  apply store_Some. lia.
Qed.

(** Lines 27-29 on any string that is not empty. *)
Lemma strip_cr_spec b p s n c :
  cstring_at b p s → length s = S n → s !! n = Some c →
  strip_cr b p = Some (if decide (c = 13%Z) then <[p + n := 0%Z]> b else b).
Proof.
  intros Hb Hn Hc. unfold strip_cr.
  rewrite (strlen_cstring _ _ _ Hb), Hn. simpl.
  rewrite (cstring_at_lookup _ _ _ _ Hb), Hc by lia. simpl.
  case_decide; [|done]. simpl. apply store_Some.
  pose proof (cstring_at_bound _ _ _ Hb). lia.
Qed.

(** On the empty string the index wraps around. *)
Lemma strip_cr_empty b p : cstring_at b p [] → strip_cr b p = None.
Proof. intros Hb. unfold strip_cr. by rewrite (strlen_cstring _ _ _ Hb). Qed.

Lemma strip_cr_noop b p s :
  cstring_at b p s → s ≠ [] → last_fails is_space s → strip_cr b p = Some b.
Proof.
  intros Hb Hne Hl. destruct (length s) as [|n] eqn:En; [by destruct s|].
  destruct (lookup_lt_is_Some_2 s n) as [c Hc]; [lia|].
  rewrite (strip_cr_spec _ _ _ _ _ Hb En Hc).
  pose proof (last_fails_lookup _ _ _ Hl En Hc). case_decide; [by subst|done].
Qed.

Theorem trim_whitespace_spec b p s :
  cstring_at b p s →
  trim_whitespace b p
  = Some (<[p + lead s + length (trim s) := 0%Z]> b, p + lead s).
Proof.
  intros Hb. unfold trim_whitespace.
  rewrite (skip_spaces_cstring _ _ _ Hb). simpl.
  pose proof (cstring_at_drop _ _ _ (lead s) Hb) as H1.
  rewrite drop_lead in H1.
  specialize (H1 ltac:(pose proof (trim_lead_length s); lia)).
  rewrite (cstring_at_head _ _ _ H1). simpl.
  pose proof (drop_while_head is_space s) as Hh. unfold trim.
  destruct (drop_while is_space s) as [|c k] eqn:E; simpl.
  - rewrite Nat.add_0_r. rewrite list_insert_id; [done|].
    by rewrite (cstring_at_head _ _ _ H1).
  - pose proof (cstring_at_nul_free _ _ _ H1) as Hn. inv Hn.
    case_decide; [done|].
    rewrite (trim_trailing_spec _ _ _ H1) by done. simpl.
    rewrite (strip_cr_noop _ _ (drop_end_while is_space (c :: k))); [done|..].
    + rewrite <-(take_drop_end_while is_space (c :: k)) at 2.
      apply cstring_at_store_nul; [done|]. apply drop_end_while_length.
    + by apply drop_end_while_nonempty.
    + apply drop_end_while_last.
Qed.

(** What the callers of [trim_whitespace] rely on: the result is a pointer
    to [trim s] in a buffer of the same size, and the strings that lie after
    the terminator of [s] are intact. *)
Lemma trim_whitespace_correct b p s :
  cstring_at b p s →
  ∃ b' p',
    trim_whitespace b p = Some (b', p') ∧
    cstring_at b' p' (trim s) ∧
    length b' = length b ∧
    (∀ q t, p + length s < q → cstring_at b q t → cstring_at b' q t).
Proof.
  intros Hb. eexists _, _. split; [by apply trim_whitespace_spec|].
  pose proof (trim_lead_length s) as Hl.
  split_and!; [|apply length_insert
               |by intros q t Hq; apply cstring_at_store_before; lia].
  pose proof (cstring_at_drop _ _ _ (lead s) Hb ltac:(lia)) as H1.
  pose proof (cstring_at_store_nul _ _ _ (length (trim s)) H1) as H2.
  rewrite trim_prefix in H2. apply H2. list_len.
Qed.

(** C5 (refinement).  Run on a buffer that holds a string [s],
    [trim_whitespace] stays inside the buffer, returns a pointer to a string
    that is [trim s], keeps the buffer's size and changes no cell other than
    the one that receives the terminator. *)
Theorem trim_whitespace_refines b p s :
  cstring_at b p s →
  ∃ b' p',
    trim_whitespace b p = Some (b', p') ∧
    cstring_at b' p' (trim s) ∧
    length b' = length b ∧
    (∀ i, i ≠ p' + length (trim s) → b' !! i = b !! i) ∧
    (∀ q t, p + length s < q → cstring_at b q t → cstring_at b' q t).
Proof.
  intros Hb. destruct (trim_whitespace_correct _ _ _ Hb) as (b' & p' & E & ? & ? & ?).
  exists b', p'. split_and!; [done..| |done].
  rewrite (trim_whitespace_spec _ _ _ Hb) in E. simplify_eq.
  intros i Hi. by apply list_lookup_insert_ne.
Qed.

Lemma trim_whitespace_refines_witness :
  ∃ b' p',
    trim_whitespace (str "  KEY " ++ [0%Z; 88%Z]) 0 = Some (b', p') ∧
    cstring_at b' p' (trim (str "  KEY ")) ∧
    length b' = length (str "  KEY " ++ [0%Z; 88%Z]) ∧
    (∀ i, i ≠ p' + length (trim (str "  KEY ")) →
          b' !! i = (str "  KEY " ++ [0%Z; 88%Z]) !! i) ∧
    (∀ q t, 0 + length (str "  KEY ") < q →
            cstring_at (str "  KEY " ++ [0%Z; 88%Z]) q t → cstring_at b' q t).
Proof. apply trim_whitespace_refines. cstring_closed. Defined.

(** C32 (equivalence).  After lines 20-24 have cut the trailing whitespace,
    the carriage-return strip of lines 27-29 finds no carriage return and
    leaves the buffer as it is: the last character of the string is not
    whitespace, and a carriage return is. *)
Theorem strip_cr_after_trim b p s :
  cstring_at b p s → s ≠ [] → head_fails is_space s →
  ∃ b1, trim_trailing b p = Some b1 ∧ strip_cr b1 p = Some b1.
Proof.
  intros Hb Hne Hh. eexists. split; [by apply trim_trailing_spec|].
  apply (strip_cr_noop _ _ (drop_end_while is_space s)).
  - rewrite <-(take_drop_end_while is_space s) at 2.
    apply cstring_at_store_nul; [done|]. apply drop_end_while_length.
  - by apply drop_end_while_nonempty.
  - apply drop_end_while_last.
Qed.

Lemma strip_cr_after_trim_witness :
  ∃ b1, trim_trailing (str "value" ++ [13%Z; 10%Z; 0%Z]) 0 = Some b1 ∧
        strip_cr b1 0 = Some b1.
Proof.
  apply (strip_cr_after_trim _ _ (str "value" ++ [13%Z; 10%Z]));
    [cstring_closed|done|done].
Defined.

(** Trimming is idempotent. *)
Lemma trim_idempotent s : trim (trim s) = trim s.
Proof. apply trim_fixed; [apply trim_head|apply trim_last]. Qed.

(** [trim s] is the part of [s] between its leading and
    its trailing whitespace: [s] is whitespace, then [trim s], then
    whitespace, and [trim s] neither starts nor ends with whitespace. *)
Theorem trim_characterised s :
  ∃ ws1 ws2,
    s = ws1 ++ trim s ++ ws2 ∧
    Forall (λ c, is_space c = true) ws1 ∧
    Forall (λ c, is_space c = true) ws2 ∧
    head_fails is_space (trim s) ∧ last_fails is_space (trim s).
Proof.
  destruct (drop_end_while_split is_space (drop_while is_space s)) as (t & E & Ht).
  exists (take_while is_space s), t. split; [|split; [|split; [|split]]].
  - unfold trim. by rewrite <-E, take_drop_while.
  - apply take_while_all.
  - done.
  - apply trim_head.
  - apply trim_last.
Qed.

(** C40 (functional).  Trimming its own result again, as [parse_line] does
    with the line [dotenv_load] has trimmed, [trim_whitespace] changes
    neither the buffer nor the pointer. *)
Theorem trim_whitespace_twice b p s :
  cstring_at b p s →
  ∃ b' p', trim_whitespace b p = Some (b', p') ∧
           trim_whitespace b' p' = Some (b', p').
Proof.
  intros Hb. destruct (trim_whitespace_correct _ _ _ Hb) as (b' & p' & E & Hb' & _).
  exists b', p'. split; [done|]. rewrite (trim_whitespace_spec _ _ _ Hb').
  rewrite (trim_fixed _ (trim_head s) (trim_last s)). unfold lead.
  rewrite take_while_fixed by apply trim_head. simpl. rewrite !Nat.add_0_r.
  by rewrite list_insert_id by apply (cstring_at_lookup_end _ _ _ Hb').
Qed.

Lemma trim_whitespace_twice_witness :
  ∃ b' p', trim_whitespace (str " A=1 # c " ++ [10%Z; 0%Z]) 0 = Some (b', p') ∧
           trim_whitespace b' p' = Some (b', p').
Proof. apply (trim_whitespace_twice _ _ (str " A=1 # c " ++ [10%Z])). cstring_closed. Defined.
