(* ===== verification/Value.v ===== *)
(** * Value: [parse_value] (src/dotenv.c, lines 35-73)

    The value is what follows the first [=] of a line.  After trimming, a
    value that starts with a double quote is decoded by the escape loop of
    lines 43-62 into [output] (quoted mode); any other value is cut at the
    first [#], trimmed again and copied with [strncpy] (unquoted mode).

    - [unescape], [parse_quoted], [parse_value_quoted], [cut_at_hash],
      [copy_value], [parse_value_unquoted], [parse_value]: the code, one
      definition per block.  [parse_value] returns the line buffer (cut by
      the trims and by the comment) and the output buffer.
    - [decode], [cut_comment], [value_of]: the contract on strings.
    - [encode]: the escaping that [decode] inverts.

    Main results: [parse_value_refines], [decode_length] (the quoted loop
    has no bound of its own: its writes stay inside [output] because the
    decoded value is no longer than its source), [decode_encode] and
    [parse_value_encode] (the escaping round-trips, on the contract and on
    the code), [parse_value_overflow] (on a quoted value the call stays
    inside an output buffer of any size exactly when the decoded value is
    shorter than the buffer). *)

From S2P Require Import Prelude Libc Header Trim.

(** ** The code *)

(** Lines 50-55: the [switch] on an escaped character. *)
Definition unescape (c : Z) : Z :=
  if decide (c = C_LOWER_N) then C_LF
  else if decide (c = C_LOWER_R) then C_CR
  else if decide (c = C_LOWER_T) then C_TAB
  else c.

(** Lines 43-62: the loop [while ( *value )], run on the cells from [value]
    on, with the flag [escaped], the output buffer and the offset [write]
    into it. *)
Fixpoint parse_quoted (s : list Z) (escaped : bool) (out : list Z) (write : nat)
  : option (list Z * nat) :=
  match s with
  | [] => None
  | c :: s' =>
      if decide (c = C_NUL) then Some (out, write)
      else if bool_decide (c = C_BACKSLASH) && negb escaped then
        parse_quoted s' true out write
      else if bool_decide (c = C_QUOTE) && negb escaped then
        Some (out, write)
      else if escaped then
        out ← store out write (unescape c);
        parse_quoted s' false out (S write)
      else
        out ← store out write c;
        parse_quoted s' escaped out (S write)
  end.

(** Lines 39-63, the quoted branch: skip the opening quote, run the loop on
    [output] from its start, terminate what was written. *)
Definition parse_value_quoted (b : list Z) (value : nat) (output : list Z)
  : option (list Z) :=
  '(output, write) ← parse_quoted (drop (S value) b) false output 0;
  store output write C_NUL.

(** Lines 66-69: a NUL over the first [#] of the value, if there is one. *)
Definition cut_at_hash (b : list Z) (value : nat) : option (list Z) :=
  comment_pos ← strchr b value C_HASH;
  match comment_pos with
  | Some q => store b q C_NUL
  | None => Some b
  end.

(** Lines 70-71: [strncpy(output, trimmed, LINE_SIZE - 1)] and the
    terminator in the last cell. *)
Definition copy_value (output b : list Z) (trimmed : nat) : option (list Z) :=
  output ← strncpy output 0 b trimmed (LINE_SIZE - 1);
  store output (LINE_SIZE - 1) C_NUL.

(** Lines 65-72, the unquoted branch. *)
Definition parse_value_unquoted (b : list Z) (value : nat) (output : list Z)
  : option (list Z * list Z) :=
  b ← cut_at_hash b value;
  '(b, trimmed) ← trim_whitespace b value;
  output ← copy_value output b trimmed;
  Some (b, output).

Definition parse_value (b : list Z) (value : nat) (output : list Z)
  : option (list Z * list Z) :=
  '(b, value) ← trim_whitespace b value;
  c ← b !! value;
  if decide (c = C_QUOTE) then
    output ← parse_value_quoted b value output;
    Some (b, output)
  else parse_value_unquoted b value output.

(** ** The contract *)

(** The quoted decoder on a string: the text up to the closing quote with
    the escapes resolved. *)
Fixpoint decode (s : list Z) (escaped : bool) : list Z :=
  match s with
  | [] => []
  | c :: s' =>
      if bool_decide (c = C_BACKSLASH) && negb escaped then decode s' true
      else if bool_decide (c = C_QUOTE) && negb escaped then []
      else if escaped then unescape c :: decode s' false
      else c :: decode s' false
  end.

(** The text before the first [#]. *)
Definition cut_comment (s : list Z) : list Z := before C_HASH s.

Definition value_of (s : list Z) : list Z :=
  match trim s with
  | c :: q =>
      if decide (c = C_QUOTE) then decode q false
      else take (LINE_SIZE - 1) (trim (cut_comment (c :: q)))
  | [] => []
  end.

(** The escaping of spec.md section 6: backslash before a backslash and a
    quote, the two-character sequences for newline, carriage return and
    tab. *)
Definition encode_char (c : Z) : list Z :=
  if decide (c = C_BACKSLASH) then [C_BACKSLASH; C_BACKSLASH]
  else if decide (c = C_QUOTE) then [C_BACKSLASH; C_QUOTE]
  else if decide (c = C_LF) then [C_BACKSLASH; C_LOWER_N]
  else if decide (c = C_CR) then [C_BACKSLASH; C_LOWER_R]
  else if decide (c = C_TAB) then [C_BACKSLASH; C_LOWER_T]
  else [c].

Definition encode (s : list Z) : list Z := s ≫= encode_char.

(** ** The decoder *)

Lemma unescape_not_nul c : c ≠ 0%Z → unescape c ≠ 0%Z.
Proof. unfold unescape. intros Hc. repeat case_decide; done. Qed.

Lemma decode_nul_free s esc : nul_free s → nul_free (decode s esc).
Proof.
  intros Hs. revert esc. induction Hs as [|c s Hc _ IH]; intros esc; simpl; [done|].
  repeat case_test; auto using unescape_not_nul.
Qed.

Lemma decode_length s esc : length (decode s esc) ≤ length s.
Proof.
  revert esc. induction s as [|c s IH]; intros esc; simpl; [done|].
  repeat case_test; simpl; try lia.
  - specialize (IH true). lia.
  - specialize (IH false). lia.
  - specialize (IH false). lia.
Qed.

(** The loop of lines 43-62 on a string: it writes the decoded text from
    [write] on, provided the output buffer has room for it. *)
Lemma parse_quoted_spec q post esc out w :
  nul_free q → w + length (decode q esc) ≤ length out →
  parse_quoted (q ++ 0%Z :: post) esc out w
  = Some (take w out ++ decode q esc ++ drop (w + length (decode q esc)) out,
          w + length (decode q esc)).
Proof.
  intros Hq. revert esc out w.
  induction Hq as [|c q Hc _ IH]; intros esc out w Hle; simpl in *.
  - by rewrite Nat.add_0_r, take_drop.
  - destruct (decide (c = 0%Z)) as [->|_]; [done|]. repeat case_test; simpl in *.
    + by apply IH.
    + by rewrite Nat.add_0_r, take_drop.
    + rewrite store_Some by lia. simpl. rewrite IH by list_len.
      rewrite store_step by lia. by rewrite !Nat.add_succ_r.
    + rewrite store_Some by lia. simpl. rewrite IH by list_len.
      rewrite store_step by lia. by rewrite !Nat.add_succ_r.
Qed.

(** Without that room the loop writes past the end of the buffer. *)
Lemma parse_quoted_overflow q post esc out w :
  nul_free q → w ≤ length out → length out < w + length (decode q esc) →
  parse_quoted (q ++ 0%Z :: post) esc out w = None.
Proof.
  intros Hq. revert esc out w.
  induction Hq as [|c q Hc _ IH]; intros esc out w Hw Hlt; simpl in *; [lia|].
  destruct (decide (c = 0%Z)) as [->|_]; [done|]. repeat case_test; simpl in *.
  - by apply IH.
  - lia.
  - destruct (decide (w < length out)); [|by rewrite store_None by lia].
    rewrite store_Some by done. simpl. apply IH; list_len.
  - destruct (decide (w < length out)); [|by rewrite store_None by lia].
    rewrite store_Some by done. simpl. apply IH; list_len.
Qed.

(** ** The comment cut *)

(** Lines 66-69 on a string: the buffer afterwards holds the text before the
    first [#]. *)
Lemma cut_at_hash_spec b p s :
  cstring_at b p s →
  ∃ b', cut_at_hash b p = Some b' ∧
        cstring_at b' p (cut_comment s) ∧ length b' = length b.
Proof.
  intros Hb. unfold cut_at_hash, cut_comment.
  rewrite (strchr_cstring _ _ _ _ Hb) by done. simpl. case_decide as Hin.
  - pose proof (cstring_at_bound _ _ _ Hb). pose proof (before_after_length _ _ Hin).
    rewrite store_Some by lia. eexists. split; [done|].
    split; [|apply length_insert].
    rewrite (before_after _ _ Hin) in Hb at 1. by apply cstring_at_cut in Hb.
  - exists b. by rewrite before_absent.
Qed.

(** ** The function *)

(** The quoted branch, lines 39-63. *)
Lemma parse_value_quoted_spec b p q out :
  cstring_at b p (C_QUOTE :: q) → length (decode q false) < length out →
  ∃ out',
    parse_value_quoted b p out = Some out' ∧
    cstring_at out' 0 (decode q false) ∧ length out' = length out.
Proof.
  intros Hb Hlen. unfold parse_value_quoted.
  apply cstring_at_inv_cons in Hb as (_ & _ & [Hn [post E]]).
  rewrite E, parse_quoted_spec by (done || simpl; lia). simpl.
  rewrite store_Some by list_len. eexists. split; [done|].
  rewrite insert_app_r_alt, Nat.sub_diag by lia.
  split; [|list_len].
  destruct (drop (length (decode q false)) out) eqn:Ed.
  { apply (f_equal length) in Ed. list_len. }
  simpl. by apply cstring_at_0, decode_nul_free.
Qed.

(** The copy of lines 70-71 into a buffer of [S n] cells: [n] characters at
    most, then NUL bytes up to the end. *)
Lemma copy_spec b p v out n :
  cstring_at b p v → length out = S n →
  (strncpy out 0 b p n ≫= λ output, store output n C_NUL)
  = Some (take n v ++ replicate (S (n - length v)) 0%Z).
Proof.
  intros Hb Hlen. rewrite (strncpy_cstring _ _ _ _ _ _ Hb) by lia. simpl.
  rewrite store_Some by list_len. f_equal.
  rewrite take_app, take_replicate, Nat.min_l by lia.
  assert (∃ x, drop n out = [x]) as [x ->].
  { destruct (drop n out) as [|x [|y k]] eqn:E; [| by eauto |];
      apply (f_equal length) in E; list_len. }
  rewrite insert_app_r_alt by list_len.
  replace (n - length (take n v ++ _)) with 0 by list_len. simpl.
  by rewrite <-(assoc_L (++)), <-replicate_S_end.
Qed.

Lemma copy_value_spec b p v out :
  cstring_at b p v → length out = LINE_SIZE →
  ∃ out', copy_value out b p = Some out' ∧
          cstring_at out' 0 (take (LINE_SIZE - 1) v) ∧ length out' = LINE_SIZE.
Proof.
  intros Hb Hlen. unfold copy_value.
  assert (length out = S (LINE_SIZE - 1)) as Hlen' by (rewrite Hlen, LINE_SIZE_eq; lia).
  pose proof (cstring_at_nul_free _ _ _ Hb) as Hv.
  rewrite (copy_spec _ _ _ _ _ Hb Hlen'). eexists. split; [done|].
  split; [by apply cstring_at_0, Forall_take|].
  list_len.
Qed.

(** The unquoted branch, lines 65-72. *)
Lemma parse_value_unquoted_spec b p t out :
  cstring_at b p t → length out = LINE_SIZE →
  ∃ b' out',
    parse_value_unquoted b p out = Some (b', out') ∧
    cstring_at out' 0 (take (LINE_SIZE - 1) (trim (cut_comment t))) ∧
    length out' = LINE_SIZE ∧ length b' = length b.
Proof.
  intros Hb Hout. unfold parse_value_unquoted.
  destruct (cut_at_hash_spec _ _ _ Hb) as (b1 & -> & H1 & Hl1). simpl.
  destruct (trim_whitespace_correct _ _ _ H1) as (b2 & p2 & -> & H2 & Hl2 & _).
  simpl. destruct (copy_value_spec _ _ _ _ H2 Hout) as (out' & -> & ? & ?).
  simpl. exists b2, out'. split_and!; [done..|congruence].
Qed.

(** [parse_value] on a text no longer than [LINE_SIZE]. *)
Lemma parse_value_correct b p s out :
  cstring_at b p s → length s ≤ LINE_SIZE → length out = LINE_SIZE →
  ∃ b' out',
    parse_value b p out = Some (b', out') ∧
    cstring_at out' 0 (value_of s) ∧
    length out' = LINE_SIZE ∧ length b' = length b.
Proof.
  intros Hb Hs Hout. unfold parse_value, value_of.
  destruct (trim_whitespace_correct _ _ _ Hb) as (b1 & p1 & -> & H1 & Hl1 & _).
  simpl. rewrite (cstring_at_head _ _ _ H1).
  pose proof (trim_length s) as Ht.
  destruct (trim s) as [|c q] eqn:Et; simpl.
  - destruct (parse_value_unquoted_spec _ _ _ _ H1 Hout) as (b' & out' & -> & H & ? & ?).
    change (trim (cut_comment [])) with (@nil Z) in H.
    rewrite take_nil in H. exists b', out'. split_and!; [done..|congruence].
  - case_decide as Hc.
    + subst c. destruct (parse_value_quoted_spec _ _ _ out H1) as (out' & -> & ? & ?).
      { pose proof (decode_length q false). simpl in Ht. lia. }
      simpl. exists b1, out'. split_and!; [done..|congruence|done].
    + destruct (parse_value_unquoted_spec _ _ _ _ H1 Hout) as (b' & out' & -> & ? & ? & ?).
      exists b', out'. split_and!; [done..|congruence].
Qed.

(** A value is no longer than the text it is read from. *)
Lemma value_of_length s : length (value_of s) ≤ length s.
Proof.
  unfold value_of. pose proof (trim_length s) as Ht.
  destruct (trim s) as [|c q] eqn:E; [simpl; lia|]. case_decide.
  - pose proof (decode_length q false). simpl in Ht. lia.
  - rewrite length_take. pose proof (trim_length (cut_comment (c :: q))).
    pose proof (before_length C_HASH (c :: q)). unfold cut_comment in *. lia.
Qed.

(** C4 (refinement).  On a line buffer that holds the text [s] after the
    [=] and an output buffer of [LINE_SIZE] cells, [parse_value] stays inside
    both buffers and leaves in [output] the string [value_of s], which is no
    longer than [s] and so fits with its terminator; both buffers keep their
    size.  The text must be shorter than [LINE_SIZE]: the quoted loop checks
    no bound. *)
Theorem parse_value_refines b p s out :
  cstring_at b p s → length s < LINE_SIZE → length out = LINE_SIZE →
  ∃ b' out',
    parse_value b p out = Some (b', out') ∧
    string_at out' 0 = Some (value_of s) ∧
    length (value_of s) < length out' ∧ length b' = length b.
Proof.
  intros Hb Hs Hout.
  destruct (parse_value_correct b p s out) as (b' & out' & -> & Hv & Hl & Hb');
    [done|lia|done|].
  exists b', out'. split_and!; [done| |..|done].
  - by apply string_at_cstring.
  - pose proof (value_of_length s). lia.
Qed.

Lemma parse_value_refines_witness :
  ∃ b' out',
    parse_value (str " value # x" ++ [0%Z]) 0 (replicate LINE_SIZE 7%Z)
    = Some (b', out') ∧
    string_at out' 0 = Some (value_of (str " value # x")) ∧
    length (value_of (str " value # x")) < length out' ∧
    length b' = length (str " value # x" ++ [0%Z]).
Proof.
  apply parse_value_refines;
    [cstring_closed|vm_compute; lia|apply length_replicate].
Defined.

(** ** Properties of the decoder *)

Lemma decode_encode_char c rest :
  decode (encode_char c ++ rest) false = c :: decode rest false.
Proof.
  unfold encode_char. repeat case_decide; subst; try done.
  simpl. by rewrite !bool_decide_eq_false_2 by done.
Qed.

(** Decoding the escaped form of [v] yields [v] and goes on with what
    follows. *)
Lemma decode_encode_app v rest :
  decode (encode v ++ rest) false = v ++ decode rest false.
Proof.
  unfold encode. induction v as [|c v IH]; [done|].
  cbn [mbind list_bind]. by rewrite <-(assoc_L (++)), decode_encode_char, IH.
Qed.

(** C12 (roundtrip).  Decoding inverts the escaping, for every value: the
    decoder returns [v] from the escaped form of [v], whether a closing quote
    (and anything after it) follows or the input ends there. *)
Theorem decode_encode v rest :
  decode (encode v ++ C_QUOTE :: rest) false = v ∧ decode (encode v) false = v.
Proof.
  split; [rewrite decode_encode_app; simpl; apply app_nil_r|].
  rewrite <-(app_nil_r (encode v)), decode_encode_app. apply app_nil_r.
Qed.

(** Text without backslash and quote decodes to itself. *)
Lemma decode_plain s :
  C_BACKSLASH ∉ s → C_QUOTE ∉ s → decode s false = s.
Proof.
  induction s as [|c s IH]; [done|]. intros [? ?]%not_elem_of_cons [? ?]%not_elem_of_cons.
  simpl. rewrite !bool_decide_eq_false_2 by done. simpl. f_equal. by apply IH.
Qed.

(** C11 (bounds).  The loop of lines 43-62 checks no bound, yet on a string
    of [n] characters it advances [write] by [n] at most, so it stays inside
    an output buffer with [n] free cells; it keeps the buffer's size and
    touches no cell before the initial [write] or from the final one on. *)
Theorem parse_quoted_bound q post esc out w :
  nul_free q → w + length q ≤ length out →
  ∃ out' w',
    parse_quoted (q ++ 0%Z :: post) esc out w = Some (out', w') ∧
    w ≤ w' ≤ w + length q ∧ length out' = length out ∧
    take w out' = take w out ∧ drop w' out' = drop w' out.
Proof.
  intros Hq Hle. pose proof (decode_length q esc) as Hd.
  rewrite parse_quoted_spec by (done || lia). eexists _, _. split; [done|].
  split_and!; [lia..|list_len| |].
  - by rewrite take_app_length' by list_len.
  - rewrite (assoc_L (++)), drop_app_length'; [done|]. list_len.
Qed.

Lemma parse_quoted_bound_witness :
  ∃ out' w',
    parse_quoted (str "a\\b\nc" ++ 0%Z :: []) false (replicate 12 1%Z) 2
    = Some (out', w') ∧
    2 ≤ w' ≤ 2 + length (str "a\\b\nc") ∧ length out' = length (replicate 12 1%Z) ∧
    take 2 out' = take 2 (replicate 12 1%Z) ∧ drop w' out' = drop w' (replicate 12 1%Z).
Proof. apply parse_quoted_bound; [compute_done|vm_compute; lia]. Defined.

(** The quoted branch on an output buffer without room for the decoded
    text and its terminator. *)
Lemma parse_value_quoted_overflow b p q out :
  cstring_at b p (C_QUOTE :: q) → length out ≤ length (decode q false) →
  parse_value_quoted b p out = None.
Proof.
  intros Hb Hlen. unfold parse_value_quoted.
  apply cstring_at_inv_cons in Hb as (_ & _ & [Hn [post E]]). rewrite E.
  destruct (decide (length out = length (decode q false))) as [El|Hne].
  - rewrite parse_quoted_spec by (done || simpl; lia). simpl.
    apply store_None. list_len.
  - by rewrite parse_quoted_overflow by (done || simpl; lia).
Qed.

(** C36 (safety).  The quoted branch of [parse_value] is memory safe exactly
    when the output buffer has room for the decoded text and its
    terminator: on a buffer that holds a text whose value starts with a
    double quote, and an output buffer of any size, the call returns if and
    only if the decoded text is shorter than the output buffer; otherwise
    the loop of lines 43-62, which checks no bound, or the terminator of
    line 63 is written past the end of [output].  Nothing is truncated. *)
Theorem parse_value_overflow b p s q out :
  cstring_at b p s → trim s = C_QUOTE :: q →
  is_Some (parse_value b p out) ↔ length (decode q false) < length out.
Proof.
  intros Hb Et. unfold parse_value.
  destruct (trim_whitespace_correct _ _ _ Hb) as (b1 & p1 & -> & H1 & _).
  simpl. rewrite (cstring_at_head _ _ _ H1), Et in *. simpl.
  destruct (decide (length (decode q false) < length out)) as [Hlt|Hge].
  - destruct (parse_value_quoted_spec _ _ _ out H1 Hlt) as (out' & -> & _).
    by split.
  - rewrite (parse_value_quoted_overflow _ _ q) by (done || lia). simpl.
    split; [by intros [? [=]]|lia].
Qed.

Lemma parse_value_overflow_witness :
  (is_Some (parse_value (str " " ++ C_QUOTE :: str "ab\nc" ++ C_QUOTE :: [0%Z]) 0
                        (replicate 4 7%Z))
   ↔ length (decode (str "ab\nc" ++ [C_QUOTE]) false) < length (replicate 4 7%Z)) ∧
  (is_Some (parse_value (str " " ++ C_QUOTE :: str "ab\nc" ++ C_QUOTE :: [0%Z]) 0
                        (replicate 5 7%Z))
   ↔ length (decode (str "ab\nc" ++ [C_QUOTE]) false) < length (replicate 5 7%Z)).
Proof.
  split;
    apply (parse_value_overflow _ _ (str " " ++ C_QUOTE :: str "ab\nc" ++ [C_QUOTE]));
    first [cstring_closed|vm_compute; reflexivity].
Defined.

(** ** Properties of the contract *)

(** A quoted value in escaped form is read back. *)
Lemma value_of_quoted v ws rest :
  Forall (λ c, is_space c = true) ws →
  value_of (ws ++ C_QUOTE :: encode v ++ C_QUOTE :: rest) = v.
Proof.
  intros Hws. unfold value_of.
  destruct (trim_keeps ws C_QUOTE (encode v) C_QUOTE rest) as [k' ->]; [done..|].
  rewrite decide_True by done. rewrite decode_encode_app. simpl. apply app_nil_r.
Qed.

(** C34 (roundtrip).  A value written between double quotes in its escaped
    form is read back unchanged by [parse_value], whatever whitespace
    precedes the opening quote and whatever text follows the closing one, as
    long as the whole text is shorter than [LINE_SIZE]. *)
Theorem parse_value_encode b p v ws rest out :
  Forall (λ c, is_space c = true) ws →
  cstring_at b p (ws ++ C_QUOTE :: encode v ++ C_QUOTE :: rest) →
  length (ws ++ C_QUOTE :: encode v ++ C_QUOTE :: rest) < LINE_SIZE →
  length out = LINE_SIZE →
  ∃ b' out', parse_value b p out = Some (b', out') ∧ cstring_at out' 0 v.
Proof.
  intros Hws Hb Hlen Hout.
  destruct (parse_value_correct _ _ _ out Hb) as (b' & out' & -> & Hv & _);
    [lia|done|].
  exists b', out'. by rewrite value_of_quoted in Hv.
Qed.

Lemma parse_value_encode_witness :
  ∃ b' out',
    parse_value ((str "  " ++ C_QUOTE :: encode (str "a\b" ++ [C_LF; C_QUOTE])
                    ++ C_QUOTE :: str " # c") ++ [0%Z]) 0 (replicate LINE_SIZE 7%Z)
    = Some (b', out') ∧
    cstring_at out' 0 (str "a\b" ++ [C_LF; C_QUOTE]).
Proof.
  apply parse_value_encode with (ws := str "  ") (rest := str " # c");
    [by repeat constructor|cstring_closed|vm_compute; lia|apply length_replicate].
Defined.

(** C35 (functional).  In unquoted mode the value ends at the first [#],
    whatever precedes it, a backslash included: the text before the [#] is
    trimmed and, being shorter than a line, copied whole. *)
Theorem value_of_unquoted s1 s2 :
  C_HASH ∉ s1 → head (trim s1) ≠ Some C_QUOTE → length s1 < LINE_SIZE →
  value_of (s1 ++ C_HASH :: s2) = trim s1.
Proof.
  intros Hn Hq Hlen. unfold value_of.
  destruct (trim_before s1 C_HASH s2) as [k' ->]; [done|].
  assert (cut_comment (drop_while is_space s1 ++ C_HASH :: k') = drop_while is_space s1) as Ec.
  { apply before_first. intros Hin. apply Hn.
    eapply elem_of_suffix; [done|apply drop_while_suffix]. }
  assert (trim (drop_while is_space s1) = trim s1) as Et.
  { unfold trim. by rewrite (drop_while_fixed _ (drop_while _ _)) by apply drop_while_head. }
  pose proof (trim_length s1) as Hl.
  destruct (drop_while is_space s1) as [|c d] eqn:Ed; simpl in *.
  - rewrite Et. apply take_ge. lia.
  - rewrite decide_False.
    + rewrite Ec, Et. apply take_ge. lia.
    + intros ->. apply Hq. rewrite <-Et. unfold trim.
      pose proof (drop_while_head is_space s1) as Hh. rewrite Ed in Hh.
      rewrite drop_while_fixed by done.
      by destruct (drop_end_while_cons is_space 34%Z d) as (k & -> & _).
Qed.

Lemma value_of_unquoted_witness :
  value_of (str "a\ " ++ C_HASH :: str "b") = trim (str "a\ ").
Proof. apply value_of_unquoted; [compute_done|by vm_compute|vm_compute; lia]. Defined.
