(* ===== verification/Decoder.v ===== *)
(** * Decoder: the quoted loop of [parse_value] as a state machine

    spec.md 4.5 describes the decoding of a quoted value as a machine with
    the states quoted, quoted-escaped and terminal.  The loop of
    src/dotenv.c, lines 43-62, is that machine: the flag [escaped] and the
    [break] are its state, every branch of the loop body is a transition.

    - [mode], [config]: the state and what has been written so far.
    - [dstep]: the transitions, one rule per branch of the loop body;
      [dnext] is the same as a function.
    - [drun]: the runs of the machine over a text: it reads until the text
      ends or the closing quote has been seen, after which the rest of the
      text is ignored.

    The machine keeps what the loop decides (which branch is taken and what
    is written) and leaves out how it is written: the pointers and the
    buffer are in [Value.parse_quoted], with which it is compared.

    Main results: the machine is deterministic ([dstep_deterministic]);
    every text has one run, and its output is [Value.decode]
    ([drun_decode]); the output
    never grows by more than one character per character read
    ([drun_output_bound]); the code writes the output of the run
    ([parse_quoted_runs]). *)

From S2P Require Import Prelude Libc Value.

(** ** The machine *)

Inductive mode := Quoted | QuotedEscaped | Terminal.

#[export] Instance mode_eq_dec : EqDecision mode.
Proof. solve_decision. Defined.

Record config := Config {
  cf_mode : mode;
  cf_out : list Z;
}.

#[export] Instance config_eq_dec : EqDecision config.
Proof. solve_decision. Defined.

(** Lines 44-59, one rule per branch: the backslash that starts an escape,
    the quote that ends the value, the character after a backslash, any
    other character. *)
Inductive dstep : config → Z → config → Prop :=
  | dstep_backslash out :
      dstep (Config Quoted out) C_BACKSLASH (Config QuotedEscaped out)
  | dstep_quote out :
      dstep (Config Quoted out) C_QUOTE (Config Terminal out)
  | dstep_escaped out c :
      dstep (Config QuotedEscaped out) c (Config Quoted (out ++ [unescape c]))
  | dstep_plain out c :
      c ≠ C_BACKSLASH → c ≠ C_QUOTE →
      dstep (Config Quoted out) c (Config Quoted (out ++ [c])).

(** The transitions as a function; the terminal state has none. *)
Definition dnext (cf : config) (c : Z) : option config :=
  match cf_mode cf with
  | Quoted =>
      if decide (c = C_BACKSLASH) then Some (Config QuotedEscaped (cf_out cf))
      else if decide (c = C_QUOTE) then Some (Config Terminal (cf_out cf))
      else Some (Config Quoted (cf_out cf ++ [c]))
  | QuotedEscaped => Some (Config Quoted (cf_out cf ++ [unescape c]))
  | Terminal => None
  end.

(** The runs over a text: the machine stops at the end of the text or in
    the terminal state. *)
Inductive drun : config → list Z → config → Prop :=
  | drun_end cf : drun cf [] cf
  | drun_closed out c s : drun (Config Terminal out) (c :: s) (Config Terminal out)
  | drun_step cf c cf' s cf'' :
      dstep cf c cf' → drun cf' s cf'' → drun cf (c :: s) cf''.

(** The run as a function. *)
Fixpoint drun_fun (cf : config) (s : list Z) : config :=
  match s with
  | [] => cf
  | c :: s' =>
      match dnext cf c with
      | Some cf' => drun_fun cf' s'
      | None => cf
      end
  end.

(** What the machine still writes when it reads [s] in mode [m]. *)
Definition decode_from (m : mode) (s : list Z) : list Z :=
  match m with
  | Quoted => decode s false
  | QuotedEscaped => decode s true
  | Terminal => []
  end.

(** ** Transitions *)

Lemma dnext_dstep cf c cf' : dnext cf c = Some cf' ↔ dstep cf c cf'.
Proof.
  destruct cf as [m out]. unfold dnext. simpl. split.
  - destruct m; repeat case_decide; intros [= <-]; subst; by constructor.
  - intros Hs. inv Hs; repeat case_decide; done.
Qed.

Lemma dnext_terminal cf c : dnext cf c = None ↔ cf_mode cf = Terminal.
Proof. unfold dnext. destruct (cf_mode cf); repeat case_decide; done. Qed.

Lemma drun_fun_drun cf s : drun cf s (drun_fun cf s).
Proof.
  revert cf. induction s as [|c s IH]; intros cf; simpl; [constructor|].
  destruct (dnext cf c) as [cf'|] eqn:E.
  - eapply drun_step; [by apply dnext_dstep|apply IH].
  - apply dnext_terminal in E. destruct cf as [m out]. simpl in E. subst m.
    constructor.
Qed.

Lemma drun_drun_fun cf s cf' : drun cf s cf' → cf' = drun_fun cf s.
Proof.
  induction 1 as [cf|out c s|cf c cf1 s cf2 Hs _ IH]; simpl; [done..|].
  apply dnext_dstep in Hs. by rewrite Hs.
Qed.

(** The equations of [Value.decode], one per branch. *)
Lemma decode_backslash s : decode (C_BACKSLASH :: s) false = decode s true.
Proof. done. Qed.

Lemma decode_quote s : decode (C_QUOTE :: s) false = [].
Proof. done. Qed.

Lemma decode_escaped c s : decode (c :: s) true = unescape c :: decode s false.
Proof. simpl. by rewrite !andb_false_r. Qed.

Lemma decode_plain_char c s :
  c ≠ C_BACKSLASH → c ≠ C_QUOTE → decode (c :: s) false = c :: decode s false.
Proof. intros H1 H2. simpl. by rewrite !bool_decide_eq_false_2 by done. Qed.

(** One transition and the contract: the character read is decoded as
    [Value.decode] decodes it. *)
Lemma dstep_decode cf c cf' s :
  dstep cf c cf' →
  cf_out cf ++ decode_from (cf_mode cf) (c :: s)
  = cf_out cf' ++ decode_from (cf_mode cf') s.
Proof.
  intros Hs. inv Hs; cbn [cf_out cf_mode decode_from].
  - by rewrite decode_backslash.
  - by rewrite decode_quote.
  - by rewrite decode_escaped, <-(assoc_L (++)).
  - by rewrite decode_plain_char, <-(assoc_L (++)) by done.
Qed.

(** A run writes the decoded text after what was written. *)
Lemma drun_out cf s cf' :
  drun cf s cf' → cf_out cf' = cf_out cf ++ decode_from (cf_mode cf) s.
Proof.
  induction 1 as [[m out]|out c s|cf c cf1 s cf2 Hs _ IH]; simpl.
  - destruct m; by rewrite app_nil_r.
  - by rewrite app_nil_r.
  - by rewrite IH, (dstep_decode _ _ _ s Hs).
Qed.

(** A transition writes one character at most. *)
Lemma dstep_length cf c cf' :
  dstep cf c cf' → length (cf_out cf') ≤ S (length (cf_out cf)).
Proof. intros Hs. inv Hs; simpl; list_len. Qed.

(** ** The properties of the machine *)

(** The machine is deterministic: a state and a character have one
    successor at most. *)
Lemma dstep_deterministic cf c cf1 cf2 :
  dstep cf c cf1 → dstep cf c cf2 → cf1 = cf2.
Proof. intros H1%dnext_dstep H2%dnext_dstep. congruence. Qed.

(** C15 (equivalence).  Every text has exactly one run from the state
    quoted with nothing written, and the output of that run is the text
    [Value.decode] yields: the machine of spec.md 4.5 and the contract of
    the decoder agree. *)
Theorem drun_decode s :
  ∃ cf, drun (Config Quoted []) s cf ∧ cf_out cf = decode s false ∧
        ∀ cf', drun (Config Quoted []) s cf' → cf' = cf.
Proof.
  exists (drun_fun (Config Quoted []) s). split_and!.
  - apply drun_fun_drun.
  - by rewrite (drun_out _ _ _ (drun_fun_drun _ s)).
  - apply drun_drun_fun.
Qed.

(** Along a run the output grows by one character at most
    per character read: what is written never exceeds what was written
    before plus the length of the text. *)
Theorem drun_output_bound cf s cf' :
  drun cf s cf' → length (cf_out cf') ≤ length (cf_out cf) + length s.
Proof.
  induction 1 as [cf|out c s|cf c cf1 s cf2 Hs _ IH]; simpl; [lia..|].
  apply dstep_length in Hs. lia.
Qed.

(** C14 (refinement).  The loop of lines 43-62 implements the machine: on a
    string [q] and an output buffer with room for it, [parse_quoted] leaves
    in the buffer the output of the run over [q] and returns the offset
    after it. *)
Theorem parse_quoted_runs q post out cf :
  nul_free q → length q ≤ length out → drun (Config Quoted []) q cf →
  parse_quoted (q ++ 0%Z :: post) false out 0
  = Some (cf_out cf ++ drop (length (cf_out cf)) out, length (cf_out cf)).
Proof.
  intros Hq Hlen Hrun. apply drun_out in Hrun. simpl in Hrun. rewrite Hrun.
  pose proof (decode_length q false).
  by rewrite parse_quoted_spec by (done || simpl; lia).
Qed.

Lemma drun_output_bound_witness :
  length (cf_out (Config Terminal (str "a" ++ [C_LF])))
  ≤ length (cf_out (Config Quoted [])) + length (str "a\n" ++ C_QUOTE :: str "x").
Proof.
  apply drun_output_bound.
  do 3 (eapply drun_step; [by constructor|]). simpl.
  eapply drun_step; [by constructor|]. constructor.
Defined.

Lemma parse_quoted_runs_witness :
  parse_quoted ((str "a\n" ++ C_QUOTE :: str "x") ++ 0%Z :: []) false
    (replicate 8 7%Z) 0
  = Some (cf_out (drun_fun (Config Quoted []) (str "a\n" ++ C_QUOTE :: str "x"))
          ++ drop (length (cf_out (drun_fun (Config Quoted [])
                                     (str "a\n" ++ C_QUOTE :: str "x"))))
               (replicate 8 7%Z),
          length (cf_out (drun_fun (Config Quoted [])
                            (str "a\n" ++ C_QUOTE :: str "x")))).
Proof.
  apply parse_quoted_runs; [compute_done|vm_compute; lia|apply drun_fun_drun].
Defined.
