(* ===== verification/Name.v ===== *)
(** * Name: [is_valid_variable_name] (src/dotenv.c, lines 75-87)

    A name is accepted when its first character is a letter or an
    underscore, every other character is a letter, a digit or an underscore,
    and it has [MAX_VAR_NAME] characters at most.  The length is checked
    last, so the message of line 82 is printed only for a name whose
    characters are all valid.

    The characters are passed to [isalpha] and [isalnum] as plain [char]
    (no cast to [unsigned char], unlike [trim_whitespace]): the model
    promotes them with [char_to_int], and the call is undefined for a byte
    whose promotion is outside the domain of <ctype.h>.

    - [name_rest], [is_valid_variable_name]: the code.
    - [name_start], [name_char], [check_name]: the grammar of spec.md 4.3
      with its failure kinds.
    - [rest_dom], [name_dom]: the names on which the call is defined, those
      with no byte outside the domain before their first invalid character.

    Main results: [is_valid_variable_name_refines]; the call is defined
    exactly on [name_dom] ([is_valid_variable_name_dom],
    [is_valid_variable_name_outside]); [check_name_ok]. *)

From S2P Require Import Prelude Libc Header.

(** ** The code *)

(** Lines 77-79: the loop over the characters after the first, run on the
    cells from [name + 1] on; [true] when it reaches the terminator. *)
Fixpoint name_rest `{CharModel} (s : list Z) : option bool :=
  match s with
  | [] => None
  | c :: s' =>
      if decide (c = C_NUL) then Some true
      else
        an ← isalnum (char_to_int c);
        if negb an && negb (c =? C_UNDERSCORE)%Z then Some false
        else name_rest s'
  end.

(** The result and what the call wrote to [stderr]. *)
Definition is_valid_variable_name `{CharModel} (b : list Z) (name : nat)
  : option (bool * list diag) :=
  c ← b !! name;
  al ← isalpha (char_to_int c);
  if negb al && negb (c =? C_UNDERSCORE)%Z then Some (false, [])
  else
    ok ← name_rest (drop (S name) b);
    if negb ok then Some (false, [])
    else
      len ← strlen b name;
      if decide (MAX_VAR_NAME < len) then Some (false, [NameExceedsMaximum])
      else Some (true, []).

(** ** The contract *)

Definition name_start (c : Z) : bool :=
  alpha_C (to_uchar c) || (c =? C_UNDERSCORE)%Z.

Definition name_char (c : Z) : bool :=
  alnum_C (to_uchar c) || (c =? C_UNDERSCORE)%Z.

(** The outcome of validation, with the failure kinds of spec.md 4.3. *)
Inductive name_result := NameOk | InvalidCharacters | TooLong.

#[export] Instance name_result_eq_dec : EqDecision name_result.
Proof. solve_decision. Defined.

Definition check_name (s : list Z) : name_result :=
  match s with
  | [] => InvalidCharacters
  | c :: s' =>
      if name_start c && forallb name_char s' then
        if decide (MAX_VAR_NAME < length s) then TooLong else NameOk
      else InvalidCharacters
  end.

(** What [is_valid_variable_name] returns and prints for each outcome. *)
Definition name_outcome (r : name_result) : bool * list diag :=
  match r with
  | NameOk => (true, [])
  | InvalidCharacters => (false, [])
  | TooLong => (false, [NameExceedsMaximum])
  end.

(** ** The domain of the function *)

(** The characters the loop hands to [isalnum] are in the domain of
    <ctype.h>: the loop stops at the first character that is not valid, so
    the characters after that one are never looked at. *)
Fixpoint rest_dom `{CharModel} (s : list Z) : Prop :=
  match s with
  | [] => True
  | c :: s' => char_ok c ∧ (name_char c = true → rest_dom s')
  end.

(** The same for the whole name, whose first character goes to [isalpha]. *)
Definition name_dom `{CharModel} (s : list Z) : Prop :=
  match s with
  | [] => True
  | c :: s' => char_ok c ∧ (name_start c = true → rest_dom s')
  end.

#[export] Instance rest_dom_dec `{CharModel} s : Decision (rest_dom s).
Proof. induction s; simpl; apply _. Defined.

#[export] Instance name_dom_dec `{CharModel} s : Decision (name_dom s).
Proof. destruct s; simpl; apply _. Defined.

(** ** Characters in the domain *)
Section chars.
Context `{CharModel}.

(** In its domain a class does not see the signedness of [char]. *)
Lemma ctype_char_ok f c :
  char_ok c → (∀ i, (i < 0)%Z → f i = false) → f 255%Z = false →
  ctype f (char_to_int c) = Some (f (to_uchar c)).
Proof.
  intros Hok Hneg H255. rewrite ctype_in_dom by done. f_equal.
  unfold char_ok, ctype_dom, char_to_int in *. pose proof (to_uchar_range c).
  case_test; [|done]. apply andb_true_iff in Etest as [_ ?].
  rewrite Hneg by lia. replace (to_uchar c) with 255%Z by lia. done.
Qed.

Lemma isalpha_char_ok c :
  char_ok c → isalpha (char_to_int c) = Some (alpha_C (to_uchar c)).
Proof. intros. apply ctype_char_ok; [done| |done]. intros i Hi. unfold alpha_C. lia. Qed.

Lemma isalnum_char_ok c :
  char_ok c → isalnum (char_to_int c) = Some (alnum_C (to_uchar c)).
Proof.
  intros. apply ctype_char_ok; [done| |done].
  intros i Hi. unfold alnum_C, alpha_C, digit_C. lia.
Qed.

Lemma name_char_not_nul c : name_char c = true → c ≠ 0%Z.
Proof. by intros Hc ->. Qed.

Lemma isalnum_outside c : ¬ char_ok c → isalnum (char_to_int c) = None.
Proof. apply ctype_outside. Qed.

Lemma isalpha_outside c : ¬ char_ok c → isalpha (char_to_int c) = None.
Proof. apply ctype_outside. Qed.

(** Characters in the domain make a name in the domain. *)
Lemma rest_dom_chars s : Forall char_ok s → rest_dom s.
Proof. induction 1; simpl; auto. Qed.

Lemma name_dom_chars s : Forall char_ok s → name_dom s.
Proof. destruct 1; simpl; auto using rest_dom_chars. Qed.

(** ** The function *)

(** The loop returns exactly on the strings of its domain. *)
Lemma name_rest_dom s post :
  nul_free s → rest_dom s →
  name_rest (s ++ 0%Z :: post) = Some (forallb name_char s).
Proof.
  intros Hs. induction Hs as [|c s Hc _ IH]; [done|]. intros [Hok Hd]. simpl.
  rewrite decide_False by done. rewrite isalnum_char_ok by done. simpl.
  unfold name_char in Hd. unfold name_char at 1.
  destruct (alnum_C _), (c =? 95)%Z; simpl in *; auto.
Qed.

Lemma name_rest_outside s post :
  nul_free s → ¬ rest_dom s → name_rest (s ++ 0%Z :: post) = None.
Proof.
  intros Hs. induction Hs as [|c s Hc _ IH]; simpl; [tauto|]. intros Hd.
  rewrite decide_False by done. destruct (decide (char_ok c)) as [Hok|Hok].
  - rewrite isalnum_char_ok by done. simpl. unfold name_char in Hd.
    destruct (alnum_C _), (c =? 95)%Z; simpl in *;
      first [by destruct Hd|apply IH; tauto].
  - by rewrite isalnum_outside.
Qed.

Lemma name_rest_spec s post :
  nul_free s → Forall char_ok s →
  name_rest (s ++ 0%Z :: post) = Some (forallb name_char s).
Proof. intros Hs Hok. by apply name_rest_dom, rest_dom_chars. Qed.

(** [is_valid_variable_name] computes the outcome of the grammar on the
    names of its domain, and is undefined on the others. *)
Lemma is_valid_variable_name_dom b p s :
  cstring_at b p s → name_dom s →
  is_valid_variable_name b p = Some (name_outcome (check_name s)).
Proof.
  intros Hb Hd. unfold is_valid_variable_name.
  rewrite (cstring_at_head _ _ _ Hb). simpl.
  destruct s as [|c s]; simpl.
  { by rewrite isalpha_char_ok by (apply char_ok_ascii; lia). }
  destruct Hd as [Hok Hd].
  apply cstring_at_inv_cons in Hb as Hc. destruct Hc as (_ & Hc & [Hs [post E]]).
  rewrite isalpha_char_ok by done. simpl. unfold name_start in Hd |- *.
  destruct (alpha_C _), (c =? 95)%Z; simpl in *; try done;
    rewrite E, name_rest_dom by auto; simpl;
    destruct (forallb name_char s); simpl; try done;
    rewrite (strlen_cstring _ _ _ Hb); simpl; by case_decide.
Qed.

Lemma is_valid_variable_name_outside b p s :
  cstring_at b p s → ¬ name_dom s → is_valid_variable_name b p = None.
Proof.
  intros Hb Hd. unfold is_valid_variable_name.
  rewrite (cstring_at_head _ _ _ Hb). destruct s as [|c s]; simpl in *; [tauto|].
  apply cstring_at_inv_cons in Hb as (_ & Hc & [Hs [post E]]).
  destruct (decide (char_ok c)) as [Hok|Hok]; [|by rewrite isalpha_outside].
  rewrite isalpha_char_ok by done. simpl. unfold name_start in Hd.
  destruct (alpha_C _), (c =? 95)%Z; simpl in *;
    first [by destruct Hd|by rewrite E, name_rest_outside by tauto].
Qed.

Lemma is_valid_variable_name_spec b p s :
  cstring_at b p s → Forall char_ok s →
  is_valid_variable_name b p = Some (name_outcome (check_name s)).
Proof. intros Hb Hok. by apply is_valid_variable_name_dom, name_dom_chars. Qed.

(** C6 (refinement).  On a buffer that holds the name [s], with every
    character in the domain of <ctype.h>, [is_valid_variable_name] returns
    and prints what the grammar's outcome [check_name s] prescribes: it
    returns true exactly when the grammar accepts the name, and it prints
    its message exactly when the name has valid characters and is too
    long. *)
Theorem is_valid_variable_name_refines b p s :
  cstring_at b p s → Forall char_ok s →
  ∃ ok err,
    is_valid_variable_name b p = Some (ok, err) ∧
    (ok = true ↔ check_name s = NameOk) ∧
    (err = [NameExceedsMaximum] ↔ check_name s = TooLong) ∧
    (err = [] ↔ check_name s ≠ TooLong).
Proof.
  intros Hb Hok. rewrite (is_valid_variable_name_spec _ _ _ Hb Hok).
  destruct (check_name s); eexists _, _; (split; [done|]); naive_solver.
Qed.

(** A byte from 128 to 254 in a plain signed [char] is negative and not
    [EOF]. *)
Lemma char_to_int_high c :
  char_signed = true → (128 ≤ c < 255)%Z → ¬ ctype_dom (char_to_int c).
Proof.
  intros Hs Hc. unfold char_to_int, ctype_dom. rewrite Hs, to_uchar_small by lia.
  simpl. case_test; lia.
Qed.

Lemma name_rest_undefined s c rest :
  char_signed = true → (128 ≤ c < 255)%Z →
  nul_free s → Forall char_ok s → forallb name_char s = true →
  name_rest (s ++ c :: rest) = None.
Proof.
  intros Hsg Hc Hs Hok Hall. induction Hs as [|x s Hx _ IH]; inv Hok; simpl in *.
  - rewrite decide_False by lia. unfold isalnum, ctype.
    by rewrite decide_False by by apply char_to_int_high.
  - apply andb_true_iff in Hall as [Hn Hall].
    rewrite decide_False by done. rewrite isalnum_char_ok by done. simpl.
    unfold name_char in Hn.
    destruct (alnum_C _), (x =? 95)%Z; simpl in *; auto; done.
Qed.

(** The characters of names are in the domain of <ctype.h> on every
    platform. *)
Lemma name_char_char_ok c : name_char c = true → char_ok c.
Proof.
  unfold name_char, alnum_C, alpha_C, digit_C, char_ok, char_to_int, ctype_dom.
  intros Hc. pose proof (to_uchar_range c).
  destruct (c =? 95)%Z eqn:E95.
  - apply Z.eqb_eq in E95 as ->. by destruct char_signed.
  - destruct char_signed; simpl; [|lia]. case_test; lia.
Qed.

Lemma name_start_char_ok c : name_start c = true → char_ok c.
Proof.
  intros Hc. apply name_char_char_ok. unfold name_start, name_char, alnum_C in *.
  by destruct (alpha_C _), (digit_C _), (c =? 95)%Z.
Qed.

(** A byte from 128 to 254 after a valid start takes the call of [isalnum]
    outside its domain. *)
Lemma is_valid_variable_name_none b p x s c rest :
  char_signed = true → (128 ≤ c < 255)%Z →
  cstring_at b p (x :: s ++ c :: rest) → char_ok x → Forall char_ok s →
  name_start x = true → forallb name_char s = true →
  is_valid_variable_name b p = None.
Proof.
  intros Hsg Hc Hb Hx Hok Hst Hall. unfold is_valid_variable_name.
  apply cstring_at_inv_cons in Hb as (-> & _ & [Hn [post E]]). simpl.
  rewrite isalpha_char_ok by done. simpl. unfold name_start in Hst.
  apply Forall_app in Hn as [Hn _].
  destruct (alpha_C _), (x =? 95)%Z; simpl in *; try done;
    by rewrite E, <-(assoc_L (++)), <-app_comm_cons, name_rest_undefined.
Qed.

(** The characters and the length of an accepted name. *)
Lemma check_name_chars s :
  check_name s = NameOk →
  0 < length s ≤ MAX_VAR_NAME ∧ Forall (λ c, name_char c = true) s.
Proof.
  unfold check_name. destruct s as [|c s]; [done|].
  destruct (name_start c && forallb name_char s) eqn:E; [|done].
  case_decide; [done|]. intros _. apply andb_true_iff in E as [Hc Hs].
  split; [split; [simpl; lia|lia]|]. constructor; [|by apply forallb_Forall].
  unfold name_start, name_char, alnum_C in *.
  by destruct (alpha_C _), (digit_C _), (c =? 95)%Z.
Qed.

(** A character of a name is not the separator. *)
Lemma name_char_not_equals c : name_char c = true → c ≠ C_EQUALS.
Proof. by intros Hc ->. Qed.

(** A character of a name is not whitespace. *)
Lemma name_char_not_space c : name_char c = true → is_space c = false.
Proof.
  intros Hc. unfold name_char, is_space, alnum_C, alpha_C, digit_C, space_C in *.
  pose proof (to_uchar_range c). destruct (c =? 95)%Z eqn:E95; [|lia].
  by apply Z.eqb_eq in E95 as ->.
Qed.

(** An accepted name is not empty, has [MAX_VAR_NAME]
    characters at most, and consists of letters, digits and underscores:
    it holds no [=], no whitespace and no NUL, which is what [setenv]
    requires of a name. *)
Theorem check_name_ok s :
  check_name s = NameOk →
  0 < length s ≤ MAX_VAR_NAME ∧ Forall (λ c, name_char c = true) s ∧
  (C_EQUALS ∉ s) ∧ Forall (λ c, is_space c = false) s ∧ nul_free s.
Proof.
  intros [Hlen Hall]%check_name_chars. split_and!; [lia|lia|done|..].
  - intros Hin. eapply Forall_forall in Hall; [|exact Hin].
    by eapply name_char_not_equals.
  - eapply list.Forall_impl; [exact Hall|]. apply name_char_not_space.
  - eapply list.Forall_impl; [exact Hall|]. apply name_char_not_nul.
Qed.
End chars.

Lemma is_valid_variable_name_refines_witness :
  ∃ ok err,
    @is_valid_variable_name signed_char (str "API_KEY" ++ [0%Z]) 0 = Some (ok, err) ∧
    (ok = true ↔ check_name (str "API_KEY") = NameOk) ∧
    (err = [NameExceedsMaximum] ↔ check_name (str "API_KEY") = TooLong) ∧
    (err = [] ↔ check_name (str "API_KEY") ≠ TooLong).
Proof.
  apply (@is_valid_variable_name_refines signed_char);
    [cstring_closed|by apply ascii_only_char_ok].
Defined.

Lemma check_name_ok_witness :
  0 < length (str "_a1") ≤ MAX_VAR_NAME ∧
  Forall (λ c, name_char c = true) (str "_a1") ∧
  (C_EQUALS ∉ str "_a1") ∧ Forall (λ c, is_space c = false) (str "_a1") ∧
  nul_free (str "_a1").
Proof. apply check_name_ok. by vm_compute. Defined.
