(* ===== verification/Line.v ===== *)
(** * Line: [parse_line] (src/dotenv.c, lines 89-105)

    The line is split in place at its first [=]: a NUL replaces it, the
    text before it is trimmed and validated as a name, the text after it is
    decoded by [parse_value].  The entry is written only after the name has
    been accepted.

    - [line_out], [parse_line]: the code; the result carries the return
      value, the line buffer as the call leaves it, the entry and what was
      written to [stderr].
    - [parsed], [reject], [line_spec]: the contract of spec.md 4.4.
    - [line_dom]: the lines on which the call is defined.

    Main results: [parse_line_refines] on the lines of [line_dom], and
    [parse_line_outside] on the others; [parse_line_cuts_line] (the call
    leaves the caller's line cut at the [=], which is what the diagnostic of
    [dotenv_load] then prints); [parse_line_undefined] (a UTF-8 letter in a
    name where plain [char] is signed). *)

From S2P Require Import Prelude Libc Header Trim Value Name.

(** ** The code *)

Record line_out := LineOut {
  lo_ret : Z;
  lo_line : list Z;
  lo_entry : dotenv_entry;
  lo_err : list diag;
}.

Definition parse_line `{CharModel} (b : list Z) (line : nat)
  (entry : dotenv_entry) : option line_out :=
  delimiter ← strchr b line C_EQUALS;
  match delimiter with
  | None => Some (LineOut (-1) b entry [])
  | Some d =>
      b ← store b d C_NUL;
      '(b, name) ← trim_whitespace b line;
      '(ok, err) ← is_valid_variable_name b name;
      if negb ok then Some (LineOut (-1) b entry err)
      else
        entry_name' ← strncpy (entry_name entry) 0 b name LINE_SIZE;
        '(b, entry_value') ← parse_value b (S d) (entry_value entry);
        Some (LineOut 0 b (Entry entry_name' entry_value') err)
  end.

(** ** The contract *)

Inductive reject := NoSeparator | BadName (r : name_result).

Inductive parsed := Accepted (name value : list Z) | Rejected (why : reject).

Definition line_spec (s : list Z) : parsed :=
  if decide (C_EQUALS ∈ s) then
    let name := trim (before C_EQUALS s) in
    match check_name name with
    | NameOk => Accepted name (value_of (after C_EQUALS s))
    | r => Rejected (BadName r)
    end
  else Rejected NoSeparator.

(** What a rejection writes to [stderr] inside [parse_line]. *)
Definition reject_err (why : reject) : list diag :=
  match why with
  | BadName TooLong => [NameExceedsMaximum]
  | _ => []
  end.

(** The string a rejected call leaves at [line]: the whole line when it has
    no [=], else the text before the [=] up to its last character that is
    not whitespace. *)
Definition left_at_line (s : list Z) : list Z :=
  if decide (C_EQUALS ∈ s) then
    let n := before C_EQUALS s in take (lead n + length (trim n)) n
  else s.

(** How the result of [parse_line], called on the line [s] at offset [p]
    with the entry [e], presents an outcome of [line_spec]. *)
Definition presents (p : nat) (s : list Z) (e : dotenv_entry) (out : line_out)
  (r : parsed) : Prop :=
  match r with
  | Accepted name value =>
      lo_ret out = 0%Z ∧ lo_err out = [] ∧ entry_wf (lo_entry out) ∧
      cstring_at (entry_name (lo_entry out)) 0 name ∧
      cstring_at (entry_value (lo_entry out)) 0 value
  | Rejected why =>
      lo_ret out = (-1)%Z ∧ lo_err out = reject_err why ∧ lo_entry out = e ∧
      cstring_at (lo_line out) p (left_at_line s)
  end.

(** The lines on which [parse_line] calls <ctype.h> inside its domain: a
    line without [=] returns before its name is looked at; the trimmed name
    of any other line must be in the domain of [is_valid_variable_name]. *)
Definition line_dom `{CharModel} (s : list Z) : Prop :=
  C_EQUALS ∈ s → name_dom (trim (before C_EQUALS s)).

#[export] Instance line_dom_dec `{CharModel} s : Decision (line_dom s).
Proof. unfold line_dom. apply _. Defined.

(** ** The function *)

Section line.
Context `{CharModel}.

(** Line 101: the copy of an accepted name fills [entry->name]. *)
Lemma copy_name_spec b p v dst :
  cstring_at b p v → length v < LINE_SIZE → length dst = LINE_SIZE →
  ∃ dst', strncpy dst 0 b p LINE_SIZE = Some dst' ∧
          cstring_at dst' 0 v ∧ length dst' = LINE_SIZE.
Proof.
  intros Hb Hv Hd. rewrite (strncpy_fits _ _ _ _ _ Hb) by lia.
  eexists. split; [done|]. split; [|list_len].
  destruct (LINE_SIZE - length v) as [|k] eqn:E; [lia|]. simpl.
  apply cstring_at_0, (cstring_at_nul_free _ _ _ Hb).
Qed.

Lemma line_dom_chars s : Forall char_ok (before C_EQUALS s) → line_dom s.
Proof. intros Hok _. by apply name_dom_chars, trim_Forall. Qed.

(** Lines 90-97: on a line with an [=] the text before it is cut off and
    trimmed in place, and handed to [is_valid_variable_name]; the rest of the
    call depends on the line through the strings found here only. *)
Lemma parse_line_at_name b p s e :
  cstring_at b p s → C_EQUALS ∈ s →
  ∃ b2 name,
    cstring_at b2 name (trim (before C_EQUALS s)) ∧
    cstring_at b2 (S (p + length (before C_EQUALS s))) (after C_EQUALS s) ∧
    cstring_at b2 p (left_at_line s) ∧ length b2 = length b ∧
    parse_line b p e
    = '(ok, err) ← is_valid_variable_name b2 name;
      if negb ok then Some (LineOut (-1) b2 e err)
      else
        entry_name' ← strncpy (entry_name e) 0 b2 name LINE_SIZE;
        '(b3, entry_value') ← parse_value b2 (S (p + length (before C_EQUALS s)))
                                 (entry_value e);
        Some (LineOut 0 b3 (Entry entry_name' entry_value') err).
Proof.
  intros Hb Hin. unfold parse_line.
  rewrite (strchr_cstring _ _ _ _ Hb), decide_True by done. simpl.
  pose proof (before_after_length _ _ Hin) as Hl.
  pose proof (cstring_at_bound _ _ _ Hb) as Hbd.
  rewrite (before_after _ _ Hin) in Hb at 1.
  apply cstring_at_split_middle in Hb as [Hn Hv].
  rewrite store_Some by lia. simpl.
  destruct (trim_whitespace_correct _ _ _ Hn) as (b2 & p2 & E & Hn2 & Hl2 & Hfr).
  rewrite E. rewrite (trim_whitespace_spec _ _ _ Hn) in E.
  exists b2, p2. split_and!; [done|apply Hfr; [lia|done]| |list_len; congruence|done].
  unfold left_at_line. rewrite decide_True by done. simplify_eq.
  rewrite <-Nat.add_assoc. apply cstring_at_store_nul; [done|apply trim_lead_length].
Qed.

(** [parse_line] on a line shorter than [LINE_SIZE]. *)
Lemma parse_line_correct b p s e :
  cstring_at b p s → length s < LINE_SIZE → entry_wf e → line_dom s →
  ∃ out, parse_line b p e = Some out ∧
         length (lo_line out) = length b ∧ presents p s e out (line_spec s).
Proof.
  intros Hb Hlen [Hen Hev] Hok. unfold line_spec. case_decide as Hin.
  2:{ unfold parse_line. rewrite (strchr_cstring _ _ _ _ Hb), decide_False by done.
      eexists. split; [done|]. simpl. unfold left_at_line.
      rewrite decide_False by done. by split_and!. }
  destruct (parse_line_at_name b p s e Hb Hin) as (b2 & p2 & Hn & Hv & Hcut & Hl2 & ->).
  rewrite (is_valid_variable_name_dom _ _ _ Hn) by auto.
  pose proof (before_after_length _ _ Hin) as Hl.
  pose proof (trim_length (before C_EQUALS s)) as Ht.
  destruct (check_name _); simpl.
  - destruct (copy_name_spec _ _ _ (entry_name e) Hn) as (nm & -> & ? & ?); [lia..|].
    simpl. destruct (parse_value_correct _ _ _ (entry_value e) Hv)
      as (b3 & val & -> & ? & ? & ?); [lia..|].
    simpl. eexists. split; [done|]. simpl. split; [congruence|]. by split_and!.
  - eexists. by split.
  - eexists. by split.
Qed.

(** Outside the domain the call is undefined. *)
Lemma parse_line_outside b p s e :
  cstring_at b p s → ¬ line_dom s → parse_line b p e = None.
Proof.
  intros Hb Hd. destruct (decide (C_EQUALS ∈ s)) as [Hin|Hin];
    [|by exfalso; apply Hd; intros ?].
  destruct (parse_line_at_name b p s e Hb Hin) as (b2 & p2 & Hn & _ & _ & _ & ->).
  rewrite (is_valid_variable_name_outside _ _ _ Hn); [done|]. unfold line_dom in Hd. tauto.
Qed.

(** C3 (refinement).  On a buffer that holds a line [s] shorter than
    [LINE_SIZE], with the characters of the name that the validation looks
    at in the domain of <ctype.h> ([line_dom]), [parse_line] stays inside the line and the entry, keeps the
    line's size and the sizes of the entry's arrays, and presents the
    outcome [line_spec s]: on acceptance it returns 0 with the name and the
    decoded value as strings in the entry, on rejection it returns -1,
    leaves the entry untouched and leaves at [line] the string
    [left_at_line s]. *)
Theorem parse_line_refines b p s e :
  cstring_at b p s → length s < LINE_SIZE → entry_wf e → line_dom s →
  ∃ out, parse_line b p e = Some out ∧
         length (lo_line out) = length b ∧ entry_wf (lo_entry out) ∧
         presents p s e out (line_spec s).
Proof.
  intros Hb Hlen He Hok.
  destruct (parse_line_correct b p s e) as (out & -> & Hl & Hp); [done..|].
  exists out. split_and!; [done..| |done].
  destruct (line_spec s); simpl in Hp.
  - by destruct Hp as (_ & _ & ? & _).
  - by destruct Hp as (_ & _ & -> & _).
Qed.

(** An accepted line has a separator, a valid name before it and its value
    after it. *)
Lemma line_spec_accepted s name value :
  line_spec s = Accepted name value →
  C_EQUALS ∈ s ∧ name = trim (before C_EQUALS s) ∧ check_name name = NameOk ∧
  value = value_of (after C_EQUALS s).
Proof.
  unfold line_spec. case_decide; [|done].
  destruct (check_name _) eqn:E; [|done..]. intros [= <- <-]. by split_and!.
Qed.

(** What a rejected call leaves at [line] holds no [=] and is a prefix of
    the line. *)
Lemma left_at_line_prefix s : left_at_line s `prefix_of` s.
Proof.
  unfold left_at_line. case_decide as Hin; [|done].
  etrans; [apply prefix_take|]. rewrite (before_after _ _ Hin) at 2.
  by apply prefix_app_r.
Qed.

(** C31 (functional).  A rejection for a bad name leaves the caller's line
    cut: the string at [line] is no longer the line but the text before the
    [=] without its trailing whitespace.  [dotenv_load] prints that string
    in its diagnostic. *)
Theorem parse_line_cuts_line b p s e :
  cstring_at b p s → C_EQUALS ∈ s → Forall char_ok (before C_EQUALS s) →
  check_name (trim (before C_EQUALS s)) ≠ NameOk →
  ∃ out, parse_line b p e = Some out ∧ lo_ret out = (-1)%Z ∧
         cstring_at (lo_line out) p
           (take (lead (before C_EQUALS s) + length (trim (before C_EQUALS s)))
                 (before C_EQUALS s)).
Proof.
  intros Hb Hin Hok Hbad.
  destruct (parse_line_at_name b p s e Hb Hin) as (b2 & p2 & Hn & _ & Hcut & _ & ->).
  rewrite (is_valid_variable_name_dom _ _ _ Hn) by by apply line_dom_chars.
  unfold left_at_line in Hcut. rewrite decide_True in Hcut by done.
  destruct (check_name _); [done|by eexists..].
Qed.

(** C13 (safety).  Where plain [char] is signed, a line whose name is
    valid up to a byte from 128 to 254 takes [parse_line] to the undefined
    call of [isalnum]: the line is not rejected, the behaviour of the
    program is undefined from there. *)
Theorem parse_line_undefined b p s e x n c rest :
  char_signed = true → (128 ≤ c < 255)%Z →
  cstring_at b p s → C_EQUALS ∈ s →
  trim (before C_EQUALS s) = x :: n ++ c :: rest →
  name_start x = true → forallb name_char n = true →
  parse_line b p e = None.
Proof.
  intros Hsg Hc Hb Hin Ht Hx Hn.
  destruct (parse_line_at_name b p s e Hb Hin) as (b2 & p2 & Hn2 & _ & _ & _ & ->).
  rewrite Ht in Hn2.
  rewrite (is_valid_variable_name_none _ _ _ _ _ _ Hsg Hc Hn2); [done|..|done|done].
  - by apply name_start_char_ok.
  - eapply list.Forall_impl; [by apply forallb_Forall|].
    intros y. apply name_char_char_ok.
Qed.

(** Only the first [=] splits a line: the name is the
    trimmed text before it and the value is decoded from all the text after
    it, further [=] characters included. *)
Theorem line_spec_first_equals n v :
  C_EQUALS ∉ n →
  line_spec (n ++ C_EQUALS :: v)
  = match check_name (trim n) with
    | NameOk => Accepted (trim n) (value_of v)
    | r => Rejected (BadName r)
    end.
Proof.
  intros Hn. unfold line_spec. rewrite decide_True by (apply elem_of_app; right; left).
  rewrite before_first by done. unfold after.
  rewrite drop_while_app_all, drop_while_fixed.
  - simpl. by rewrite drop_0.
  - done.
  - apply Forall_forall. intros x Hx. destruct (Z.eqb_spec x 61); [by subst|done].
Qed.
End line.

Lemma parse_line_refines_witness :
  ∃ out, @parse_line signed_char (str "API_KEY = 123456 # note" ++ [0%Z]) 0 (entry_filled 7)
         = Some out ∧
         length (lo_line out) = length (str "API_KEY = 123456 # note" ++ [0%Z]) ∧
         entry_wf (lo_entry out) ∧
         presents 0 (str "API_KEY = 123456 # note") (entry_filled 7) out
                  (line_spec (str "API_KEY = 123456 # note")).
Proof.
  apply (@parse_line_refines signed_char);
    [cstring_closed|vm_compute; lia|apply entry_filled_wf|].
  by apply line_dom_chars, ascii_only_char_ok.
Defined.

Lemma parse_line_cuts_line_witness :
  ∃ out, @parse_line signed_char (str "INVALID-NAME =value" ++ [0%Z]) 0 (entry_filled 7)
         = Some out ∧ lo_ret out = (-1)%Z ∧
         cstring_at (lo_line out) 0
           (take (lead (before C_EQUALS (str "INVALID-NAME =value"))
                  + length (trim (before C_EQUALS (str "INVALID-NAME =value"))))
                 (before C_EQUALS (str "INVALID-NAME =value"))).
Proof.
  apply (@parse_line_cuts_line signed_char);
    [cstring_closed|compute_done|by apply ascii_only_char_ok|by vm_compute].
Defined.

Lemma line_spec_first_equals_witness :
  line_spec (str "URL " ++ C_EQUALS :: str " a=b")
  = match check_name (trim (str "URL ")) with
    | NameOk => Accepted (trim (str "URL ")) (value_of (str " a=b"))
    | r => Rejected (BadName r)
    end.
Proof. apply line_spec_first_equals. compute_done. Defined.

Lemma parse_line_undefined_witness :
  @parse_line signed_char (str "CAF" ++ [195%Z; 137%Z] ++ str " = 1" ++ [0%Z]) 0
    (entry_filled 7) = None.
Proof.
  apply (@parse_line_undefined signed_char _ _
           (str "CAF" ++ [195%Z; 137%Z] ++ str " = 1") _ 67%Z (str "AF") 195%Z [137%Z]);
    [done|lia|cstring_closed|compute_done|by vm_compute|done|done].
Defined.
