(* ===== verification/Env.v ===== *)
(** * Env: the process environment ([getenv], [setenv])

    The environment is process-wide state owned by the C library; the loader
    reaches it only through [getenv(name)] and [setenv(name, value, 1)].  It
    is modelled from POSIX, since its code is not under src/, as an
    interface: a type with the two operations and the laws the loader's
    theorems rely on.  Two implementations discharge the laws: a finite map,
    and the list of [(name, value)] pairs that mirrors the [environ] array
    (first match wins, [setenv] overwrites in place or appends).

    [setenv] fails with [EINVAL] and changes nothing when the name is empty
    or contains [=]; the loader ignores the return value, so only the effect
    on the environment is modelled. *)

From stdpp Require Import gmap.
From S2P Require Import Prelude.

(** The names [setenv] accepts. *)
Definition env_name_ok (name : list Z) : bool :=
  negb (bool_decide (name = [])) && bool_decide (C_EQUALS ∉ name).

Class Environ (E : Type) := {
  (** [getenv(name)]: [None] is the null pointer. *)
  getenv : E → list Z → option (list Z);
  (** The environment after [setenv(name, value, 1)]. *)
  setenv : E → list Z → list Z → E;
  getenv_setenv_eq env name value :
    env_name_ok name = true → getenv (setenv env name value) name = Some value;
  getenv_setenv_ne env name name' value :
    name ≠ name' → getenv (setenv env name value) name' = getenv env name';
  setenv_invalid env name value :
    env_name_ok name = false → setenv env name value = env;
}.

(** ** The environment as a finite map *)

Definition map_setenv (env : gmap (list Z) (list Z)) (name value : list Z)
  : gmap (list Z) (list Z) :=
  if env_name_ok name then <[name := value]> env else env.

#[export] Program Instance map_environ : Environ (gmap (list Z) (list Z)) := {|
  getenv env name := env !! name;
  setenv := map_setenv;
|}.
Next Obligation.
  intros env name value Hok. unfold map_setenv. rewrite Hok.
  apply lookup_insert_eq.
Qed.
Next Obligation.
  intros env name name' value Hne. unfold map_setenv.
  destruct (env_name_ok name); [by apply lookup_insert_ne|done].
Qed.
Next Obligation.
  intros env name value Hok. unfold map_setenv. by rewrite Hok.
Qed.

(** ** The environment as the [environ] array *)

Fixpoint list_getenv (env : list (list Z * list Z)) (name : list Z)
  : option (list Z) :=
  match env with
  | [] => None
  | (n, v) :: env' => if decide (n = name) then Some v else list_getenv env' name
  end.

Fixpoint list_put (env : list (list Z * list Z)) (name value : list Z)
  : list (list Z * list Z) :=
  match env with
  | [] => [(name, value)]
  | (n, v) :: env' =>
      if decide (n = name) then (n, value) :: env'
      else (n, v) :: list_put env' name value
  end.

Definition list_setenv (env : list (list Z * list Z)) (name value : list Z)
  : list (list Z * list Z) :=
  if env_name_ok name then list_put env name value else env.

Lemma list_getenv_put_eq env name value :
  list_getenv (list_put env name value) name = Some value.
Proof.
  induction env as [|[n v] env IH]; simpl.
  - by rewrite decide_True.
  - case_decide; simpl; [by rewrite decide_True|by rewrite decide_False].
Qed.

Lemma list_getenv_put_ne env name name' value :
  name ≠ name' →
  list_getenv (list_put env name value) name' = list_getenv env name'.
Proof.
  intros Hne. induction env as [|[n v] env IH]; simpl.
  - by rewrite decide_False.
  - case_decide; simpl; [subst; by rewrite !decide_False|].
    by case_decide.
Qed.

#[export] Program Instance list_environ : Environ (list (list Z * list Z)) := {|
  getenv := list_getenv;
  setenv := list_setenv;
|}.
Next Obligation.
  intros env name value Hok. unfold list_setenv. rewrite Hok.
  apply list_getenv_put_eq.
Qed.
Next Obligation.
  intros env name name' value Hne. unfold list_setenv.
  destruct (env_name_ok name); [by apply list_getenv_put_ne|done].
Qed.
Next Obligation.
  intros env name value Hok. unfold list_setenv. by rewrite Hok.
Qed.

(** ** Consequences of the laws *)
Section laws.
Context `{Environ E}.

(** The override rule of src/dotenv.c line 127. *)
Definition apply_entry (override : bool) (env : E) (name value : list Z) : E :=
  if override || bool_decide (getenv env name = None)
  then setenv env name value else env.

Lemma apply_entry_other override env name value name' :
  name ≠ name' →
  getenv (apply_entry override env name value) name' = getenv env name'.
Proof.
  intros Hne. unfold apply_entry. case_test; [|done].
  by apply getenv_setenv_ne.
Qed.

Lemma apply_entry_override env name value :
  env_name_ok name = true →
  getenv (apply_entry true env name value) name = Some value.
Proof. intros Hok. unfold apply_entry. simpl. by apply getenv_setenv_eq. Qed.

Lemma apply_entry_keep env name value old :
  getenv env name = Some old →
  getenv (apply_entry false env name value) name = Some old.
Proof.
  intros Hold. unfold apply_entry. simpl.
  by rewrite bool_decide_eq_false_2 by by rewrite Hold.
Qed.

Lemma apply_entry_fresh env name value :
  env_name_ok name = true → getenv env name = None →
  getenv (apply_entry false env name value) name = Some value.
Proof.
  intros Hok Hnone. unfold apply_entry. simpl.
  rewrite bool_decide_eq_true_2 by done. by apply getenv_setenv_eq.
Qed.
End laws.

(** ** Environments that agree on every variable *)

(** Two environments, of two implementations, that hold the same
    variables. *)
Definition env_sim `{Environ E1} `{Environ E2} (e1 : E1) (e2 : E2) : Prop :=
  ∀ name, getenv e1 name = getenv e2 name.

Section sim.
Context `{Environ E1} `{Environ E2}.

Lemma setenv_sim (e1 : E1) (e2 : E2) name value :
  env_sim e1 e2 → env_sim (setenv e1 name value) (setenv e2 name value).
Proof.
  intros He name'. destruct (env_name_ok name) eqn:Hok.
  - destruct (decide (name = name')) as [<-|Hne].
    + by rewrite !getenv_setenv_eq.
    + by rewrite !getenv_setenv_ne.
  - by rewrite !setenv_invalid.
Qed.

Lemma apply_entry_sim override (e1 : E1) (e2 : E2) name value :
  env_sim e1 e2 →
  env_sim (apply_entry override e1 name value) (apply_entry override e2 name value).
Proof.
  intros He. unfold apply_entry. rewrite (He name).
  case_test; [by apply setenv_sim|done].
Qed.
End sim.

(** On one implementation the relation is an equivalence, and the
    operations respect it. *)
Section equiv.
Context `{Environ E}.

#[export] Instance env_sim_equivalence : Equivalence (env_sim (E1:=E) (E2:=E)).
Proof.
  split.
  - by intros e name.
  - intros e1 e2 He name. by rewrite He.
  - intros e1 e2 e3 H12 H23 name. by rewrite H12.
Qed.

#[export] Instance getenv_proper :
  Proper (env_sim (E1:=E) (E2:=E) ==> (=) ==> (=)) getenv.
Proof. by intros e1 e2 He name ? <-. Qed.

#[export] Instance setenv_proper :
  Proper (env_sim (E1:=E) (E2:=E) ==> (=) ==> (=) ==> env_sim) setenv.
Proof. intros e1 e2 He name ? <- value ? <-. by apply setenv_sim. Qed.

#[export] Instance apply_entry_proper :
  Proper ((=) ==> env_sim (E1:=E) (E2:=E) ==> (=) ==> (=) ==> env_sim)
    apply_entry.
Proof.
  intros o ? <- e1 e2 He name ? <- value ? <-. by apply apply_entry_sim.
Qed.

(** Setting a variable to the value it has changes nothing. *)
Lemma setenv_same (e : E) name value :
  getenv e name = Some value → env_sim (setenv e name value) e.
Proof.
  intros Hv name'. destruct (env_name_ok name) eqn:Hok.
  - destruct (decide (name = name')) as [<-|Hne].
    + by rewrite getenv_setenv_eq.
    + by rewrite getenv_setenv_ne.
  - by rewrite setenv_invalid.
Qed.

(** Only the last of two assignments to a variable counts. *)
Lemma setenv_twice (e : E) name v1 v2 :
  env_sim (setenv (setenv e name v1) name v2) (setenv e name v2).
Proof.
  intros name'. destruct (env_name_ok name) eqn:Hok.
  - destruct (decide (name = name')) as [<-|Hne].
    + by rewrite !getenv_setenv_eq.
    + by rewrite !getenv_setenv_ne.
  - by rewrite !setenv_invalid.
Qed.
End equiv.

(** The list that mirrors the [environ] array and the finite map built
    from it hold the same variables. *)
Fixpoint list_to_map (env : list (list Z * list Z)) : gmap (list Z) (list Z) :=
  match env with
  | [] => ∅
  | (n, v) :: env' => <[n := v]> (list_to_map env')
  end.

Lemma list_to_map_sim env : env_sim env (list_to_map env).
Proof.
  intros name. induction env as [|[n v] env IH]; simpl; [done|].
  case_decide as Hn.
  - subst. by rewrite lookup_insert_eq.
  - by rewrite lookup_insert_ne.
Qed.
