(* ===== verification/Stdio.v ===== *)
(** * Stdio: the stream functions [dotenv_load] calls

    [fopen], [fgets] and [fclose] are not under src/: they are modelled from
    the C standard (7.21 of C11).

    - The file system is a finite map from paths to contents; a stream is
      the list of the bytes still to read.  [fopen] yields [None] (the null
      pointer) for a path that cannot be opened.
    - [fgets(s, n, stream)] reads at most [n - 1] bytes, stops after a
      newline, and writes them with a terminator into [s]; at end of file,
      with nothing read, it returns the null pointer and leaves [s] as it is.
      [read_chunk] is the bytes one call consumes.
    - [chunks n stream] is the sequence of texts that successive calls of
      [fgets(_, n + 1, _)] deliver until the end of the file: the lines of the
      file, with every line longer than [n] bytes cut into pieces.  Each call
      consumes a byte at least, so the length of the stream is enough fuel. *)

From stdpp Require Import gmap.
From S2P Require Import Prelude Libc.

(** ** The functions *)

(** [fopen(path, "r")] *)
Definition fopen (fs : gmap string (list Z)) (path : string) : option (list Z) :=
  fs !! path.

(** The bytes one call of [fgets] with room for [n] of them consumes. *)
Fixpoint read_chunk (n : nat) (stream : list Z) : list Z :=
  match n, stream with
  | S n', c :: stream' =>
      if decide (c = C_LF) then [c] else c :: read_chunk n' stream'
  | _, _ => []
  end.

(** [fgets(s, n, stream)]: [None] is undefined behaviour (the buffer is
    shorter than [n]), [Some (None, _)] the null pointer, [Some (Some s', _)]
    the buffer after a successful read; the second component is the stream
    after the call. *)
Definition fgets (s : list Z) (n : nat) (stream : list Z)
  : option (option (list Z) * list Z) :=
  if decide (n = 0 ∨ length s < n) then None
  else match stream with
       | [] => Some (None, [])
       | _ =>
           let chunk := read_chunk (n - 1) stream in
           Some (Some (chunk ++ 0%Z :: drop (S (length chunk)) s),
                 drop (length chunk) stream)
       end.

(** ** The chunks of a file *)

Fixpoint chunks_fuel (fuel n : nat) (stream : list Z) : list (list Z) :=
  match fuel with
  | 0 => []
  | S fuel' =>
      match stream with
      | [] => []
      | _ =>
          let chunk := read_chunk n stream in
          chunk :: chunks_fuel fuel' n (drop (length chunk) stream)
      end
  end.

Definition chunks (n : nat) (stream : list Z) : list (list Z) :=
  chunks_fuel (length stream) n stream.

(** The lines of a file, each with its newline; the last one may lack it. *)
Fixpoint lines (stream : list Z) : list (list Z) :=
  match stream with
  | [] => []
  | c :: stream' =>
      if decide (c = C_LF) then [c] :: lines stream'
      else match lines stream' with
           | [] => [[c]]
           | l :: ls => (c :: l) :: ls
           end
  end.

(** ** One call *)

Lemma read_chunk_length n f : length (read_chunk n f) ≤ n.
Proof.
  revert f. induction n as [|n IH]; intros [|c f]; simpl; try lia.
  case_decide; simpl; [lia|]. specialize (IH f). lia.
Qed.

Lemma read_chunk_nonempty n f : 0 < n → f ≠ [] → 0 < length (read_chunk n f).
Proof.
  destruct n as [|n], f as [|c f]; try done; try lia. intros _ _. simpl.
  case_decide; simpl; lia.
Qed.

(** A call consumes a prefix of the stream. *)
Lemma read_chunk_drop n f :
  read_chunk n f ++ drop (length (read_chunk n f)) f = f.
Proof.
  revert f. induction n as [|n IH]; intros [|c f]; simpl; try done.
  case_decide; simpl; [by rewrite drop_0|]. by rewrite IH.
Qed.

Lemma read_chunk_Forall (P : Z → Prop) n f :
  Forall P f → Forall P (read_chunk n f).
Proof.
  intros Hf. rewrite <-(read_chunk_drop n f) in Hf.
  by apply Forall_app in Hf as [? _].
Qed.

(** A chunk that does not end in a newline stopped for lack of room or at
    the end of the file. *)
Lemma read_chunk_stop n f :
  last (read_chunk n f) = Some C_LF ∨ length (read_chunk n f) = n
  ∨ read_chunk n f = f.
Proof.
  revert f. induction n as [|n IH]; intros [|c f]; simpl; auto.
  case_decide; [subst; auto|].
  destruct (IH f) as [Hl|[Hl|Hl]]; [left|right; left|right; right].
  - by rewrite last_cons, Hl.
  - simpl. by rewrite Hl.
  - by rewrite Hl.
Qed.

(** A line that fits is read whole. *)
Lemma read_chunk_line n l rest :
  C_LF ∉ l → length l < n → read_chunk n (l ++ C_LF :: rest) = l ++ [C_LF].
Proof.
  revert n. induction l as [|c l IH]; intros [|n] Hl Hn; simpl in *; try lia.
  - done.
  - apply not_elem_of_cons in Hl as [? ?]. rewrite decide_False by done.
    rewrite IH; [done..|lia].
Qed.

(** Without a newline among the first [n] bytes, a call takes them all. *)
Lemma read_chunk_full n f :
  C_LF ∉ take n f → n ≤ length f → read_chunk n f = take n f.
Proof.
  revert f. induction n as [|n IH]; intros [|c f]; simpl; try done.
  intros [? ?]%not_elem_of_cons Hn. rewrite decide_False by done.
  rewrite IH; [done..|lia].
Qed.

(** With room for the whole stream, a call reads the first line. *)
Lemma lines_cons m f :
  f ≠ [] → length f ≤ m →
  lines f = read_chunk m f :: lines (drop (length (read_chunk m f)) f).
Proof.
  revert m. induction f as [|c f IH]; intros [|m] Hf Hm; simpl in *; try done; [lia|].
  case_decide; [done|]. destruct f as [|c' f]; [by destruct m|].
  rewrite (IH m) by (done || lia). done.
Qed.

(** A call with room for the first line reads it. *)
Lemma read_chunk_room n m f :
  length (read_chunk m f) ≤ n → length f ≤ m → read_chunk n f = read_chunk m f.
Proof.
  revert m f. induction n as [|n IH]; intros [|m] [|c f]; simpl; try done; try lia.
  - case_decide; simpl; lia.
  - case_decide; [done|]. simpl. intros Hl Hm. f_equal. apply IH; lia.
Qed.

(** A call that stopped at a newline or for lack of room reads the same
    bytes whatever follows the stream. *)
Lemma read_chunk_app n f g :
  last (read_chunk n f) = Some C_LF ∨ length (read_chunk n f) = n →
  read_chunk n (f ++ g) = read_chunk n f.
Proof.
  revert f. induction n as [|n IH]; intros [|c f]; simpl; try done.
  - intros [?|?]; [done|lia].
  - case_decide; [done|]. intros Hl. f_equal. apply IH.
    destruct Hl as [Hl|Hl]; [left|right; simpl in Hl; lia].
    rewrite last_cons in Hl. destruct (last (read_chunk n f)); [done|by simplify_eq].
Qed.

(** A successful call leaves in the buffer, as a string, the text of the
    chunk before its first NUL byte. *)
Lemma fgets_spec s n c f :
  1 < n → length s = n →
  ∃ s', fgets s n (c :: f)
        = Some (Some s', drop (length (read_chunk (n - 1) (c :: f))) (c :: f)) ∧
        length s' = n ∧
        cstring_at s' 0 (before 0%Z (read_chunk (n - 1) (c :: f))).
Proof.
  intros Hn Hs. unfold fgets. rewrite decide_False by lia.
  eexists. split; [done|]. split; [|apply cstring_at_before].
  pose proof (read_chunk_length (n - 1) (c :: f)). list_len.
Qed.

Lemma fgets_eof s n : 0 < n → n ≤ length s → fgets s n [] = Some (None, []).
Proof. intros Hn Hs. unfold fgets. by rewrite decide_False by lia. Qed.

(** ** The sequence of calls *)

Section chunks.
Context (n : nat) (Hn : 0 < n).

Lemma chunks_fuel_any k1 k2 f :
  length f ≤ k1 → length f ≤ k2 → chunks_fuel k1 n f = chunks_fuel k2 n f.
Proof.
  revert k2 f. induction k1 as [|k1 IH]; intros k2 f H1 H2.
  { destruct f; [by destruct k2|simpl in H1; lia]. }
  destruct f as [|c f]; [by destruct k2|].
  destruct k2 as [|k2]; [simpl in H2; lia|].
  cbn [chunks_fuel]. f_equal.
  pose proof (read_chunk_nonempty n (c :: f) Hn ltac:(done)).
  apply IH; rewrite length_drop; lia.
Qed.

(** The length of the stream is enough fuel. *)
Lemma chunks_fuel_enough fuel f :
  length f ≤ fuel → chunks_fuel fuel n f = chunks n f.
Proof. intros Hf. by apply chunks_fuel_any. Qed.

Lemma chunks_nil : chunks n [] = [].
Proof. done. Qed.

Lemma chunks_cons f :
  f ≠ [] →
  chunks n f = read_chunk n f :: chunks n (drop (length (read_chunk n f)) f).
Proof.
  intros Hf. destruct f as [|c f]; [done|].
  unfold chunks at 1. cbn [length chunks_fuel]. f_equal.
  apply chunks_fuel_enough.
  pose proof (read_chunk_nonempty n (c :: f) Hn ltac:(done)).
  rewrite length_drop. simpl. lia.
Qed.

(** Induction over the calls of [fgets]. *)
Lemma chunks_ind (P : list Z → list (list Z) → Prop) :
  P [] [] →
  (∀ f, f ≠ [] →
        let rest := drop (length (read_chunk n f)) f in
        P rest (chunks n rest) → P f (read_chunk n f :: chunks n rest)) →
  ∀ f, P f (chunks n f).
Proof.
  intros Hnil Hcons f. remember (length f) as k eqn:Ek.
  revert f Ek. induction (lt_wf k) as [k _ IH]. intros f ->.
  destruct (decide (f = [])) as [->|Hf]; [done|].
  rewrite chunks_cons by done. apply Hcons; [done|].
  pose proof (read_chunk_nonempty n f Hn Hf).
  eapply IH; [|done]. rewrite length_drop. destruct f; [done|simpl; lia].
Qed.

(** The chunks are the file, cut. *)
Lemma concat_chunks f : concat (chunks n f) = f.
Proof.
  apply (chunks_ind (λ f cs, concat cs = f)); [done|].
  intros g _ rest IH. simpl. rewrite IH. apply read_chunk_drop.
Qed.

(** Every chunk holds a byte at least and [n] bytes at most. *)
Lemma chunks_length f : Forall (λ c, 0 < length c ≤ n) (chunks n f).
Proof.
  apply (chunks_ind (λ _ cs, Forall (λ c, 0 < length c ≤ n) cs)); [done|].
  intros g Hg rest IH. constructor; [|done].
  split; [by apply read_chunk_nonempty|apply read_chunk_length].
Qed.

Lemma chunks_Forall (P : Z → Prop) f :
  Forall P f → Forall (Forall P) (chunks n f).
Proof.
  apply (chunks_ind (λ f cs, Forall P f → Forall (Forall P) cs)); [done|].
  intros g _ rest IH Hg. constructor; [by apply read_chunk_Forall|].
  apply IH. by apply Forall_drop.
Qed.

(** When every line of the file fits, newline included, [fgets] delivers the
    lines. *)
Lemma chunks_lines f :
  Forall (λ l, length l ≤ n) (lines f) → chunks n f = lines f.
Proof.
  apply (chunks_ind (λ f cs, Forall (λ l, length l ≤ n) (lines f) → cs = lines f));
    [done|].
  intros g Hg rest IH. rewrite (lines_cons (length g) g) by done.
  intros Hfit. inv Hfit.
  assert (read_chunk n g = read_chunk (length g) g) as Er
    by by apply read_chunk_room.
  subst rest. rewrite Er in *. f_equal. by apply IH.
Qed.

(** The calls on a file that ends with a newline do not depend on what is
    appended to it: the chunks of the whole are those of the file, then those
    of the rest. *)
Lemma chunks_app f g :
  last f = Some C_LF → chunks n (f ++ g) = chunks n f ++ chunks n g.
Proof.
  revert f. apply (chunks_ind (λ f cs,
    last f = Some C_LF → chunks n (f ++ g) = cs ++ chunks n g)); [done|].
  intros f Hf rest IH Hl.
  assert (read_chunk n (f ++ g) = read_chunk n f) as Er.
  { apply read_chunk_app. destruct (read_chunk_stop n f) as [?|[?|E]]; auto.
    left. by rewrite E. }
  assert (f ++ g ≠ []) as Hfg by (by intros [? _]%app_eq_nil).
  rewrite (chunks_cons (f ++ g) Hfg), Er.
  pose proof (read_chunk_drop n f : read_chunk n f ++ rest = f) as Ed.
  assert (drop (length (read_chunk n f)) (f ++ g) = rest ++ g) as ->.
  { rewrite <-Ed at 2. by rewrite <-(assoc_L (++)), drop_app_length. }
  simpl. f_equal. destruct (decide (rest = [])) as [Hr|Hr].
  - by rewrite Hr.
  - apply IH. rewrite <-Ed, last_app in Hl.
    destruct (last rest) eqn:El; [done|by apply last_None in El].
Qed.
End chunks.
