(* ===== verification/Loader.v ===== *)
(** * Loader: [dotenv_load] (src/dotenv.c, lines 107-137)

    [dotenv_load] opens the file, reads it with [fgets] into a line buffer of
    [LINE_SIZE] bytes, trims each text it reads, skips the empty ones and the
    comments, hands the others to [parse_line], and sets the variable of
    every accepted line unless it exists and [override] is false.  A rejected
    line is reported on [stderr] and the scan goes on.

    - [state], [set_entry], [load_line], [load_loop], [dotenv_load]: the
      code.  [set_entry] reads the strings of the entry where the calls of
      line 127 and 128 read them: [getenv] only without [override].  The line
      buffer and the entry are locals the code never initialises; they are
      arguments of [dotenv_load], so that what is proved holds for every
      content they may have.  [load_loop] takes fuel, one unit per call of
      [fgets]; [dotenv_load] gives it one more than the bytes of the file.
    - [line_class], [classify], [step_spec], [load_spec], [dotenv_spec]: the
      contract, a fold of the per-line contract over the texts [fgets]
      delivers ([Stdio.chunks]).

    - [text_ok], [file_ok]: the files on which the load is defined.
    - [line_run]: the three ways an iteration of the loop goes on a text
      (skipped, accepted, rejected), with what the buffers hold after each;
      the lemma [load_line_run] is what [Calls] and the theorems on
      [load_line] are proved from.

    Main results: [dotenv_load_refines] (the code computes [dotenv_spec]),
    [dotenv_load_defined] (it is defined exactly on [file_ok]),
    [load_loop_terminates] (every fuel above the length of the file gives
    the same result), then what the contract implies: without [override] the
    existing variables are kept, with it the last assignment wins, loading
    is idempotent and sequential, a long line is read as several, a NUL byte
    hides the rest of its line, and the truncation of lines 70-71 never cuts
    a value that comes from a file ([unquoted_value_never_truncated]).  The
    contract respects the equivalence of environments that hold the same
    variables ([load_spec_sim]). *)

From stdpp Require Import gmap.
From S2P Require Import Prelude Libc Header Trim Value Name Line Env Stdio.

(** ** The code *)

Section loader.
Context `{CharModel} `{Environ E}.

(** What the loop of [dotenv_load] works on: the stream, the two locals, the
    environment and what has been written to [stderr]. *)
Record state := State {
  st_stream : list Z;
  st_line : list Z;
  st_entry : dotenv_entry;
  st_env : E;
  st_err : list diag;
}.

(** Lines 127-129: the accepted entry is applied to the environment.  The
    test is [override || getenv(entry.name) == NULL]: with [override] the
    name is not looked up, and the strings of the entry are read by the
    calls that receive them. *)
Definition set_entry (override : bool) (env : E) (entry : dotenv_entry)
  : option E :=
  unset ← (if override then Some true
           else name ← string_at (entry_name entry) 0;
                Some (bool_decide (getenv env name = None)));
  if unset : bool then
    name ← string_at (entry_name entry) 0;
    value ← string_at (entry_value entry) 0;
    Some (setenv env name value)
  else Some env.

(** Lines 119-132: the body of the loop, after [fgets] has filled the line
    buffer. *)
Definition load_line (override : bool) (st : state) : option state :=
  '(line, trimmed) ← trim_whitespace (st_line st) 0;
  c ← line !! trimmed;
  if decide (c = C_NUL ∨ c = C_HASH) then
    Some (State (st_stream st) line (st_entry st) (st_env st) (st_err st))
  else
    out ← parse_line line trimmed (st_entry st);
    if decide (lo_ret out = 0%Z) then
      env ← set_entry override (st_env st) (lo_entry out);
      Some (State (st_stream st) (lo_line out) (lo_entry out) env
              (st_err st ++ lo_err out))
    else
      text ← string_at (lo_line out) trimmed;
      Some (State (st_stream st) (lo_line out) (lo_entry out) (st_env st)
              (st_err st ++ lo_err out ++ [SkippingInvalidLine text])).

(** Lines 118-133: the loop. *)
Fixpoint load_loop (fuel : nat) (override : bool) (st : state) : option state :=
  match fuel with
  | 0 => None
  | S fuel' =>
      '(line, stream) ← fgets (st_line st) LINE_SIZE (st_stream st);
      match line with
      | None => Some st
      | Some line =>
          st ← load_line override
                 (State stream line (st_entry st) (st_env st) (st_err st));
          load_loop fuel' override st
      end
  end.

(** What a call returns and leaves behind. *)
Record result := Result {
  r_ret : Z;
  r_env : E;
  r_err : list diag;
}.

Definition dotenv_load (fs : gmap string (list Z)) (path : string)
  (override : bool) (line : list Z) (entry : dotenv_entry) (env : E)
  : option result :=
  match fopen fs path with
  | None => Some (Result (-1) env [FailedToOpen])
  | Some file =>
      st ← load_loop (S (length file)) override (State file line entry env []);
      Some (Result 0 (st_env st) (st_err st))
  end.

(** ** The contract *)

(** What a text read by [fgets] is, once trimmed. *)
Inductive line_class :=
  | Blank
  | Comment
  | Assignment (name value : list Z)
  | Invalid (why : reject) (text : list Z).

(** The class of the string [s] that [fgets] left in the line buffer. *)
Definition classify (s : list Z) : line_class :=
  match trim s with
  | [] => Blank
  | c :: _ =>
      if decide (c = C_HASH) then Comment
      else match line_spec (trim s) with
           | Accepted name value => Assignment name value
           | Rejected why => Invalid why (left_at_line (trim s))
           end
  end.

(** The effect of one text on the environment and on [stderr]. *)
Definition step_spec (override : bool) (acc : E * list diag) (s : list Z)
  : E * list diag :=
  match classify s with
  | Blank | Comment => acc
  | Assignment name value => (apply_entry override acc.1 name value, acc.2)
  | Invalid why text =>
      (acc.1, acc.2 ++ reject_err why ++ [SkippingInvalidLine text])
  end.

(** The strings the successive calls of [fgets] leave in the line buffer:
    each chunk up to its first NUL byte. *)
Definition texts (file : list Z) : list (list Z) :=
  before C_NUL <$> chunks (LINE_SIZE - 1) file.

Definition load_spec (override : bool) (file : list Z) (env : E)
  : E * list diag :=
  foldl (step_spec override) (env, []) (texts file).

(** The texts on which the code calls <ctype.h> inside its domain only: a
    comment, or a text that [parse_line] reads inside the domain (one
    without [=], or one whose name holds no byte outside the domain before
    its first invalid character).  The bytes of a value are never handed to
    [isalpha] or [isalnum]. *)
Definition text_ok (t : list Z) : Prop :=
  head (trim t) = Some C_HASH ∨ line_dom (trim t).

(** The files whose texts are all of that kind: the files on which the load
    is defined. *)
Definition file_ok (file : list Z) : Prop := Forall text_ok (texts file).

#[export] Instance text_ok_dec t : Decision (text_ok t).
Proof. unfold text_ok. apply _. Defined.

#[export] Instance file_ok_dec file : Decision (file_ok file).
Proof. unfold file_ok. apply _. Defined.

(** The values the file assigns to [name], in order. *)
Definition assigned (name : list Z) (ts : list (list Z)) : list (list Z) :=
  omap (λ t, match classify t with
             | Assignment name' value =>
                 if decide (name' = name) then Some value else None
             | _ => None
             end) ts.

(** The value of a variable after a sequence of assignments. *)
Definition resolve (override : bool) (old : option (list Z))
  (values : list (list Z)) : option (list Z) :=
  foldl (λ cur value,
           if override || bool_decide (cur = None) then Some value else cur)
        old values.

(** What the texts make the loader write to [stderr]. *)
Definition reported (ts : list (list Z)) : list diag :=
  ts ≫= λ t, match classify t with
             | Invalid why text => reject_err why ++ [SkippingInvalidLine text]
             | _ => []
             end.

Definition dotenv_spec (fs : gmap string (list Z)) (path : string)
  (override : bool) (env : E) : result :=
  match fs !! path with
  | None => Result (-1) env [FailedToOpen]
  | Some file =>
      let r := load_spec override file env in Result 0 r.1 r.2
  end.
End loader.

Arguments state : clear implicits.
Arguments result : clear implicits.

(** ** The loop body *)

Section loader_correct.
Context `{CharModel} `{Environ E}.
Implicit Types (st : state E) (env : E).

(** The locals have their declared sizes. *)
Definition state_ok st : Prop :=
  length (st_line st) = LINE_SIZE ∧ entry_wf (st_entry st).

Lemma set_entry_spec override env e name value :
  cstring_at (entry_name e) 0 name → cstring_at (entry_value e) 0 value →
  set_entry override env e = Some (apply_entry override env name value).
Proof.
  intros Hn Hv. unfold set_entry, apply_entry.
  rewrite (string_at_cstring _ _ _ Hn), (string_at_cstring _ _ _ Hv).
  destruct override; [done|]. simpl. by case_bool_decide.
Qed.

(** Closes the goal of an iteration once the code has been run. *)
Ltac state_step :=
  eexists; split_and!; [done|done|split; simpl; [congruence|done]|done].

(** What the calls of an iteration that touch neither the environment nor
    [stderr] compute, on a line buffer that holds the text [s], by the
    class of the text: the pointer [trim_whitespace] returns, the character
    it points at and, for a text that is neither empty nor a comment, the
    result of [parse_line]. *)
Inductive line_run (line : list Z) (entry : dotenv_entry) (s : list Z) : Prop :=
  | line_run_skip line1 p c :
      trim_whitespace line 0 = Some (line1, p) → line1 !! p = Some c →
      c = C_NUL ∨ c = C_HASH →
      classify s = Blank ∨ classify s = Comment →
      length line1 = LINE_SIZE →
      line_run line entry s
  | line_run_accept line1 p c out name value :
      trim_whitespace line 0 = Some (line1, p) → line1 !! p = Some c →
      ¬ (c = C_NUL ∨ c = C_HASH) →
      parse_line line1 p entry = Some out →
      lo_ret out = 0%Z → lo_err out = [] →
      classify s = Assignment name value →
      cstring_at (entry_name (lo_entry out)) 0 name →
      cstring_at (entry_value (lo_entry out)) 0 value →
      length (lo_line out) = LINE_SIZE → entry_wf (lo_entry out) →
      line_run line entry s
  | line_run_reject line1 p c out why text :
      trim_whitespace line 0 = Some (line1, p) → line1 !! p = Some c →
      ¬ (c = C_NUL ∨ c = C_HASH) →
      parse_line line1 p entry = Some out →
      lo_ret out = (-1)%Z → lo_err out = reject_err why →
      classify s = Invalid why text →
      cstring_at (lo_line out) p text →
      length (lo_line out) = LINE_SIZE → entry_wf (lo_entry out) →
      line_run line entry s.

Lemma load_line_run line entry s :
  cstring_at line 0 s → length s < LINE_SIZE →
  length line = LINE_SIZE → entry_wf entry → text_ok s →
  line_run line entry s.
Proof.
  intros Hb Hlen Hl He Hok. unfold text_ok in Hok.
  destruct (trim_whitespace_correct _ _ _ Hb) as (b1 & p1 & Et & H1 & Hl1 & _).
  pose proof (cstring_at_head _ _ _ H1) as Hc.
  pose proof (trim_length s) as Ht.
  pose proof (cstring_at_nul_free _ _ _ H1) as Hnf.
  destruct (trim s) as [|c k] eqn:Es; simpl in Hc.
  { eapply line_run_skip; eauto; [|congruence]. left. unfold classify. by rewrite Es. }
  inv Hnf. destruct (decide (c = C_HASH)) as [->|Hh].
  { eapply line_run_skip; eauto; [|congruence]. right. unfold classify.
    by rewrite Es, decide_True. }
  destruct Hok as [[= ?]|Hok]; [done|].
  destruct (parse_line_correct b1 p1 (c :: k) entry) as (out & Ep & Hlo & Hp);
    [done|simpl in *; lia|done..|].
  assert (¬ (c = C_NUL ∨ c = C_HASH)) by (intros [?|?]; done).
  destruct (line_spec (c :: k)) as [name value|why] eqn:El; simpl in Hp.
  - destruct Hp as (? & ? & ? & ? & ?).
    eapply line_run_accept; eauto; [|congruence].
    unfold classify. by rewrite Es, decide_False, El.
  - destruct Hp as (? & ? & Ee & ?).
    eapply line_run_reject; eauto; [|congruence|by rewrite Ee].
    unfold classify. by rewrite Es, decide_False, El.
Qed.

(** One iteration, after [fgets] has left the string [s] in the line
    buffer. *)
Lemma load_line_correct override st s :
  cstring_at (st_line st) 0 s → length s < LINE_SIZE → state_ok st →
  text_ok s →
  ∃ st', load_line override st = Some st' ∧
         st_stream st' = st_stream st ∧ state_ok st' ∧
         (st_env st', st_err st')
         = step_spec override (st_env st, st_err st) s.
Proof.
  destruct st as [f b e env err]. intros Hb Hlen [Hl He] Hok. simpl in *.
  unfold load_line, step_spec. simpl.
  destruct (load_line_run b e s Hb Hlen Hl He Hok)
    as [b1 p c Et Ec Hc Hcl ?|b1 p c out name value Et Ec Hc Ep Hr Herr -> Hn Hv ? ?
       |b1 p c out why text Et Ec Hc Ep Hr Herr -> Hs ? ?];
    rewrite Et; simpl; rewrite Ec; simpl.
  - rewrite decide_True by done. destruct Hcl as [-> | ->]; state_step.
  - rewrite decide_False, Ep by done. simpl. rewrite decide_True by done.
    rewrite (set_entry_spec _ _ _ _ _ Hn Hv), Herr. simpl. rewrite app_nil_r.
    state_step.
  - rewrite decide_False, Ep by done. simpl. rewrite decide_False by by rewrite Hr.
    rewrite (string_at_cstring _ _ _ Hs), Herr. simpl. state_step.
Qed.

(** On any other text [parse_line] is undefined. *)
Lemma load_line_stuck line entry s :
  cstring_at line 0 s → ¬ text_ok s →
  ∃ line1 p c, trim_whitespace line 0 = Some (line1, p) ∧ line1 !! p = Some c ∧
               ¬ (c = C_NUL ∨ c = C_HASH) ∧ parse_line line1 p entry = None.
Proof.
  intros Hb Hok. unfold text_ok in Hok.
  destruct (trim_whitespace_correct _ _ _ Hb) as (b1 & p1 & Et & H1 & _).
  pose proof (cstring_at_head _ _ _ H1) as Hc.
  pose proof (cstring_at_nul_free _ _ _ H1) as Hnf.
  destruct (trim s) as [|c k] eqn:Es; simpl in *.
  { exfalso. apply Hok. right. by intros ?%elem_of_nil. }
  inv Hnf. exists b1, p1, c. split_and!; [done..| |].
  - intros [?| ->]; [done|]. by apply Hok; left.
  - apply (parse_line_outside _ _ _ _ H1). tauto.
Qed.

(** So the iteration is undefined. *)
Lemma load_line_outside override st s :
  cstring_at (st_line st) 0 s → ¬ text_ok s → load_line override st = None.
Proof.
  intros Hb Hok. unfold load_line.
  destruct (load_line_stuck _ (st_entry st) _ Hb Hok) as (b1 & p & c & -> & Ec & Hc & Ep).
  simpl. rewrite Ec. simpl. by rewrite decide_False, Ep.
Qed.

(** ** The loop *)

Lemma texts_cons f :
  f ≠ [] →
  texts f = before C_NUL (read_chunk (LINE_SIZE - 1) f)
            :: texts (drop (length (read_chunk (LINE_SIZE - 1) f)) f).
Proof.
  intros Hf. unfold texts. by rewrite chunks_cons by (apply LINE_SIZE_room || done).
Qed.

(** Every text [fgets] delivers is shorter than the line buffer. *)
Lemma texts_length f : Forall (λ s, length s < LINE_SIZE) (texts f).
Proof.
  apply Forall_fmap.
  eapply list.Forall_impl; [apply chunks_length, LINE_SIZE_room|].
  intros c Hc. unfold compose. simpl in Hc.
  pose proof (before_length 0%Z c). pose proof LINE_SIZE_room. lia.
Qed.

(** When every line of the file, newline included, is shorter than the line
    buffer, the texts are the lines. *)
Lemma texts_lines_fit file :
  Forall (λ l, length l < LINE_SIZE) (lines file) →
  texts file = before C_NUL <$> lines file.
Proof.
  intros Hfit. unfold texts. rewrite chunks_lines; [done|apply LINE_SIZE_room|].
  eapply list.Forall_impl; [exact Hfit|]. intros l Hl. simpl in Hl. lia.
Qed.

(** A line with [LINE_SIZE - 1] bytes or more before its newline is cut:
    its first [LINE_SIZE - 1] bytes are a text, and what follows them is read
    as if it started a line. *)
Lemma texts_long_line l rest :
  length l = LINE_SIZE - 1 → C_LF ∉ l →
  texts (l ++ rest) = before C_NUL l :: texts rest.
Proof.
  intros Hl Hlf. pose proof LINE_SIZE_room.
  assert (read_chunk (LINE_SIZE - 1) (l ++ rest) = l) as Er.
  { rewrite read_chunk_full; rewrite ?take_app_length'; [done..|list_len]. }
  rewrite texts_cons by (intros E0; apply (f_equal length) in E0; list_len).
  by rewrite Er, drop_app_length.
Qed.

(** A line that fits the buffer is one text: its bytes up to the first NUL
    byte among them. *)
Lemma texts_line l rest :
  C_LF ∉ l → length l < LINE_SIZE - 1 →
  texts (l ++ C_LF :: rest) = before C_NUL (l ++ [C_LF]) :: texts rest.
Proof.
  intros Hlf Hl. rewrite texts_cons by by destruct l.
  rewrite read_chunk_line by done.
  by rewrite (cons_middle C_LF l rest), (assoc_L (++)), drop_app_length.
Qed.

(** The whitespace that ends a text changes nothing. *)
Lemma step_spec_app_spaces override acc s ws :
  Forall (λ c, is_space c = true) ws →
  step_spec override acc (s ++ ws) = step_spec override acc s.
Proof. intros Hws. unfold step_spec, classify. by rewrite trim_app_spaces. Qed.

Lemma text_ok_app_spaces s ws :
  Forall (λ c, is_space c = true) ws → text_ok (s ++ ws) ↔ text_ok s.
Proof. intros Hws. unfold text_ok. by rewrite trim_app_spaces. Qed.

(** One iteration of the loop on a stream that is not at its end: [fgets]
    leaves the next text in the line buffer and the loop body runs on it. *)
Lemma load_loop_cons override fuel st :
  st_stream st ≠ [] → state_ok st →
  let chunk := read_chunk (LINE_SIZE - 1) (st_stream st) in
  ∃ st0, cstring_at (st_line st0) 0 (before C_NUL chunk) ∧ state_ok st0 ∧
         st_stream st0 = drop (length chunk) (st_stream st) ∧
         length (st_stream st0) < length (st_stream st) ∧
         (st_env st0, st_err st0) = (st_env st, st_err st) ∧
         load_loop (S fuel) override st
         = load_line override st0 ≫= load_loop fuel override.
Proof.
  destruct st as [[|c f] b e env err]; [done|]. intros _ [Hl He]. simpl in *.
  pose proof LINE_SIZE_room as Hroom.
  pose proof (read_chunk_nonempty (LINE_SIZE - 1) (c :: f) Hroom ltac:(done)).
  destruct (fgets_spec b LINE_SIZE c f) as (b1 & -> & Hl1 & Hb1); [lia|done|].
  eexists (State _ b1 e env err). split_and!; [done..| |done|done].
  cbn [st_stream]. rewrite length_drop. simpl in *. lia.
Qed.

(** With more fuel than the stream has bytes, the loop ends at the end of
    the file, having folded the contract of a line over the texts. *)
Lemma load_loop_correct override fuel st :
  length (st_stream st) < fuel → state_ok st → file_ok (st_stream st) →
  ∃ st', load_loop fuel override st = Some st' ∧
         st_stream st' = [] ∧ state_ok st' ∧
         (st_env st', st_err st')
         = foldl (step_spec override) (st_env st, st_err st)
                 (texts (st_stream st)).
Proof.
  revert st. induction fuel as [|fuel IH]; intros st Hf Hst Hok; [lia|].
  destruct (decide (st_stream st = [])) as [Ef|Ef].
  { destruct st as [f b e env err], Hst as [Hl He]. simpl in *. subst f.
    rewrite fgets_eof by (rewrite ?LINE_SIZE_eq in *; lia). state_step. }
  destruct (load_loop_cons override fuel st Ef Hst)
    as (st0 & Hb & Hst0 & Es0 & Hlt & [= Ee0 Er0] & ->).
  unfold file_ok in Hok. rewrite (texts_cons _ Ef) in Hok |- *.
  apply Forall_cons in Hok as [Hok1 Hok2].
  pose proof (texts_length (st_stream st)) as Hlen.
  rewrite (texts_cons _ Ef) in Hlen. apply Forall_cons in Hlen as [Hlen _].
  destruct (load_line_correct override st0 _ Hb Hlen Hst0 Hok1)
    as (st1 & -> & Hs1 & Hst1 & E1).
  simpl. destruct (IH st1) as (st2 & -> & ? & ? & E2);
    [rewrite Hs1; lia|done|by rewrite Hs1, Es0|].
  exists st2. split_and!; [done..|]. by rewrite E2, E1, Hs1, Es0, Ee0, Er0.
Qed.

(** On a stream with a text outside the domain the loop is undefined,
    whatever the fuel above the length of the stream. *)
Lemma load_loop_outside override fuel st :
  length (st_stream st) < fuel → state_ok st → ¬ file_ok (st_stream st) →
  load_loop fuel override st = None.
Proof.
  revert st. induction fuel as [|fuel IH]; intros st Hf Hst Hok; [lia|].
  destruct (decide (st_stream st = [])) as [Ef|Ef].
  { exfalso. apply Hok. unfold file_ok. by rewrite Ef. }
  destruct (load_loop_cons override fuel st Ef Hst)
    as (st0 & Hb & Hst0 & Es0 & Hlt & _ & ->).
  unfold file_ok in Hok. rewrite (texts_cons _ Ef) in Hok.
  destruct (decide (text_ok (before C_NUL (read_chunk (LINE_SIZE - 1) (st_stream st)))))
    as [Hok1|Hok1]; [|by rewrite (load_line_outside _ _ _ Hb)].
  pose proof (texts_length (st_stream st)) as Hlen.
  rewrite (texts_cons _ Ef) in Hlen. apply Forall_cons in Hlen as [Hlen _].
  destruct (load_line_correct override st0 _ Hb Hlen Hst0 Hok1)
    as (st1 & -> & Hs1 & Hst1 & E1).
  simpl. apply IH; [rewrite Hs1; lia|done|].
  rewrite Hs1, Es0. intros Hok2. apply Hok. by constructor.
Qed.

(** Files on which the condition holds: those whose bytes are all in the
    domain, among them the files of ASCII text, and every file where plain
    [char] is unsigned. *)
Lemma file_ok_chars file : Forall char_ok file → file_ok file.
Proof.
  intros Hf. apply Forall_fmap.
  eapply list.Forall_impl;
    [apply chunks_Forall; [apply LINE_SIZE_room|exact Hf]|].
  intros c Hc. right. by apply line_dom_chars, before_Forall, trim_Forall, before_Forall.
Qed.

Lemma file_ok_ascii file : ascii_only file = true → file_ok file.
Proof. intros Hf. by apply file_ok_chars, ascii_only_char_ok. Qed.

Lemma file_ok_unsigned file : char_signed = false → file_ok file.
Proof.
  intros Hu. apply file_ok_chars, Forall_forall. intros c _.
  by apply char_ok_unsigned.
Qed.

(** On a file that opens, the code computes the contract of the file. *)
Lemma dotenv_load_file fs path override line entry env file :
  length line = LINE_SIZE → entry_wf entry →
  fs !! path = Some file → file_ok file →
  dotenv_load fs path override line entry env
  = Some (Result 0 (load_spec override file env).1 (load_spec override file env).2).
Proof.
  intros Hl He Hf Hok. unfold dotenv_load, fopen, load_spec. rewrite Hf.
  destruct (load_loop_correct override (S (length file))
              (State file line entry env [])) as (st & -> & _ & _ & Est);
    [simpl; lia|done|done|].
  simpl in *. by rewrite <-Est.
Qed.

(** On any other file that opens, the load is undefined. *)
Lemma dotenv_load_outside fs path override line entry env file :
  length line = LINE_SIZE → entry_wf entry →
  fs !! path = Some file → ¬ file_ok file →
  dotenv_load fs path override line entry env = None.
Proof.
  intros Hl He Hf Hok. unfold dotenv_load, fopen. rewrite Hf.
  by rewrite load_loop_outside by (done || simpl; lia).
Qed.

(** More fuel does not change what the loop returns. *)
Lemma load_loop_mono fuel fuel' override st st' :
  load_loop fuel override st = Some st' → fuel ≤ fuel' →
  load_loop fuel' override st = Some st'.
Proof.
  revert fuel' st. induction fuel as [|fuel IH]; intros [|fuel'] st; try done; [lia|].
  simpl. destruct (fgets _ _ _) as [[[line|] stream]|]; simpl; try done.
  destruct (load_line _ _) as [st1|]; simpl; [|done].
  intros Hst Hle. apply IH; [done|lia].
Qed.

(** ** What the contract implies *)

Lemma check_name_env_ok name : check_name name = NameOk → env_name_ok name = true.
Proof.
  intros [Hlen Hall]%check_name_chars. unfold env_name_ok.
  apply andb_true_iff. split.
  - apply negb_true_iff, bool_decide_eq_false_2. intros ->. simpl in Hlen. lia.
  - apply bool_decide_eq_true_2. intros Hin.
    eapply Forall_forall in Hall; [|exact Hin]. by eapply name_char_not_equals.
Qed.

Lemma classify_env_ok t name value :
  classify t = Assignment name value → env_name_ok name = true.
Proof.
  unfold classify. destruct (trim t) as [|c k]; [done|]. case_decide; [done|].
  destruct (line_spec _) eqn:El; [|done]. intros [= <- <-].
  apply line_spec_accepted in El as (_ & _ & Hn & _). by apply check_name_env_ok.
Qed.

(** An assignment applied to the environment, as seen from a variable. *)
Lemma getenv_apply_entry override env name value name' :
  env_name_ok name = true →
  getenv (apply_entry override env name value) name'
  = if decide (name = name')
    then resolve override (getenv env name') [value]
    else getenv env name'.
Proof.
  intros Hok. case_decide as Hn; [subst name'|by apply apply_entry_other].
  unfold apply_entry, resolve. simpl.
  case_test; [by apply getenv_setenv_eq|done].
Qed.

(** The environment the contract yields, variable by variable. *)
Lemma foldl_step_getenv override ts env err name :
  getenv (foldl (step_spec override) (env, err) ts).1 name
  = resolve override (getenv env name) (assigned name ts).
Proof.
  revert env err. induction ts as [|t ts IH]; intros env err; [done|].
  simpl. unfold step_spec at 2.
  destruct (classify t) as [| |name' value|why text] eqn:Ec; simpl; rewrite ?IH; try done.
  rewrite getenv_apply_entry by by eapply classify_env_ok.
  by case_decide.
Qed.

(** What the contract writes to [stderr]. *)
Lemma foldl_step_err override ts env err :
  (foldl (step_spec override) (env, err) ts).2 = err ++ reported ts.
Proof.
  revert env err. induction ts as [|t ts IH]; intros env err; simpl.
  { by rewrite app_nil_r. }
  unfold step_spec at 2, reported. cbn [mbind list_bind].
  destruct (classify t); simpl; rewrite IH; try done.
  by rewrite <-!(assoc_L (++)).
Qed.

Lemma resolve_keep old values : resolve false (Some old) values = Some old.
Proof. by induction values. Qed.

Lemma resolve_last old values value :
  resolve true old (values ++ [value]) = Some value.
Proof. unfold resolve. by rewrite foldl_snoc. Qed.

Lemma resolve_first value values :
  resolve false None (value :: values) = Some value.
Proof. apply resolve_keep. Qed.

(** The two rules in closed form: with [override] the last assignment
    counts, without it the old value or else the first assignment. *)
Lemma resolve_override old values :
  resolve true old values = from_option Some old (last values).
Proof.
  induction values as [|v values _] using rev_ind; [done|].
  by rewrite resolve_last, last_snoc.
Qed.

Lemma resolve_no_override old values :
  resolve false old values = from_option Some (head values) old.
Proof.
  destruct old as [old|]; [apply resolve_keep|].
  destruct values as [|v values]; [done|apply resolve_first].
Qed.

(** Assigning the same values again changes nothing. *)
Lemma resolve_idem override old values :
  resolve override (resolve override old values) values
  = resolve override old values.
Proof.
  destruct override.
  - rewrite !resolve_override. by destruct (last values).
  - rewrite !resolve_no_override. by destruct old, (head values).
Qed.

(** The messages already written do not influence the environment. *)
Lemma foldl_step_env override ts env err :
  (foldl (step_spec override) (env, err) ts).1
  = (foldl (step_spec override) (env, []) ts).1.
Proof.
  revert env err. induction ts as [|t ts IH]; intros env err; [done|].
  simpl. unfold step_spec at 2 4. destruct (classify t); simpl; try done.
  by rewrite IH, (IH _ (_ ++ _)).
Qed.

(** The texts of a file that ends with a newline, followed by another. *)
Lemma texts_app f g :
  last f = Some C_LF → texts (f ++ g) = texts f ++ texts g.
Proof.
  intros Hl. unfold texts.
  by rewrite chunks_app, fmap_app by (apply LINE_SIZE_room || done).
Qed.

(** The contract of two files in a row. *)
Lemma load_spec_app override f g env :
  last f = Some C_LF →
  load_spec override (f ++ g) env
  = ((load_spec override g (load_spec override f env).1).1,
     (load_spec override f env).2
     ++ (load_spec override g (load_spec override f env).1).2).
Proof.
  intros Hl. unfold load_spec. rewrite texts_app, foldl_app by done.
  destruct (foldl _ (env, []) (texts f)) as [env1 err1] eqn:E1. simpl.
  apply injective_projections; simpl.
  - apply foldl_step_env.
  - by rewrite !foldl_step_err.
Qed.

Lemma file_ok_app f g :
  last f = Some C_LF → file_ok (f ++ g) → file_ok f ∧ file_ok g.
Proof.
  intros Hl. unfold file_ok. rewrite texts_app by done. apply Forall_app.
Qed.

(** The result of loading a file that opens, in terms of its texts. *)
Lemma dotenv_load_opened fs path override line entry env file :
  length line = LINE_SIZE → entry_wf entry →
  fs !! path = Some file → file_ok file →
  ∃ r, dotenv_load fs path override line entry env = Some r ∧
       r_ret r = 0%Z ∧
       (∀ name, getenv (r_env r) name
                = resolve override (getenv env name) (assigned name (texts file))) ∧
       r_err r = reported (texts file).
Proof.
  intros Hl He Hf Hok. rewrite (dotenv_load_file _ _ _ _ _ _ file) by done.
  unfold load_spec. eexists. split_and!; [done..| |]; simpl.
  - intros name. apply foldl_step_getenv.
  - apply foldl_step_err.
Qed.

(** ** The properties of [dotenv_load] *)

(** C1 (refinement).  Whatever the locals hold at entry, [dotenv_load]
    returns, and returns what the contract states: -1 and the message of
    [perror] when the file does not open, else 0 with the environment and the
    diagnostics that folding the contract of a line over the texts read by
    [fgets] yields.  The bytes the file has where a name is expected must be
    in the domain of <ctype.h> once promoted from plain [char]
    ([file_ok]). *)
Theorem dotenv_load_refines fs path override line entry env :
  length line = LINE_SIZE → entry_wf entry →
  file_ok (default [] (fs !! path)) →
  dotenv_load fs path override line entry env
  = Some (dotenv_spec fs path override env).
Proof.
  intros Hl He Hok. unfold dotenv_spec.
  destruct (fs !! path) as [file|] eqn:Ef.
  - by apply dotenv_load_file.
  - unfold dotenv_load, fopen. by rewrite Ef.
Qed.

(** C2 (safety).  [dotenv_load] has defined behaviour exactly on the files
    of [file_ok]: on a file that opens, the call returns if and only if no
    text of the file brings a byte outside the domain of <ctype.h> to
    [isalpha] or [isalnum], that is, if every text is blank, a comment, has
    no [=], or has a name whose bytes up to its first invalid character
    are in the domain.  No other undefined behaviour exists in the load: no
    read or write outside a buffer, whatever the locals hold. *)
Theorem dotenv_load_defined fs path override line entry env file :
  length line = LINE_SIZE → entry_wf entry → fs !! path = Some file →
  is_Some (dotenv_load fs path override line entry env) ↔ file_ok file.
Proof.
  intros Hl He Hf. split.
  - intros Hs. destruct (decide (file_ok file)) as [|Hok]; [done|].
    rewrite (dotenv_load_outside _ _ _ _ _ _ file) in Hs by done.
    by destruct Hs.
  - intros Hok. by rewrite (dotenv_load_file _ _ _ _ _ _ file).
Qed.

(** C7 (functional).  After a file has been loaded the call has returned
    0 and every variable has the value that the assignments of the file to
    it give it under the override rule: with [override] the value of the last
    assignment, or the value it had when there is none; without [override]
    the value it had, or the value of the first assignment when it was not
    set.  The messages on [stderr] are those of the rejected lines, in
    order. *)
Theorem dotenv_load_getenv fs path override line entry env file :
  length line = LINE_SIZE → entry_wf entry →
  fs !! path = Some file → file_ok file →
  ∃ r, dotenv_load fs path override line entry env = Some r ∧
       r_ret r = 0%Z ∧
       (∀ name,
          getenv (r_env r) name
          = if override
            then from_option Some (getenv env name)
                   (last (assigned name (texts file)))
            else from_option Some (head (assigned name (texts file)))
                   (getenv env name)) ∧
       r_err r = reported (texts file).
Proof.
  intros Hl He Hf Hok.
  destruct (dotenv_load_opened fs path override line entry env file)
    as (r & -> & Hret & Hget & Herr); [done..|].
  exists r. split_and!; [done..| |done]. intros name. rewrite Hget.
  destruct override; [apply resolve_override|apply resolve_no_override].
Qed.

(** C10 (termination).  The loop ends: with more fuel than the stream has
    bytes it returns, at the end of the file, and any larger amount of fuel
    gives the same final state. *)
Theorem load_loop_terminates override fuel st :
  length (st_stream st) < fuel → state_ok st → file_ok (st_stream st) →
  ∃ st', load_loop (S (length (st_stream st))) override st = Some st' ∧
         load_loop fuel override st = Some st' ∧ st_stream st' = [].
Proof.
  intros Hf Hst Hok.
  destruct (load_loop_correct override (S (length (st_stream st))) st)
    as (st' & Est & Hs & _); [lia|done..|].
  exists st'. split_and!; [done| |done]. eapply load_loop_mono; [done|lia].
Qed.

(** C27 (invariant).  Without [override], loading a file changes no variable
    that exists. *)
Theorem dotenv_load_keeps fs path line entry env file :
  length line = LINE_SIZE → entry_wf entry →
  fs !! path = Some file → file_ok file →
  ∃ r, dotenv_load fs path false line entry env = Some r ∧
       ∀ name old, getenv env name = Some old → getenv (r_env r) name = Some old.
Proof.
  intros Hl He Hf Hok.
  destruct (dotenv_load_opened fs path false line entry env file)
    as (r & -> & _ & Hr & _); [done..|].
  eexists. split; [done|]. intros name old Hold.
  rewrite Hr, Hold. apply resolve_keep.
Qed.

(** C28 (functional).  With [override], a variable the file assigns ends
    with the value of the last assignment to it. *)
Theorem dotenv_load_last_wins fs path line entry env file name values value :
  length line = LINE_SIZE → entry_wf entry →
  fs !! path = Some file → file_ok file →
  assigned name (texts file) = values ++ [value] →
  ∃ r, dotenv_load fs path true line entry env = Some r ∧
       getenv (r_env r) name = Some value.
Proof.
  intros Hl He Hf Hok Ha.
  destruct (dotenv_load_opened fs path true line entry env file)
    as (r & -> & _ & Hr & _); [done..|].
  eexists. split; [done|]. rewrite Hr, Ha. apply resolve_last.
Qed.

(** A variable the file does not assign keeps its value or stays unset,
    whatever [override] is. *)
Corollary dotenv_load_frame fs path override line entry env file name :
  length line = LINE_SIZE → entry_wf entry →
  fs !! path = Some file → file_ok file →
  assigned name (texts file) = [] →
  ∃ r, dotenv_load fs path override line entry env = Some r ∧
       getenv (r_env r) name = getenv env name.
Proof.
  intros Hl He Hf Hok Ha.
  destruct (dotenv_load_opened fs path override line entry env file)
    as (r & -> & _ & Hr & _); [done..|].
  eexists. split; [done|]. by rewrite Hr, Ha.
Qed.

(** C21 (equivalence).  On a file whose lines, newline included, are
    shorter than the line buffer, [dotenv_load] works line by line: it folds
    the contract of a line over the lines of the file. *)
Theorem dotenv_load_lines fs path override line entry env file :
  length line = LINE_SIZE → entry_wf entry →
  fs !! path = Some file → file_ok file →
  Forall (λ l, length l < LINE_SIZE) (lines file) →
  ∃ r, dotenv_load fs path override line entry env = Some r ∧ r_ret r = 0%Z ∧
       (r_env r, r_err r)
       = foldl (step_spec override) (env, []) (before C_NUL <$> lines file).
Proof.
  intros Hl He Hf Hok Hfit. rewrite (dotenv_load_file _ _ _ _ _ _ file) by done.
  unfold load_spec. rewrite (texts_lines_fit _ Hfit).
  eexists. split_and!; [done..|]. simpl. by destruct (foldl _ _ _).
Qed.

(** C33 (bounds).  The truncation of lines 70-71 never cuts anything, and
    the reason is the bound of [fgets]: for every text [fgets] delivers from
    any file, and the value that follows its first [=], the unquoted branch
    of [parse_value] (lines 65-72: the comment cut, the trim, [strncpy] with
    [LINE_SIZE - 1] and the terminator in the last cell) leaves in [output]
    the whole trimmed text before the comment.  A value too long for
    [output] is never seen by [strncpy]: [fgets] has cut the line before. *)
Theorem unquoted_value_never_truncated file t b p out :
  t ∈ texts file → C_EQUALS ∈ trim t →
  let s := trim (after C_EQUALS (trim t)) in
  cstring_at b p s → length out = LINE_SIZE →
  ∃ b' out', parse_value_unquoted b p out = Some (b', out') ∧
             string_at out' 0 = Some (trim (cut_comment s)).
Proof.
  intros Ht Heq s Hb Hout.
  destruct (parse_value_unquoted_spec _ _ _ _ Hb Hout) as (b' & out' & -> & Hv & _).
  exists b', out'. split; [done|]. apply string_at_cstring.
  rewrite take_ge in Hv; [done|].
  pose proof (proj1 (Forall_forall _ _) (texts_length file) t Ht) as Hlen.
  pose proof (trim_length t). pose proof (before_after_length _ _ Heq).
  pose proof (trim_length (after C_EQUALS (trim t))).
  pose proof (trim_length (cut_comment s)). pose proof (before_length C_HASH s).
  unfold cut_comment, s in *. simpl in Hlen. lia.
Qed.

(** C19 (functional).  A line with [LINE_SIZE - 1] bytes or more before
    its newline is not one line to [dotenv_load]: its first [LINE_SIZE - 1]
    bytes are processed as a line, then the bytes after them as if they
    started a new one. *)
Theorem dotenv_load_long_line fs path override line entry env l rest :
  length line = LINE_SIZE → entry_wf entry →
  fs !! path = Some (l ++ rest) → file_ok (l ++ rest) →
  length l = LINE_SIZE - 1 → C_LF ∉ l →
  ∃ r, dotenv_load fs path override line entry env = Some r ∧
       (r_env r, r_err r)
       = foldl (step_spec override)
           (step_spec override (env, []) (before C_NUL l)) (texts rest).
Proof.
  intros Hl He Hf Hok Hlen Hlf.
  rewrite (dotenv_load_file _ _ _ _ _ _ (l ++ rest)) by done.
  unfold load_spec. rewrite texts_long_line by done.
  eexists. split; [done|]. simpl. by destruct (foldl _ _ _).
Qed.

(** C20 (functional).  A NUL byte in a line that fits the buffer hides the
    rest of the line: [fgets] stores the bytes up to the newline, and the
    string functions stop at the NUL, so the file is loaded as if the line
    ended where the NUL byte is. *)
Theorem dotenv_load_nul_byte fs path override line entry env l hidden rest :
  length line = LINE_SIZE → entry_wf entry →
  fs !! path = Some (l ++ C_NUL :: hidden ++ C_LF :: rest) →
  nul_free l → C_LF ∉ l → C_LF ∉ hidden →
  length (l ++ C_NUL :: hidden) < LINE_SIZE - 1 →
  file_ok (l ++ C_LF :: rest) →
  dotenv_load fs path override line entry env
  = dotenv_load (<[path := l ++ C_LF :: rest]> fs) path override line entry env.
Proof.
  intros Hl He Hf Hnf Hlf Hh Hlen Hok.
  assert (length l < LINE_SIZE - 1) as Hlen' by (revert Hlen; list_len).
  assert (Forall (λ c, is_space c = true) [C_LF]) as Hsp by by repeat constructor.
  assert (texts (l ++ C_NUL :: hidden ++ C_LF :: rest) = l :: texts rest) as Et.
  { rewrite (app_comm_cons hidden), (assoc_L (++) l), texts_line; [|..|done].
    - by rewrite <-(assoc_L (++)), <-app_comm_cons, before_first
        by by apply nul_free_not_elem.
    - apply not_elem_of_app. split; [done|by apply not_elem_of_cons]. }
  assert (texts (l ++ C_LF :: rest) = (l ++ [C_LF]) :: texts rest) as Et'.
  { rewrite texts_line, before_absent; [done| |done..].
    apply not_elem_of_app. split; [by apply nul_free_not_elem|].
    by apply not_elem_of_cons; split; [|apply not_elem_of_nil]. }
  unfold file_ok in Hok. rewrite Et' in Hok. apply Forall_cons in Hok as [Hok1 Hok2].
  rewrite (dotenv_load_file _ _ _ _ _ _ _ Hl He Hf),
    (dotenv_load_file _ _ _ _ _ _ (l ++ C_LF :: rest) Hl He).
  - unfold load_spec. rewrite Et, Et'. simpl. by rewrite step_spec_app_spaces.
  - apply lookup_insert_eq.
  - unfold file_ok. rewrite Et'. by constructor.
  - unfold file_ok. rewrite Et. constructor; [|done].
    by apply text_ok_app_spaces in Hok1.
Qed.

(** C24 (equivalence).  Loading a file that is two files in a row, the
    first ending with a newline, is loading the first and then the second:
    the environment is the one the second load leaves, and the messages are
    those of both loads in order. *)
Theorem dotenv_load_sequence fs path path1 path2 override line entry env f g :
  length line = LINE_SIZE → entry_wf entry →
  fs !! path = Some (f ++ g) → fs !! path1 = Some f → fs !! path2 = Some g →
  last f = Some C_LF → file_ok (f ++ g) →
  ∃ r1 r2,
    dotenv_load fs path1 override line entry env = Some r1 ∧
    dotenv_load fs path2 override line entry (r_env r1) = Some r2 ∧
    dotenv_load fs path override line entry env
    = Some (Result 0 (r_env r2) (r_err r1 ++ r_err r2)).
Proof.
  intros Hl He Hfg Hf Hg Hlast Hok.
  destruct (file_ok_app _ _ Hlast Hok) as [Hokf Hokg].
  rewrite (dotenv_load_file _ _ _ _ _ _ f), (dotenv_load_file _ _ _ _ _ _ (f ++ g))
    by done.
  eexists _, _. split; [done|]. simpl.
  rewrite (dotenv_load_file _ _ _ _ _ _ g) by done. split; [done|].
  by rewrite load_spec_app.
Qed.

(** C25 (functional).  Loading a file a second time changes no variable:
    [dotenv_load] is idempotent on the environment, and reports the same
    lines again. *)
Theorem dotenv_load_idempotent fs path override line entry env file :
  length line = LINE_SIZE → entry_wf entry →
  fs !! path = Some file → file_ok file →
  ∃ r1 r2,
    dotenv_load fs path override line entry env = Some r1 ∧
    dotenv_load fs path override line entry (r_env r1) = Some r2 ∧
    env_sim (r_env r2) (r_env r1) ∧ r_err r2 = r_err r1.
Proof.
  intros Hl He Hf Hok.
  destruct (dotenv_load_opened fs path override line entry env file)
    as (r1 & L1 & _ & H1 & E1); [done..|].
  destruct (dotenv_load_opened fs path override line entry (r_env r1) file)
    as (r2 & L2 & _ & H2 & E2); [done..|].
  exists r1, r2. split_and!; [done..| |congruence].
  intros name. by rewrite H2, H1, resolve_idem.
Qed.

(** C22 (type).  What [parse_line] leaves in the entry when it returns 0
    is what [setenv] requires: a name that is not empty, holds no [=] and has
    [MAX_VAR_NAME] characters at most, and a value shorter than the line,
    both terminated inside their arrays.  The step of lines 127-129 is then
    defined, and no call of [setenv] made by [dotenv_load] fails for its
    arguments. *)
Theorem accepted_entry_wf b p s e :
  cstring_at b p s → length s < LINE_SIZE → entry_wf e → line_dom s →
  ∃ out, parse_line b p e = Some out ∧ entry_wf (lo_entry out) ∧
         (lo_ret out = 0%Z →
          ∃ name value,
            string_at (entry_name (lo_entry out)) 0 = Some name ∧
            string_at (entry_value (lo_entry out)) 0 = Some value ∧
            env_name_ok name = true ∧ 0 < length name ≤ MAX_VAR_NAME ∧
            nul_free value ∧ length value < length s ∧
            ∀ override env,
              set_entry override env (lo_entry out)
              = Some (apply_entry override env name value)).
Proof.
  intros Hb Hlen He Hok.
  destruct (parse_line_correct b p s e) as (out & -> & _ & Hp); [done..|].
  exists out. split; [done|].
  destruct (line_spec s) as [name value|why] eqn:El; simpl in Hp.
  - destruct Hp as (_ & _ & Hwf & Hn & Hv). split; [done|]. intros _.
    apply line_spec_accepted in El as (Hin & _ & Hname & ->).
    exists name, (value_of (after C_EQUALS s)).
    pose proof (value_of_length (after C_EQUALS s)).
    pose proof (before_after_length _ _ Hin).
    destruct (check_name_chars _ Hname) as [[? ?] _].
    split_and!; [by apply string_at_cstring|by apply string_at_cstring
                |by apply check_name_env_ok|done|done
                |apply (cstring_at_nul_free _ _ _ Hv)|lia
                |by intros; apply set_entry_spec].
  - destruct Hp as (-> & _ & -> & _). by split.
Qed.

(** C29 (error).  When the file does not open, [dotenv_load] returns -1,
    reports the failure and leaves the environment as it is. *)
Theorem dotenv_load_missing_file fs path override line entry env :
  fs !! path = None →
  dotenv_load fs path override line entry env
  = Some (Result (-1) env [FailedToOpen]).
Proof. intros Hf. unfold dotenv_load, fopen. by rewrite Hf. Qed.
End loader_correct.

(** ** The representation of the environment

    The contract depends on the environment through [getenv] only. *)

Section representation.
Context `{CharModel} `{Environ E1} `{Environ E2}.

Lemma load_spec_sim override file (env1 : E1) (env2 : E2) :
  env_sim env1 env2 →
  env_sim (load_spec override file env1).1 (load_spec override file env2).1 ∧
  (load_spec override file env1).2 = (load_spec override file env2).2.
Proof.
  intros He. unfold load_spec. split.
  - intros name. by rewrite !foldl_step_getenv, (He name).
  - by rewrite !foldl_step_err.
Qed.

End representation.

(** ** Running the model *)

(** A file given by its lines, each ended by a newline. *)
Definition text_file (ls : list string) : list Z := ls ≫= λ l, str l ++ [C_LF].

(** The environment as the [environ] array, with its variables given as
    strings. *)
Definition environ_of (vars : list (string * string))
  : list (list Z * list Z) :=
  (λ v, (str v.1, str v.2)) <$> vars.

(** [dotenv_load(".env", override)] in a file system whose only file is
    [.env], with locals that hold the byte 7 everywhere. *)
Definition run (cm : CharModel) (file : list Z) (override : bool)
  (env : list (list Z * list Z)) : option (result (list (list Z * list Z))) :=
  @dotenv_load cm _ list_environ {[ ".env"%string := file ]} ".env"%string
    override (replicate LINE_SIZE 7%Z) (entry_filled 7) env.

(** Discharges the side conditions of a run on a file of ASCII text. *)
Ltac run_side :=
  lazymatch goal with
  | |- length (replicate _ _) = _ => apply length_replicate
  | |- entry_wf _ => apply entry_filled_wf
  | |- {[ _ := _ ]} !! _ = Some _ => apply lookup_singleton_eq
  | |- file_ok _ => apply (bool_decide_unpack _); vm_compute; exact I
  | |- _ = _ => vm_compute; reflexivity
  | |- _ => apply (bool_decide_unpack _); vm_compute; exact I
  end.

(** A run computes the contract of the file: the cases of the test program
    are evaluated on the contract and hold of the code by this lemma. *)
Lemma run_spec cm file override env :
  @file_ok cm file →
  run cm file override env
  = Some (Result 0 (load_spec override file env).1 (load_spec override file env).2).
Proof.
  intros Hok. unfold run.
  apply (@dotenv_load_file cm);
    [apply length_replicate|apply entry_filled_wf|apply lookup_singleton_eq|done].
Qed.

Lemma dotenv_load_refines_witness :
  run signed_char (text_file ["API_KEY=123456 # note"; "DEBUG=true"]) true []
  = Some (dotenv_spec {[ ".env"%string :=
                          text_file ["API_KEY=123456 # note"; "DEBUG=true"] ]}
            ".env"%string true []).
Proof.
  apply (@dotenv_load_refines signed_char); [run_side..|].
  rewrite lookup_singleton_eq. simpl. run_side.
Defined.

(** A file with the line CAFÉ=1 in UTF-8, and a file with the same bytes
    after a character that ends the validation. *)
Definition utf8_name : list Z := str "CAF" ++ [195; 137]%Z ++ str "=1" ++ [C_LF].
Definition utf8_late : list Z := str "CA F" ++ [195; 137]%Z ++ str "=1" ++ [C_LF].

Lemma dotenv_load_defined_witness :
  (is_Some (run signed_char utf8_name true []) ↔ @file_ok signed_char utf8_name) ∧
  (is_Some (run signed_char utf8_late true []) ↔ @file_ok signed_char utf8_late) ∧
  ¬ @file_ok signed_char utf8_name ∧ @file_ok signed_char utf8_late.
Proof.
  split_and!.
  - apply (@dotenv_load_defined signed_char); run_side.
  - apply (@dotenv_load_defined signed_char); run_side.
  - apply (bool_decide_unpack _). vm_compute. exact I.
  - apply (bool_decide_unpack _). vm_compute. exact I.
Defined.

Lemma dotenv_load_getenv_witness :
  ∃ r, run signed_char (text_file ["A=1"; "oops"; "A=2"]) false [] = Some r ∧
       r_ret r = 0%Z ∧
       (∀ name,
          getenv (r_env r) name
          = if false
            then from_option Some (getenv [] name)
                   (last (assigned name (texts (text_file ["A=1"; "oops"; "A=2"]))))
            else from_option Some
                   (head (assigned name (texts (text_file ["A=1"; "oops"; "A=2"]))))
                   (getenv [] name)) ∧
       r_err r = reported (texts (text_file ["A=1"; "oops"; "A=2"])).
Proof.
  apply (@dotenv_load_getenv signed_char)
    with (file := text_file ["A=1"; "oops"; "A=2"]); run_side.
Defined.

(** The state at the entry of the loop, for a run on [file]. *)
Definition entry_state (file : list Z) : state (list (list Z * list Z)) :=
  State file (replicate LINE_SIZE 7%Z) (entry_filled 7) [] [].

Lemma load_loop_terminates_witness :
  ∃ st', @load_loop signed_char _ list_environ
           (S (length (st_stream (entry_state (text_file ["A=1"; "B=2"])))))
           true (entry_state (text_file ["A=1"; "B=2"])) = Some st' ∧
         @load_loop signed_char _ list_environ 100 true
           (entry_state (text_file ["A=1"; "B=2"])) = Some st' ∧
         st_stream st' = [].
Proof.
  apply (@load_loop_terminates signed_char _ list_environ true 100
           (entry_state (text_file ["A=1"; "B=2"])));
    [vm_compute; lia|split; run_side|run_side].
Defined.

Lemma dotenv_load_keeps_witness :
  ∃ r, run signed_char (text_file ["DEBUG=true"]) false
         (environ_of [("DEBUG", "false")]) = Some r ∧
       ∀ name old, getenv (environ_of [("DEBUG", "false")]) name = Some old →
                   getenv (r_env r) name = Some old.
Proof.
  apply (@dotenv_load_keeps signed_char) with (file := text_file ["DEBUG=true"]);
    run_side.
Defined.

Lemma dotenv_load_last_wins_witness :
  ∃ r, run signed_char (text_file ["DUP_VAR=first"; "DUP_VAR=second"; "DUP_VAR=third"])
         true [] = Some r ∧
       getenv (r_env r) (str "DUP_VAR") = Some (str "third").
Proof.
  apply (@dotenv_load_last_wins signed_char)
    with (file := text_file ["DUP_VAR=first"; "DUP_VAR=second"; "DUP_VAR=third"])
         (values := [str "first"; str "second"]); run_side.
Defined.

Lemma dotenv_load_missing_file_witness :
  @dotenv_load signed_char _ list_environ ∅ "test.env"%string true
    (replicate LINE_SIZE 7%Z) (entry_filled 7) (environ_of [("HOME", "/root")])
  = Some (Result (-1) (environ_of [("HOME", "/root")]) [FailedToOpen]).
Proof. apply (@dotenv_load_missing_file signed_char). run_side. Defined.

Lemma dotenv_load_lines_witness :
  ∃ r, run signed_char (text_file ["A=1"; ""; "B=2 # two"]) true [] = Some r ∧
       r_ret r = 0%Z ∧
       (r_env r, r_err r)
       = foldl (step_spec true) ([], [])
           (before C_NUL <$> lines (text_file ["A=1"; ""; "B=2 # two"])).
Proof.
  apply (@dotenv_load_lines signed_char)
    with (file := text_file ["A=1"; ""; "B=2 # two"]); run_side.
Defined.

Lemma dotenv_load_long_line_witness :
  ∃ r, run signed_char
         ((str "A=" ++ replicate 1021 120%Z) ++ str "B=2" ++ [C_LF]) true []
       = Some r ∧
       (r_env r, r_err r)
       = foldl (step_spec true)
           (step_spec true ([], []) (before C_NUL (str "A=" ++ replicate 1021 120%Z)))
           (texts (str "B=2" ++ [C_LF])).
Proof.
  apply (@dotenv_load_long_line signed_char)
    with (l := str "A=" ++ replicate 1021 120%Z) (rest := str "B=2" ++ [C_LF]);
    run_side.
Defined.

Lemma dotenv_load_nul_byte_witness :
  run signed_char (str "A=1" ++ C_NUL :: str " junk" ++ C_LF :: str "B=2" ++ [C_LF])
      true []
  = @dotenv_load signed_char _ list_environ
      (<[".env"%string := str "A=1" ++ C_LF :: str "B=2" ++ [C_LF]]>
         {[ ".env"%string :=
              str "A=1" ++ C_NUL :: str " junk" ++ C_LF :: str "B=2" ++ [C_LF] ]})
      ".env" true (replicate LINE_SIZE 7%Z) (entry_filled 7) [].
Proof.
  apply (@dotenv_load_nul_byte signed_char)
    with (l := str "A=1") (hidden := str " junk") (rest := str "B=2" ++ [C_LF]);
    run_side.
Defined.

(** A file system with two files and the file that is one after the
    other. *)
Definition two_files : gmap string (list Z) :=
  {[ "a"%string := text_file ["A=1"; "bad"];
     "b"%string := text_file ["A=2"; "B=3"];
     "ab"%string := text_file ["A=1"; "bad"] ++ text_file ["A=2"; "B=3"] ]}.

Lemma dotenv_load_sequence_witness :
  ∃ r1 r2,
    @dotenv_load signed_char _ list_environ two_files "a" false
      (replicate LINE_SIZE 7%Z) (entry_filled 7) [] = Some r1 ∧
    @dotenv_load signed_char _ list_environ two_files "b" false
      (replicate LINE_SIZE 7%Z) (entry_filled 7) (r_env r1) = Some r2 ∧
    @dotenv_load signed_char _ list_environ two_files "ab" false
      (replicate LINE_SIZE 7%Z) (entry_filled 7) []
    = Some (Result 0 (r_env r2) (r_err r1 ++ r_err r2)).
Proof.
  apply (@dotenv_load_sequence signed_char)
    with (f := text_file ["A=1"; "bad"]) (g := text_file ["A=2"; "B=3"]);
    run_side.
Defined.

Lemma dotenv_load_idempotent_witness :
  ∃ r1 r2,
    run signed_char (text_file ["A=1"; "A=2"; "bad"]) false [] = Some r1 ∧
    run signed_char (text_file ["A=1"; "A=2"; "bad"]) false (r_env r1) = Some r2 ∧
    env_sim (r_env r2) (r_env r1) ∧ r_err r2 = r_err r1.
Proof.
  apply (@dotenv_load_idempotent signed_char)
    with (file := text_file ["A=1"; "A=2"; "bad"]); run_side.
Defined.

Lemma accepted_entry_wf_witness :
  ∃ out, @parse_line signed_char (str "KEY = some value # note" ++ [0%Z]) 0
           (entry_filled 7) = Some out ∧
         entry_wf (lo_entry out) ∧
         (lo_ret out = 0%Z →
          ∃ name value,
            string_at (entry_name (lo_entry out)) 0 = Some name ∧
            string_at (entry_value (lo_entry out)) 0 = Some value ∧
            env_name_ok name = true ∧ 0 < length name ≤ MAX_VAR_NAME ∧
            nul_free value ∧ length value < length (str "KEY = some value # note") ∧
            ∀ override (env : list (list Z * list Z)),
              set_entry override env (lo_entry out)
              = Some (apply_entry override env name value)).
Proof.
  apply (@accepted_entry_wf signed_char _ list_environ);
    [cstring_closed|vm_compute; lia|apply entry_filled_wf
    |by apply line_dom_chars, ascii_only_char_ok].
Defined.

Lemma unquoted_value_never_truncated_witness :
  ∃ b' out',
    parse_value_unquoted (str "some value # note" ++ [0%Z]) 0 (replicate LINE_SIZE 7%Z)
    = Some (b', out') ∧
    string_at out' 0
    = Some (trim (cut_comment
                    (trim (after C_EQUALS
                             (trim (str "KEY= some value # note" ++ [C_LF])))))).
Proof.
  apply (unquoted_value_never_truncated (text_file ["A=1"; "KEY= some value # note"]));
    [apply (bool_decide_unpack _); vm_compute; exact I
    |apply (bool_decide_unpack _); vm_compute; exact I
    |cstring_closed|apply length_replicate].
Defined.
