(* ===== verification/Render.v ===== *)
(** * Render: writing a file that [dotenv_load] reads back

    spec.md 6 gives the format: one [NAME=VALUE] per line.  A value can be
    written between double quotes, with backslash before backslash and quote
    and the sequences for newline, carriage return and tab, or bare when it
    holds nothing the unquoted mode treats specially.  This file proves that
    [dotenv_load] reads back every file written in either way: the round
    trip of the whole program.

    - [Format]: what a way of writing an entry as a line must provide for
      the round trip: the line is plain text and a newline, fits the buffer
      of [fgets], is classified as the assignment it writes and keeps the
      code inside the domain of <ctype.h>.
    - [render_line], [entry_ok], [quoted]: the quoted format.
    - [bare_line], [bare_ok], [bare]: the unquoted format, which the test
      program uses for its generated files.
    - [render]: entries as a file, in a format.
    - [values_of]: the values a list of entries gives to a name.

    Main results, for every format: [load_line_render] (one iteration reads
    a line back as its entry), [dotenv_load_render] (a file is read back as
    its entries). *)

From stdpp Require Import gmap.
From S2P Require Import Prelude Libc Header Trim Value Name Line Env Stdio Loader.

Definition render_line (e : list Z * list Z) : list Z :=
  e.1 ++ C_EQUALS :: C_QUOTE :: encode e.2 ++ [C_QUOTE; C_LF].

Definition entry_ok (e : list Z * list Z) : Prop :=
  check_name e.1 = NameOk ∧ nul_free e.2 ∧ length (render_line e) < LINE_SIZE.

#[export] Instance entry_ok_dec e : Decision (entry_ok e).
Proof. unfold entry_ok. apply _. Defined.

(** A character that is neither the newline nor the terminator. *)
Definition plain (c : Z) : Prop := c ≠ C_LF ∧ c ≠ C_NUL.

(** The unquoted format: the value as it is. *)
Definition bare_line (e : list Z * list Z) : list Z :=
  e.1 ++ C_EQUALS :: e.2 ++ [C_LF].

(** The values the unquoted mode returns unchanged: no newline, NUL or [#],
    no whitespace at either end, no quote in front. *)
Definition bare_value (v : list Z) : Prop :=
  Forall (λ c, plain c ∧ c ≠ C_HASH) v ∧
  head_fails is_space v ∧ last_fails is_space v ∧ head v ≠ Some C_QUOTE.

Definition bare_ok (e : list Z * list Z) : Prop :=
  check_name e.1 = NameOk ∧ bare_value e.2 ∧ length (bare_line e) < LINE_SIZE.

#[export] Instance head_fails_dec {A} (f : A → bool) l : Decision (head_fails f l).
Proof. destruct l; simpl; apply _. Defined.

#[export] Instance bare_ok_dec e : Decision (bare_ok e).
Proof. unfold bare_ok, bare_value, last_fails, plain. apply _. Defined.

(** What a way of writing entries owes to the loader. *)
Class Format := {
  format_line : list Z * list Z → list Z;
  format_ok : list Z * list Z → Prop;
  format_plain e :
    format_ok e → ∃ l, format_line e = l ++ [C_LF] ∧ Forall plain l;
  format_fits e : format_ok e → length (format_line e) < LINE_SIZE;
  format_classify e :
    format_ok e → classify (format_line e) = Assignment e.1 e.2;
  format_text_ok (cm : CharModel) e : format_ok e → text_ok (format_line e);
}.

Definition render `{Format} (es : list (list Z * list Z)) : list Z :=
  es ≫= format_line.

(** The values the entries give to [name], in order. *)
Definition values_of (name : list Z) (es : list (list Z * list Z))
  : list (list Z) :=
  omap (λ e, if decide (e.1 = name) then Some e.2 else None) es.

(** Entries with other names give a name no value. *)
Lemma values_of_none name es :
  Forall (λ e, e.1 ≠ name) es → values_of name es = [].
Proof.
  induction 1 as [|e es He _ IH]; [done|].
  unfold values_of in *. cbn [omap list_omap]. by rewrite decide_False, IH.
Qed.

(** ** The escaped form *)

Lemma encode_char_plain c : c ≠ 0%Z → Forall plain (encode_char c).
Proof.
  intros Hc. unfold encode_char, plain.
  repeat case_decide; subst; repeat constructor; done.
Qed.

(** The escaped form of a value without NUL fits on a line. *)
Lemma encode_plain v : nul_free v → Forall plain (encode v).
Proof.
  intros Hv. unfold encode. induction Hv as [|c v Hc _ IH]; [done|].
  cbn [mbind list_bind]. apply Forall_app. split; [by apply encode_char_plain|done].
Qed.

Lemma name_char_plain c : name_char c = true → plain c.
Proof. intros Hc. split; [by intros ->|by apply name_char_not_nul]. Qed.

(** ** A line *)

Section line.
Context (e : list Z * list Z) (He : entry_ok e).

Lemma name_chars : Forall (λ c, name_char c = true) e.1 ∧ e.1 ≠ [].
Proof.
  pose proof He as (Hn & _). apply check_name_chars in Hn as [[Hl _] Hall].
  split; [done|]. intros E. rewrite E in Hl. simpl in Hl. lia.
Qed.

(** A rendered line is plain text and a newline. *)
Lemma render_line_plain :
  ∃ l, render_line e = l ++ [C_LF] ∧ Forall plain l.
Proof.
  pose proof He as (_ & Hv & _). destruct name_chars as [Hall _].
  exists (e.1 ++ C_EQUALS :: C_QUOTE :: encode e.2 ++ [C_QUOTE]). split.
  - unfold render_line. rewrite <-(assoc_L (++)). simpl.
    by rewrite <-(assoc_L (++)).
  - apply Forall_app. split.
    + eapply list.Forall_impl; [exact Hall|]. apply name_char_plain.
    + do 2 (constructor; [done|]). apply Forall_app. split; [by apply encode_plain|].
      by repeat constructor.
Qed.

(** The trimmed line is the line without its newline. *)
Lemma trim_render_line :
  trim (render_line e) = e.1 ++ C_EQUALS :: C_QUOTE :: encode e.2 ++ [C_QUOTE].
Proof.
  destruct name_chars as [Hall Hne]. unfold render_line.
  destruct e.1 as [|x n] eqn:En; [done|]. inv Hall.
  assert ((x :: n) ++ C_EQUALS :: C_QUOTE :: encode e.2 ++ [C_QUOTE; C_LF]
          = [] ++ x :: (n ++ C_EQUALS :: C_QUOTE :: encode e.2) ++ C_QUOTE :: [C_LF])
    as -> by (simpl; by rewrite <-(assoc_L (++))).
  rewrite trim_between;
    [|done|by repeat constructor|by apply name_char_not_space|done].
  simpl. by rewrite <-(assoc_L (++)).
Qed.

(** A name neither starts nor ends with whitespace and holds no [=]. *)
Lemma name_trimmed : trim e.1 = e.1 ∧ (C_EQUALS ∉ e.1).
Proof.
  destruct name_chars as [Hall _]. split.
  - apply trim_fixed.
    + destruct e.1 as [|x n]; [done|]. inv Hall. by apply name_char_not_space.
    + unfold last_fails. apply Forall_reverse in Hall.
      destruct (reverse e.1) as [|y k]; [done|]. inv Hall.
      by apply name_char_not_space.
  - intros Hin. eapply Forall_forall in Hall; [|exact Hin]. done.
Qed.

(** A rendered line is read back as the assignment of its value to its
    name. *)
Lemma classify_render_line_correct :
  classify (render_line e) = Assignment e.1 e.2.
Proof.
  destruct name_chars as [Hall Hne]. destruct name_trimmed as [Ht Heq].
  pose proof He as (Hn & Hv & _).
  unfold classify. rewrite trim_render_line.
  destruct (e.1 ++ _) as [|x k] eqn:Ek; [by destruct e.1|].
  assert (x ≠ C_HASH) as Hx.
  { destruct e.1 as [|y n]; [done|]. inv Hall. simplify_eq/=. by intros ->. }
  rewrite decide_False by done. rewrite <-Ek. unfold line_spec.
  rewrite decide_True by (apply elem_of_app; right; left).
  rewrite before_first, after_first, Ht, Hn by done. f_equal.
  apply (value_of_quoted e.2 [] []). constructor.
Qed.

(** The line is a text on which the code stays inside the domain of
    <ctype.h>, whatever the signedness of [char]. *)
Lemma text_ok_render_line `{CharModel} : text_ok (render_line e).
Proof.
  destruct name_chars as [Hall _]. destruct name_trimmed as [_ Heq].
  right. rewrite trim_render_line. apply line_dom_chars.
  rewrite before_first by done.
  eapply list.Forall_impl; [exact Hall|]. apply name_char_char_ok.
Qed.
End line.

#[export] Instance quoted : Format := {|
  format_line := render_line;
  format_ok := entry_ok;
  format_plain := render_line_plain;
  format_fits e He := proj2 (proj2 He);
  format_classify := classify_render_line_correct;
  format_text_ok cm e He := @text_ok_render_line e He cm;
|}.

(** ** A line of the unquoted format *)

Section bare.
Context (e : list Z * list Z) (He : bare_ok e).

Lemma bare_name_chars : Forall (λ c, name_char c = true) e.1 ∧ e.1 ≠ [].
Proof.
  pose proof He as (Hn & _). apply check_name_chars in Hn as [[Hl _] Hall].
  split; [done|]. intros E. rewrite E in Hl. simpl in Hl. lia.
Qed.

Lemma bare_line_plain : ∃ l, bare_line e = l ++ [C_LF] ∧ Forall plain l.
Proof.
  pose proof He as (_ & (Hv & _) & _). destruct bare_name_chars as [Hall _].
  exists (e.1 ++ C_EQUALS :: e.2). split.
  - unfold bare_line. by rewrite <-(assoc_L (++)).
  - apply Forall_app. split.
    + eapply list.Forall_impl; [exact Hall|]. apply name_char_plain.
    + constructor; [done|]. eapply list.Forall_impl; [exact Hv|]. by intros c [? _].
Qed.

(** The trimmed line is the line without its newline. *)
Lemma trim_bare_line : trim (bare_line e) = e.1 ++ C_EQUALS :: e.2.
Proof.
  pose proof He as (_ & (_ & _ & Hl & _) & _). destruct bare_name_chars as [Hall Hne].
  unfold bare_line. rewrite (app_comm_cons e.2), (assoc_L (++)).
  rewrite trim_app_spaces by by repeat constructor. apply trim_fixed.
  - destruct e.1 as [|x n]; [done|]. inv Hall. by apply name_char_not_space.
  - unfold last_fails in *. rewrite reverse_app, reverse_cons.
    destruct (reverse e.2) as [|y k]; [done|]. by rewrite <-!(assoc_L (++)).
Qed.

(** The unquoted mode returns a bare value as it is. *)
Lemma value_of_bare v : bare_value v → length v < LINE_SIZE → value_of v = v.
Proof.
  intros (Hv & Hh & Hl & Hq) Hlen. unfold value_of. rewrite trim_fixed by done.
  destruct v as [|c q]; [done|]. rewrite decide_False by by intros ->.
  unfold cut_comment. rewrite before_absent, trim_fixed by done || (
    intros Hin; eapply Forall_forall in Hv; [|exact Hin]; by destruct Hv).
  apply take_ge. lia.
Qed.

Lemma classify_bare_line : classify (bare_line e) = Assignment e.1 e.2.
Proof.
  destruct bare_name_chars as [Hall Hne]. pose proof He as (Hn & Hv & Hlen).
  assert (C_EQUALS ∉ e.1) as Heq.
  { intros Hin. eapply Forall_forall in Hall; [|exact Hin]. done. }
  unfold classify. rewrite trim_bare_line.
  destruct (e.1 ++ _) as [|x k] eqn:Ek; [by destruct e.1|].
  assert (x ≠ C_HASH) as Hx.
  { destruct e.1 as [|y n]; [done|]. inv Hall. simplify_eq/=. by intros ->. }
  rewrite decide_False by done. rewrite <-Ek. unfold line_spec.
  rewrite decide_True by (apply elem_of_app; right; left).
  rewrite before_first, after_first by done. rewrite trim_fixed.
  - rewrite Hn. f_equal. apply value_of_bare; [done|]. revert Hlen.
    unfold bare_line. list_len.
  - destruct e.1 as [|y n]; [done|]. inv Hall. by apply name_char_not_space.
  - unfold last_fails. apply Forall_reverse in Hall.
    destruct (reverse e.1) as [|y n] eqn:Er; [done|]. inv Hall.
    by apply name_char_not_space.
Qed.

Lemma text_ok_bare_line `{CharModel} : text_ok (bare_line e).
Proof.
  destruct bare_name_chars as [Hall _].
  assert (C_EQUALS ∉ e.1) as Heq.
  { intros Hin. eapply Forall_forall in Hall; [|exact Hin]. done. }
  right. rewrite trim_bare_line. apply line_dom_chars.
  rewrite before_first by done.
  eapply list.Forall_impl; [exact Hall|]. apply name_char_char_ok.
Qed.
End bare.

#[export] Instance bare : Format := {|
  format_line := bare_line;
  format_ok := bare_ok;
  format_plain := bare_line_plain;
  format_fits e He := proj2 (proj2 He);
  format_classify := classify_bare_line;
  format_text_ok cm e He := @text_ok_bare_line e He cm;
|}.

(** ** A file *)

(** The lines of a text that is plain up to a newline. *)
Lemma lines_plain l rest :
  Forall plain l → lines (l ++ C_LF :: rest) = (l ++ [C_LF]) :: lines rest.
Proof.
  induction 1 as [|c l [Hc _] _ IH]; simpl; [done|].
  case_decide; [done|]. by rewrite IH.
Qed.

Section file.
Context `{Format} (es : list (list Z * list Z)) (Hes : Forall format_ok es).

(** The lines of a rendered file are the rendered entries. *)
Lemma lines_render : lines (render es) = format_line <$> es.
Proof.
  unfold render. induction Hes as [|e es' He Hes' IH]; [done|].
  cbn [mbind list_bind fmap list_fmap].
  destruct (format_plain e He) as (l & El & Hl).
  rewrite El at 1. rewrite <-(assoc_L (++)). simpl.
  by rewrite lines_plain, IH, El by done.
Qed.

(** So are the texts [fgets] delivers. *)
Lemma texts_render : texts (render es) = format_line <$> es.
Proof.
  rewrite texts_lines_fit, lines_render.
  - induction Hes as [|e es' He Hes' IH]; [done|]. cbn [fmap list_fmap].
    f_equal; [|by apply IH]. destruct (format_plain e He) as (l & El & Hl).
    apply before_absent. rewrite El.
    intros [Hin|Hin]%elem_of_app; [|by apply elem_of_cons in Hin as [?|[]%elem_of_nil]].
    eapply Forall_forall in Hl; [|exact Hin]. by destruct Hl.
  - rewrite lines_render. apply Forall_fmap.
    eapply list.Forall_impl; [exact Hes|]. intros e He. by apply format_fits.
Qed.

Lemma file_ok_render `{CharModel} : file_ok (render es).
Proof.
  unfold file_ok. rewrite texts_render. apply Forall_fmap.
  eapply list.Forall_impl; [exact Hes|]. intros e He. by apply format_text_ok.
Qed.

Lemma assigned_render name :
  assigned name (texts (render es)) = values_of name es.
Proof.
  rewrite texts_render. unfold assigned, values_of.
  induction Hes as [|e es' He Hes' IH]; [done|].
  cbn [fmap list_fmap omap list_omap].
  rewrite format_classify by done.
  case_decide; [f_equal|]; by apply IH.
Qed.

Lemma reported_render : reported (texts (render es)) = [].
Proof.
  rewrite texts_render. unfold reported.
  induction Hes as [|e es' He Hes' IH]; [done|].
  cbn [fmap list_fmap mbind list_bind].
  rewrite format_classify by done. by apply IH.
Qed.
End file.

(** ** The round trip *)

(** C26 (roundtrip).  One iteration of the loop reads a rendered line back,
    in every format: when [fgets] has left the line of [e] in the line
    buffer, [load_line] assigns the value of [e] to its name under the
    override rule, reports nothing and leaves the locals fit for the next
    iteration. *)
Theorem load_line_render `{CharModel} `{Environ E} `{Format} override
    (st : state E) e :
  state_ok st → cstring_at (st_line st) 0 (format_line e) → format_ok e →
  ∃ st', load_line override st = Some st' ∧ state_ok st' ∧
         st_env st' = apply_entry override (st_env st) e.1 e.2 ∧
         st_err st' = st_err st.
Proof.
  intros Hst Hb He.
  destruct (load_line_correct override st _ Hb (format_fits e He) Hst)
    as (st' & -> & _ & Hst' & Hstep); [by apply format_text_ok|].
  unfold step_spec in Hstep. rewrite format_classify in Hstep by done.
  exists st'. by simplify_eq/=.
Qed.

(** C8 (roundtrip).  [dotenv_load] reads back what [render] writes, in
    every format: after loading, with [override], the file rendered from a
    list of entries the format can write, it has returned 0 and reported
    nothing, and every variable has the last value the entries give it, or
    the value it had when they give it none. *)
Theorem dotenv_load_render `{CharModel} `{Environ E} `{Format} fs path line
    entry (env : E) es :
  length line = LINE_SIZE → entry_wf entry →
  fs !! path = Some (render es) → Forall format_ok es →
  ∃ r, dotenv_load fs path true line entry env = Some r ∧
       r_ret r = 0%Z ∧ r_err r = [] ∧
       ∀ name, getenv (r_env r) name
               = from_option Some (getenv env name) (last (values_of name es)).
Proof.
  intros Hl He Hf Hes.
  destruct (dotenv_load_opened fs path true line entry env (render es))
    as (r & -> & Hret & Hget & Herr); [done..|by apply file_ok_render|].
  exists r. split_and!; [done..| |].
  - by rewrite Herr, reported_render.
  - intros name. by rewrite Hget, assigned_render, resolve_override.
Qed.

Lemma load_line_render_witness :
  ∃ st', @load_line signed_char _ list_environ false
           (State [] (take LINE_SIZE
                        (render_line (str "KEY", str "a b" ++ [C_QUOTE; C_LF] ++ str "#\c")
                         ++ replicate LINE_SIZE 0%Z))
              (entry_filled 7) [] []) = Some st' ∧
         state_ok st' ∧
         st_env st'
         = apply_entry false [] (str "KEY", str "a b" ++ [C_QUOTE; C_LF] ++ str "#\c").1
             (str "KEY", str "a b" ++ [C_QUOTE; C_LF] ++ str "#\c").2 ∧
         st_err st' = [].
Proof.
  apply (@load_line_render signed_char _ list_environ quoted false
           (State [] (take LINE_SIZE
                        (render_line (str "KEY", str "a b" ++ [C_QUOTE; C_LF] ++ str "#\c")
                         ++ replicate LINE_SIZE 0%Z))
              (entry_filled 7) [] [])).
  - split; [vm_compute; reflexivity|apply entry_filled_wf].
  - simpl. cstring_closed.
  - apply (bool_decide_unpack _). vm_compute. exact I.
Defined.

(** The entries of the last but one case of the test program, which writes
    VAR0=value0, VAR1=value1, ... *)
Definition some_entries : list (list Z * list Z) :=
  [(str "VAR0", str "value0"); (str "VAR1", str "value1");
   (str "VAR0", str "again" ++ [C_LF] ++ str "and again")].

Lemma dotenv_load_render_witness :
  ∃ r, @dotenv_load signed_char _ list_environ
         {[ ".env"%string := @render quoted some_entries ]} ".env" true
         (replicate LINE_SIZE 7%Z) (entry_filled 7) [] = Some r ∧
       r_ret r = 0%Z ∧ r_err r = [] ∧
       ∀ name, getenv (r_env r) name
               = from_option Some (getenv [] name) (last (values_of name some_entries)).
Proof. apply (@dotenv_load_render signed_char _ _ quoted); run_side. Defined.
