(* ===== verification/Calls.v ===== *)
(** * Calls: [dotenv_load] as the calls it makes (src/dotenv.c, lines 108-137)

    [Loader.dotenv_load] is a function from the file and the environment to
    the result.  This file models the same lines as a program that talks to
    the C library: an interaction tree whose events are the calls of
    [fopen], [fgets], [fclose], [getenv], [setenv], [fprintf] and [perror],
    in the order the code makes them.  What [Loader] leaves out is here:
    the stream is a resource that [fopen] creates and [fclose] releases,
    [getenv] is not called when [override] is set, and the messages are
    calls among the others.

    - [libE]: the calls, each with the type of what it returns; [Undefined]
      is the behaviour of a program that has left the C standard (a read or
      a write outside a buffer, a call outside its domain).
    - [set_entry_calls] (lines 127-129), [load_line_calls] (lines 119-132),
      [load_loop_calls] (lines 118-133, a loop of [ITree.iter]) and
      [dotenv_load_calls] (lines 108-137): the code.  What touches only the
      buffers ([trim_whitespace], [parse_line]) is the code of [Trim] and
      [Line].
    - [world], [handle]: the process as the library sees it (the files, the
      streams that are open, the environment) with the log of the calls
      made, and the meaning of every call as a change of it.
    - [runs]: a tree, interpreted from a world, ends in an outcome: a world
      and a value, or undefined behaviour.  The rules ([runs_bind],
      [runs_trigger], [runs_iter_again], ...) are proved once from the
      equations of the library; the proofs about the code use the rules.
    - [load_calls]: the contract, the list of calls a load makes, from the
      texts of the file; [protocol]: the order in which a stream may be
      used, as an automaton over the calls.

    Main results: [dotenv_load_calls_agree] (from every world the tree ends
    in the outcome of [Loader.dotenv_load], with the calls of [load_calls]
    logged and the table of open streams as it was before: the two models
    agree, undefined behaviour included), [dotenv_load_calls_order] (the
    calls of a load that returns follow the protocol of a stream: opened
    once, read while open, closed once, nothing after; [getenv] is never
    called under [override]; every [setenv] carries the name and the value
    of a text that is an assignment) and [load_calls_effects] (the
    environment and [stderr] of the contract are what the calls of [setenv]
    and [fprintf] make).

    [Setenv] and [Fclose] answer with [()]: the code ignores what [setenv]
    and [fclose] return. *)

From stdpp Require Import gmap.
From ITree Require Import ITree ITreeFacts Events.State Events.StateFacts.
From S2P Require Import Prelude Libc Header Trim Value Name Line Env Stdio Loader.

(** stdpp's notations for the monad of trees. *)
#[export] Instance itree_ret {E} : MRet (itree E) := λ _ x, Ret x.
#[export] Instance itree_bind {E} : MBind (itree E) := λ _ _ k t, ITree.bind t k.

(** ** The calls *)

(** [Fgets s n file] is [fgets(s, n, file)] on a buffer that holds [s]: it
    returns the buffer after the call, or [None] for the null pointer. *)
Variant libE : Type → Type :=
  | Fopen (path : string) : libE (option nat)
  | Fgets (s : list Z) (n : nat) (file : nat) : libE (option (list Z))
  | Fclose (file : nat) : libE ()
  | Getenv (name : list Z) : libE (option (list Z))
  | Setenv (name value : list Z) : libE ()
  | Fprintf (d : diag) : libE ()
  | Undefined : libE Empty_set.

(** What is left of a program once its calls have been given their
    meaning. *)
Variant undefE : Type → Type := Undef : undefE Empty_set.

(** A call as it is logged, with what [fopen] returned. *)
Inductive call :=
  | CallFopen (path : string) (file : option nat)
  | CallFgets (file : nat)
  | CallFclose (file : nat)
  | CallGetenv (name : list Z)
  | CallSetenv (name value : list Z)
  | CallFprintf (d : diag).

#[export] Instance diag_eq_dec : EqDecision diag.
Proof. solve_decision. Defined.

#[export] Instance call_eq_dec : EqDecision call.
Proof. solve_decision. Defined.

Definition undefined {E : Type → Type} (u : E Empty_set) {A : Type} : itree E A :=
  ITree.bind (ITree.trigger u) (λ v : Empty_set, match v with end).

(** A step of the code on its buffers: [None] is undefined behaviour. *)
Definition defined {A} (o : option A) : itree libE A :=
  match o with Some a => Ret a | None => undefined Undefined end.

(** The messages [parse_line] has written (line 82), as calls. *)
Fixpoint report (ds : list diag) : itree libE () :=
  match ds with
  | [] => Ret ()
  | d :: ds' => ITree.trigger (Fprintf d);; report ds'
  end.

(** ** The code *)

Section calls.
Context `{CharModel}.

(** Lines 127-129: [if (override || getenv(entry.name) == NULL)
    setenv(entry.name, entry.value, 1);] *)
Definition set_entry_calls (override : bool) (entry : dotenv_entry)
  : itree libE () :=
  unset ← (if override then Ret true
           else name ← defined (string_at (entry_name entry) 0);
                r ← ITree.trigger (Getenv name);
                Ret (bool_decide (r = None)));
  if unset : bool then
    name ← defined (string_at (entry_name entry) 0);
    value ← defined (string_at (entry_value entry) 0);
    ITree.trigger (Setenv name value)
  else Ret ().

(** Lines 119-132: the body of the loop, after [fgets] has filled the line
    buffer; it returns the two locals. *)
Definition load_line_calls (override : bool) (line : list Z) (entry : dotenv_entry)
  : itree libE (list Z * dotenv_entry) :=
  '(line, trimmed) ← defined (trim_whitespace line 0);
  c ← defined (line !! trimmed);
  if decide (c = C_NUL ∨ c = C_HASH) then Ret (line, entry)
  else
    out ← defined (parse_line line trimmed entry);
    report (lo_err out);;
    if decide (lo_ret out = 0%Z) then
      set_entry_calls override (lo_entry out);;
      Ret (lo_line out, lo_entry out)
    else
      text ← defined (string_at (lo_line out) trimmed);
      ITree.trigger (Fprintf (SkippingInvalidLine text));;
      Ret (lo_line out, lo_entry out).

(** Lines 118-133: [while (fgets(line, LINE_SIZE, file))]. *)
Definition load_loop_calls (override : bool) (file : nat)
  : list Z * dotenv_entry → itree libE () :=
  ITree.iter (λ locals : list Z * dotenv_entry,
    r ← ITree.trigger (Fgets locals.1 LINE_SIZE file);
    match r with
    | None => Ret (inr ())
    | Some line =>
        locals' ← load_line_calls override line locals.2;
        Ret (inl locals')
    end).

(** Lines 108-137.  The locals [line] and [entry] are arguments, as in
    [Loader.dotenv_load]. *)
Definition dotenv_load_calls (path : string) (override : bool)
  (line : list Z) (entry : dotenv_entry) : itree libE Z :=
  file ← ITree.trigger (Fopen path);
  match file with
  | None => ITree.trigger (Fprintf FailedToOpen);; Ret (-1)%Z
  | Some file =>
      load_loop_calls override file (line, entry);;
      ITree.trigger (Fclose file);;
      Ret 0%Z
  end.
End calls.

(** ** The library *)

Section world.
Context `{Environ E}.

(** The files, the streams that are open (each with what is left to read),
    the environment, and the calls made so far. *)
Record world := World {
  w_fs : gmap string (list Z);
  w_open : gmap nat (list Z);
  w_env : E;
  w_log : list call;
}.

Definition logged (w : world) (c : call) : world :=
  World (w_fs w) (w_open w) (w_env w) (w_log w ++ [c]).

(** The meaning of a call.  [fopen] yields a stream that is not open yet;
    [fgets] and [fclose] on a stream that is not open are undefined. *)
Definition handle : libE ~> Monads.stateT world (itree undefE) :=
  λ _ e w,
    match e with
    | Fopen path =>
        match fopen (w_fs w) path with
        | None => Ret (logged w (CallFopen path None), None)
        | Some content =>
            let file := fresh (dom (w_open w)) in
            Ret (World (w_fs w) (<[file := content]> (w_open w)) (w_env w)
                       (w_log w ++ [CallFopen path (Some file)]), Some file)
        end
    | Fgets s n file =>
        match w_open w !! file ≫= fgets s n with
        | None => undefined Undef
        | Some (r, stream) =>
            Ret (World (w_fs w) (<[file := stream]> (w_open w)) (w_env w)
                       (w_log w ++ [CallFgets file]), r)
        end
    | Fclose file =>
        match w_open w !! file with
        | None => undefined Undef
        | Some _ =>
            Ret (World (w_fs w) (delete file (w_open w)) (w_env w)
                       (w_log w ++ [CallFclose file]), ())
        end
    | Getenv name => Ret (logged w (CallGetenv name), getenv (w_env w) name)
    | Setenv name value =>
        Ret (World (w_fs w) (w_open w) (setenv (w_env w) name value)
                   (w_log w ++ [CallSetenv name value]), ())
    | Fprintf d => Ret (logged w (CallFprintf d), ())
    | Undefined => undefined Undef
    end.

(** How a run ends: in a world with a value, or undefined. *)
Definition outcome {A} (r : option (world * A)) : itree undefE (world * A) :=
  match r with Some wa => Ret wa | None => undefined Undef end.

(** The tree [t], run from the world [w], ends in [r]. *)
Definition runs {A} (t : itree libE A) (w : world) (r : option (world * A))
  : Prop :=
  interp_state handle t w ≈ outcome r.
End world.

Arguments world : clear implicits.
Arguments World {E}.

(** ** The contract: the calls of a load *)

Section contract.
Context `{CharModel} `{Environ E}.

(** The calls lines 127-128 make for an accepted entry. *)
Definition entry_calls (override : bool) (env : E) (name value : list Z)
  : list call :=
  if override then [CallSetenv name value]
  else CallGetenv name ::
       (if bool_decide (getenv env name = None) then [CallSetenv name value]
        else []).

(** The calls of one iteration after [fgets], on the text it read. *)
Definition line_calls (override : bool) (env : E) (t : list Z) : list call :=
  match classify t with
  | Assignment name value => entry_calls override env name value
  | Invalid why text => CallFprintf <$> (reject_err why ++ [SkippingInvalidLine text])
  | _ => []
  end.

(** The calls of the loop on the texts still to read; the last call of
    [fgets] is the one that meets the end of the file. *)
Fixpoint loop_calls (override : bool) (file : nat) (env : E)
  (ts : list (list Z)) : list call :=
  match ts with
  | [] => [CallFgets file]
  | t :: ts' =>
      CallFgets file :: line_calls override env t
        ++ loop_calls override file (step_spec override (env, []) t).1 ts'
  end.

Definition file_calls (path : string) (override : bool) (file : nat) (env : E)
  (content : list Z) : list call :=
  CallFopen path (Some file)
  :: loop_calls override file env (texts content) ++ [CallFclose file].

(** The calls of [dotenv_load(path, override)] in the world [w]. *)
Definition load_calls (path : string) (override : bool) (w : world E)
  : list call :=
  match w_fs w !! path with
  | None => [CallFopen path None; CallFprintf FailedToOpen]
  | Some content =>
      file_calls path override (fresh (dom (w_open w))) (w_env w) content
  end.

(** What the calls of a log do to the environment and to [stderr]. *)
Definition env_of_calls (calls : list call) (env : E) : E :=
  foldl (λ env c, match c with
                  | CallSetenv name value => setenv env name value
                  | _ => env
                  end) env calls.
End contract.

Definition stderr_of_calls (calls : list call) : list diag :=
  omap (λ c, match c with CallFprintf d => Some d | _ => None end) calls.

(** ** The protocol of a stream *)

(** Where a load is: before [fopen], after an [fopen] that failed, reading
    the stream [file], or done. *)
Inductive phase := Start | Failed | Reading (file : nat) | Done.

#[export] Instance phase_eq_dec : EqDecision phase.
Proof. solve_decision. Defined.

(** The calls a phase allows. *)
Definition protocol_step (ph : phase) (c : call) : option phase :=
  match ph, c with
  | Start, CallFopen _ (Some file) => Some (Reading file)
  | Start, CallFopen _ None => Some Failed
  | Failed, CallFprintf FailedToOpen => Some Done
  | Reading file, CallFgets file' =>
      if decide (file' = file) then Some (Reading file) else None
  | Reading file, CallFclose file' =>
      if decide (file' = file) then Some Done else None
  | Reading file, (CallGetenv _ | CallSetenv _ _ | CallFprintf _) =>
      Some (Reading file)
  | _, _ => None
  end.

Fixpoint protocol (ph : phase) (calls : list call) : option phase :=
  match calls with
  | [] => Some ph
  | c :: calls' => ph' ← protocol_step ph c; protocol ph' calls'
  end.

(** A call the body of the loop makes. *)
Definition inner (c : call) : bool :=
  match c with
  | CallGetenv _ | CallSetenv _ _ | CallFprintf _ => true
  | _ => false
  end.

(** ** The rules of a run *)

Section runs.
Context `{Environ E}.
Implicit Types (w : world E).

Lemma undefined_bind {F : Type → Type} (u : F Empty_set) {A B}
    (k : A → itree F B) :
  ITree.bind (undefined u) k ≈ undefined u.
Proof. unfold undefined. rewrite bind_bind. apply eutt_eq_bind. by intros []. Qed.

Lemma runs_ret {A} (a : A) w : runs (Ret a) w (Some (w, a)).
Proof. unfold runs. by rewrite interp_state_ret. Qed.

Lemma runs_bind {A B} (t : itree libE A) (k : A → itree libE B) w w' a r :
  runs t w (Some (w', a)) → runs (k a) w' r → runs (t ≫= k) w r.
Proof.
  unfold runs, mbind, itree_bind. intros Ht Hk.
  rewrite interp_state_bind, Ht. simpl. by rewrite bind_ret_l.
Qed.

Lemma runs_bind_undefined {A B} (t : itree libE A) (k : A → itree libE B) w :
  runs t w None → runs (t ≫= k) w None.
Proof.
  unfold runs, mbind, itree_bind. intros Ht.
  rewrite interp_state_bind, Ht. simpl. apply undefined_bind.
Qed.

Lemma runs_trigger {A} (e : libE A) w r :
  handle _ e w = outcome r → runs (ITree.trigger e) w r.
Proof. unfold runs. intros <-. by rewrite interp_state_trigger. Qed.

Lemma runs_defined_some {A} (o : option A) a w :
  o = Some a → runs (defined o) w (Some (w, a)).
Proof. intros ->. apply runs_ret. Qed.

Lemma runs_defined_none {A} (o : option A) w : o = None → runs (defined o) w None.
Proof.
  intros ->. unfold defined, undefined.
  apply runs_bind_undefined. by apply runs_trigger.
Qed.

(** The loop: an iteration that asks for another, the last one, and one
    that is undefined. *)
Lemma runs_iter_again {I A} (body : I → itree libE (I + A)) i w w' i' r :
  runs (body i) w (Some (w', inl i')) → runs (ITree.iter body i') w' r →
  runs (ITree.iter body i) w r.
Proof.
  unfold runs. intros Hb Hi. rewrite unfold_iter, interp_state_bind, Hb. simpl.
  rewrite bind_ret_l. cbn. by rewrite interp_state_tau, tau_eutt.
Qed.

Lemma runs_iter_done {I A} (body : I → itree libE (I + A)) i w w' a :
  runs (body i) w (Some (w', inr a)) → runs (ITree.iter body i) w (Some (w', a)).
Proof.
  unfold runs. intros Hb. rewrite unfold_iter, interp_state_bind, Hb. simpl.
  rewrite bind_ret_l. cbn. by rewrite interp_state_ret.
Qed.

Lemma runs_iter_undefined {I A} (body : I → itree libE (I + A)) i w :
  runs (body i) w None → runs (ITree.iter body i) w None.
Proof.
  unfold runs. intros Hb. rewrite unfold_iter, interp_state_bind, Hb. simpl.
  apply undefined_bind.
Qed.

Lemma runs_eq {A} (t : itree libE A) w r r' : runs t w r → r = r' → runs t w r'.
Proof. by intros ? <-. Qed.

(** A run has one outcome. *)
Lemma runs_functional {A} (t : itree libE A) w r1 r2 :
  runs t w r1 → runs t w r2 → r1 = r2.
Proof.
  unfold runs. intros H1 H2. rewrite H1 in H2.
  destruct r1 as [x|], r2 as [y|]; simpl in H2.
  - by apply eutt_inv_Ret in H2 as ->.
  - by apply eqit_inv in H2.
  - by apply eqit_inv in H2.
  - done.
Qed.
End runs.

(** A step of the code on its buffers, then a call. *)
Ltac run_defined := eapply runs_bind; [by apply runs_defined_some|]; simpl.
Ltac run_call := eapply runs_bind; [by apply runs_trigger|]; simpl.

(** ** The body of the loop *)

Section steps.
Context `{CharModel} `{Environ E}.
Implicit Types (w : world E) (env : E) (log : list call).

Lemma runs_report ds fs open env log :
  runs (report ds) (World fs open env log)
       (Some (World fs open env (log ++ (CallFprintf <$> ds)), ())).
Proof.
  revert log. induction ds as [|d ds IH]; intros log; simpl.
  { rewrite app_nil_r. apply runs_ret. }
  run_call. eapply runs_eq; [apply IH|]. by rewrite <-(assoc_L (++)).
Qed.

Lemma runs_set_entry override entry name value fs open env log :
  cstring_at (entry_name entry) 0 name → cstring_at (entry_value entry) 0 value →
  runs (set_entry_calls override entry) (World fs open env log)
       (Some (World fs open (apply_entry override env name value)
                    (log ++ entry_calls override env name value), ())).
Proof.
  intros Hn%string_at_cstring Hv%string_at_cstring.
  unfold set_entry_calls, apply_entry, entry_calls. destruct override; simpl.
  - eapply runs_bind; [apply runs_ret|]. simpl.
    do 2 run_defined. by apply runs_trigger.
  - eapply runs_bind.
    { run_defined. run_call. apply runs_ret. }
    simpl. case_bool_decide; simpl; [|apply runs_ret].
    do 2 run_defined. apply runs_trigger. simpl. by rewrite <-(assoc_L (++)).
Qed.

Lemma runs_load_line override line entry s fs open env log :
  cstring_at line 0 s → length s < LINE_SIZE →
  length line = LINE_SIZE → entry_wf entry → text_ok s →
  ∃ line' entry', length line' = LINE_SIZE ∧ entry_wf entry' ∧
    runs (load_line_calls override line entry) (World fs open env log)
      (Some (World fs open (step_spec override (env, []) s).1
                   (log ++ line_calls override env s), (line', entry'))).
Proof.
  intros Hb Hlen Hl He Hok. unfold load_line_calls, step_spec, line_calls.
  destruct (load_line_run line entry s Hb Hlen Hl He Hok)
    as [line1 p c Et Ec Hc Hcl ?|line1 p c out name value Et Ec Hc Ep Hr Herr -> Hn Hv ? ?
       |line1 p c out why text Et Ec Hc Ep Hr Herr -> Hs%string_at_cstring ? ?].
  - exists line1, entry. split_and!; [done..|]. do 2 run_defined.
    rewrite decide_True by done.
    destruct Hcl as [-> | ->]; simpl; rewrite app_nil_r; apply runs_ret.
  - exists (lo_line out), (lo_entry out). split_and!; [done..|]. do 2 run_defined.
    rewrite decide_False by done. run_defined.
    eapply runs_bind; [apply runs_report|]. simpl.
    rewrite decide_True, Herr by done.
    eapply runs_bind; [by apply runs_set_entry|]. simpl.
    eapply runs_eq; [apply runs_ret|]. by rewrite app_nil_r.
  - exists (lo_line out), (lo_entry out). split_and!; [done..|]. do 2 run_defined.
    rewrite decide_False by done. run_defined.
    eapply runs_bind; [apply runs_report|]. simpl.
    rewrite decide_False, Herr by by rewrite Hr.
    run_defined. run_call.
    eapply runs_eq; [apply runs_ret|]. by rewrite fmap_app, (assoc_L (++)).
Qed.

Lemma runs_load_line_outside override line entry s w :
  cstring_at line 0 s → ¬ text_ok s →
  runs (load_line_calls override line entry) w None.
Proof.
  intros Hb Hok. unfold load_line_calls.
  destruct (load_line_stuck line entry s Hb Hok) as (line1 & p & c & Et & Ec & Hc & Ep).
  do 2 run_defined. rewrite decide_False by done.
  by apply runs_bind_undefined, runs_defined_none.
Qed.

(** ** The loop *)

(** One call of [fgets] on a stream that is not at its end, and at its
    end. *)
Lemma runs_fgets line file fs open env log c f :
  length line = LINE_SIZE → open !! file = Some (c :: f) →
  let chunk := read_chunk (LINE_SIZE - 1) (c :: f) in
  ∃ line', length line' = LINE_SIZE ∧ cstring_at line' 0 (before C_NUL chunk) ∧
    runs (ITree.trigger (Fgets line LINE_SIZE file)) (World fs open env log)
      (Some (World fs (<[file := drop (length chunk) (c :: f)]> open) env
                   (log ++ [CallFgets file]), Some line')).
Proof.
  intros Hl Hf. pose proof LINE_SIZE_room.
  destruct (fgets_spec line LINE_SIZE c f) as (line' & Eg & ? & ?); [lia|done|].
  exists line'. split_and!; [done..|]. apply runs_trigger. simpl.
  by rewrite Hf; simpl; rewrite Eg.
Qed.

Lemma runs_fgets_eof line file fs open env log :
  length line = LINE_SIZE → open !! file = Some [] →
  runs (ITree.trigger (Fgets line LINE_SIZE file)) (World fs open env log)
    (Some (World fs (<[file := []]> open) env (log ++ [CallFgets file]), None)).
Proof.
  intros Hl Hf. pose proof LINE_SIZE_room. apply runs_trigger. simpl.
  rewrite Hf. simpl. by rewrite fgets_eof by lia.
Qed.

(** An iteration on a stream that is not at its end, when the text it reads
    is one on which the body is defined. *)
Lemma runs_iteration override file line entry fs open env log c f :
  length line = LINE_SIZE → entry_wf entry → open !! file = Some (c :: f) →
  let chunk := read_chunk (LINE_SIZE - 1) (c :: f) in
  text_ok (before C_NUL chunk) →
  ∃ line' entry', length line' = LINE_SIZE ∧ entry_wf entry' ∧
    ∀ r,
      runs (load_loop_calls override file (line', entry'))
        (World fs (<[file := drop (length chunk) (c :: f)]> open)
               (step_spec override (env, []) (before C_NUL chunk)).1
               (log ++ CallFgets file :: line_calls override env (before C_NUL chunk)))
        r →
      runs (load_loop_calls override file (line, entry)) (World fs open env log) r.
Proof.
  intros Hl He Hf chunk Hok.
  destruct (runs_fgets line file fs open env log c f Hl Hf) as (line1 & Hl1 & Hs & Hg).
  pose proof (texts_length (c :: f)) as Hlen.
  rewrite texts_cons in Hlen by done. apply Forall_cons in Hlen as [Hlen _].
  edestruct (runs_load_line override line1 entry) as (line2 & entry2 & Hl2 & He2 & Hb);
    [done..|].
  exists line2, entry2. split_and!; [done..|]. intros r Hr.
  eapply runs_iter_again; [|by rewrite (cons_middle (CallFgets file)), (assoc_L (++)) in Hr].
  eapply runs_bind; [exact Hg|]. simpl.
  eapply runs_bind; [exact Hb|]. apply runs_ret.
Qed.

(** The loop on a stream on which the load is defined: it reads to the end
    and makes the calls of the contract.  The bound [n] is for the
    induction. *)
Lemma runs_load_loop n override file line entry fs open env log stream :
  length stream < n → length line = LINE_SIZE → entry_wf entry →
  open !! file = Some stream → file_ok stream →
  runs (load_loop_calls override file (line, entry)) (World fs open env log)
    (Some (World fs (<[file := []]> open)
                 (foldl (step_spec override) (env, []) (texts stream)).1
                 (log ++ loop_calls override file env (texts stream)), ())).
Proof.
  revert line entry open env log stream.
  induction n as [|n IH]; intros line entry open env log stream Hn Hl He Hf Hok; [lia|].
  destruct stream as [|c f].
  { apply runs_iter_done. eapply runs_bind; [by apply runs_fgets_eof|]. apply runs_ret. }
  unfold file_ok in Hok. rewrite texts_cons in Hok |- * by done.
  apply Forall_cons in Hok as [Hok1 Hok2].
  destruct (runs_iteration override file line entry fs open env log c f)
    as (line' & entry' & Hl' & He' & Hrun); [done..|].
  pose proof (read_chunk_nonempty (LINE_SIZE - 1) (c :: f) LINE_SIZE_room ltac:(done)).
  apply Hrun. eapply runs_eq; [apply IH; [|done|done|apply lookup_insert_eq|done]|].
  { rewrite length_drop. simpl in *. lia. }
  rewrite insert_insert_eq. cbn [foldl loop_calls].
  set (t := before C_NUL (read_chunk (LINE_SIZE - 1) (c :: f))).
  rewrite <-(foldl_step_env _ _ _ (step_spec override (env, []) t).2).
  by rewrite <-surjective_pairing, <-!(assoc_L (++)).
Qed.

(** On any other stream the loop reaches a text on which [parse_line] is
    undefined. *)
Lemma runs_load_loop_outside n override file line entry fs open env log stream :
  length stream < n → length line = LINE_SIZE → entry_wf entry →
  open !! file = Some stream → ¬ file_ok stream →
  runs (load_loop_calls override file (line, entry)) (World fs open env log) None.
Proof.
  revert line entry open env log stream.
  induction n as [|n IH]; intros line entry open env log stream Hn Hl He Hf Hok; [lia|].
  destruct stream as [|c f]; [exfalso; apply Hok; by constructor|].
  unfold file_ok in Hok. rewrite texts_cons in Hok by done.
  set (t := before C_NUL (read_chunk (LINE_SIZE - 1) (c :: f))) in *.
  destruct (decide (text_ok t)) as [Hok1|Hok1].
  2:{ destruct (runs_fgets line file fs open env log c f Hl Hf) as (line1 & _ & Hs & Hg).
      apply runs_iter_undefined. eapply runs_bind; [exact Hg|]. simpl.
      by eapply runs_bind_undefined, runs_load_line_outside. }
  destruct (runs_iteration override file line entry fs open env log c f)
    as (line' & entry' & Hl' & He' & Hrun); [done..|].
  pose proof (read_chunk_nonempty (LINE_SIZE - 1) (c :: f) LINE_SIZE_room ltac:(done)).
  apply Hrun. eapply IH; [|done|done|apply lookup_insert_eq|].
  - rewrite length_drop. simpl in *. lia.
  - intros Hok2. apply Hok. by constructor.
Qed.
End steps.

(** ** The call *)

Section load.
Context `{CharModel} `{Environ E}.
Implicit Types (w : world E) (env : E) (log : list call).

Lemma fresh_open (open : gmap nat (list Z)) : open !! fresh (dom open) = None.
Proof. apply not_elem_of_dom, is_fresh. Qed.

(** A file on which the load is defined. *)
Lemma runs_dotenv_load path override line entry w content :
  length line = LINE_SIZE → entry_wf entry →
  w_fs w !! path = Some content → file_ok content →
  runs (dotenv_load_calls path override line entry) w
    (Some (World (w_fs w) (w_open w) (load_spec override content (w_env w)).1
                 (w_log w ++ load_calls path override w), 0%Z)).
Proof.
  intros Hl He Hf Hok. destruct w as [fs open env log]. simpl in *.
  unfold dotenv_load_calls, load_calls, file_calls, load_spec. simpl. rewrite Hf.
  eapply runs_bind; [apply runs_trigger; simpl; unfold fopen; by rewrite Hf|]. simpl.
  eapply runs_bind.
  { eapply (runs_load_loop (S (length content)) _ _ _ _ _ _ _ _ content);
      [lia|done..|apply lookup_insert_eq|done]. }
  eapply runs_bind; [apply runs_trigger; simpl; by rewrite lookup_insert_eq|]. simpl.
  eapply runs_eq; [apply runs_ret|].
  rewrite insert_insert_eq, delete_insert_id by apply fresh_open.
  by rewrite <-!(assoc_L (++)).
Qed.

(** Any other file that opens. *)
Lemma runs_dotenv_load_outside path override line entry w content :
  length line = LINE_SIZE → entry_wf entry →
  w_fs w !! path = Some content → ¬ file_ok content →
  runs (dotenv_load_calls path override line entry) w None.
Proof.
  intros Hl He Hf Hok. destruct w as [fs open env log]. simpl in *.
  unfold dotenv_load_calls.
  eapply runs_bind; [apply runs_trigger; simpl; unfold fopen; by rewrite Hf|]. simpl.
  apply runs_bind_undefined.
  eapply (runs_load_loop_outside (S (length content)) _ _ _ _ _ _ _ _ content);
    [lia|done..|apply lookup_insert_eq|done].
Qed.

(** A file that does not open: [perror], and nothing is closed. *)
Lemma runs_dotenv_load_missing path override line entry w :
  w_fs w !! path = None →
  runs (dotenv_load_calls path override line entry) w
    (Some (World (w_fs w) (w_open w) (w_env w) (w_log w ++ load_calls path override w),
           (-1)%Z)).
Proof.
  intros Hf. destruct w as [fs open env log]. simpl in *.
  unfold dotenv_load_calls, load_calls. simpl. rewrite Hf.
  eapply runs_bind; [apply runs_trigger; simpl; unfold fopen; by rewrite Hf|]. simpl.
  run_call. unfold logged. simpl.
  eapply runs_eq; [apply runs_ret|]. by rewrite <-!(assoc_L (++)).
Qed.
End load.

(** ** The calls of the contract *)

Section traces.
Context `{CharModel} `{Environ E}.
Implicit Types (env : E) (calls : list call).

Lemma protocol_app ph calls calls' :
  protocol ph (calls ++ calls') = protocol ph calls ≫= λ ph', protocol ph' calls'.
Proof.
  revert ph. induction calls as [|c calls IH]; intros ph; simpl; [done|].
  destruct (protocol_step ph c); simpl; [apply IH|done].
Qed.

Lemma protocol_inner file calls :
  Forall inner calls → protocol (Reading file) calls = Some (Reading file).
Proof. induction 1 as [|[] calls]; simpl; done. Qed.

Lemma entry_calls_inner override env name value :
  Forall inner (entry_calls override env name value).
Proof.
  unfold entry_calls. destruct override; [|case_bool_decide];
    repeat constructor.
Qed.

Lemma line_calls_inner override env t : Forall inner (line_calls override env t).
Proof.
  unfold line_calls. destruct (classify t); try constructor.
  - apply entry_calls_inner.
  - by apply Forall_fmap, Forall_true.
Qed.

(** The loop uses its stream and no other, and leaves it open. *)
Lemma loop_calls_protocol override file env ts :
  protocol (Reading file) (loop_calls override file env ts) = Some (Reading file).
Proof.
  revert env. induction ts as [|t ts IH]; intros env; simpl;
    case_decide; [done..| |done].
  simpl. rewrite protocol_app, protocol_inner by apply line_calls_inner.
  apply IH.
Qed.

(** A load follows the protocol to its end. *)
Lemma load_calls_protocol path override (w : world E) :
  protocol Start (load_calls path override w) = Some Done.
Proof.
  unfold load_calls, file_calls. destruct (w_fs w !! path); simpl; [|done].
  rewrite protocol_app, loop_calls_protocol. simpl. by rewrite decide_True.
Qed.

(** The calls of the environment among those of the loop. *)
Lemma loop_calls_inner override file env ts c :
  c ∈ loop_calls override file env ts → inner c = true →
  ∃ t env', t ∈ ts ∧ c ∈ line_calls override env' t.
Proof.
  revert env. induction ts as [|t ts IH]; intros env; simpl.
  { intros ->%list_elem_of_singleton. done. }
  rewrite elem_of_cons, elem_of_app. intros [->|[Hc|Hc]] Hi; [done|..].
  - exists t, env. split; [left|done].
  - destruct (IH _ Hc Hi) as (t' & env' & ? & ?). exists t', env'.
    split; [by right|done].
Qed.

Lemma load_calls_inner path override (w : world E) c :
  c ∈ load_calls path override w → inner c = true →
  c = CallFprintf FailedToOpen ∧ w_fs w !! path = None
  ∨ ∃ content t env', w_fs w !! path = Some content ∧ t ∈ texts content ∧
                      c ∈ line_calls override env' t.
Proof.
  unfold load_calls, file_calls. destruct (w_fs w !! path) as [content|].
  - rewrite elem_of_cons, elem_of_app, list_elem_of_singleton.
    intros [->|[Hc| ->]] Hi; [done| |done].
    destruct (loop_calls_inner _ _ _ _ _ Hc Hi) as (t & env' & ? & ?).
    right. by exists content, t, env'.
  - rewrite !elem_of_cons. intros [->|[->|[]%elem_of_nil]] Hi; [done|by left].
Qed.

(** Under [override] the environment is never read. *)
Lemma line_calls_no_getenv env t name : CallGetenv name ∉ line_calls true env t.
Proof.
  unfold line_calls, entry_calls. destruct (classify t); try apply not_elem_of_nil.
  - by intros [=]%list_elem_of_singleton.
  - by intros (d & [=] & _)%list_elem_of_fmap.
Qed.

(** A variable is set for a text that is an assignment, to its value. *)
Lemma line_calls_setenv override env t name value :
  CallSetenv name value ∈ line_calls override env t →
  classify t = Assignment name value.
Proof.
  unfold line_calls, entry_calls.
  destruct (classify t) as [| |name' value'|]; try by intros []%elem_of_nil.
  - destruct override; [|case_bool_decide]; rewrite ?elem_of_cons;
      intros Hc; destruct_or?; simplify_eq; try done;
      by apply elem_of_nil in Hc.
  - by intros (d & [=] & _)%list_elem_of_fmap.
Qed.

(** A variable is read before it is set, when it is not overridden. *)
Lemma line_calls_getenv env t name value :
  CallSetenv name value ∈ line_calls false env t →
  line_calls false env t = [CallGetenv name; CallSetenv name value]
  ∧ getenv env name = None.
Proof.
  intros Hc. pose proof (line_calls_setenv _ _ _ _ _ Hc) as Et.
  unfold line_calls, entry_calls in *. rewrite Et in *.
  case_bool_decide; [done|]. by apply list_elem_of_singleton in Hc.
Qed.

(** ** The effect of the calls *)

Lemma env_of_calls_app calls calls' env :
  env_of_calls (calls ++ calls') env = env_of_calls calls' (env_of_calls calls env).
Proof. apply foldl_app. Qed.

Lemma env_of_calls_cons c calls env :
  env_of_calls (c :: calls) env = env_of_calls calls (env_of_calls [c] env).
Proof. done. Qed.

Lemma env_of_calls_fprintf ds env : env_of_calls (CallFprintf <$> ds) env = env.
Proof. induction ds; simpl; done. Qed.

Lemma env_of_line_calls override env t :
  env_of_calls (line_calls override env t) env = (step_spec override (env, []) t).1.
Proof.
  unfold line_calls, step_spec, entry_calls, apply_entry.
  destruct (classify t); simpl; try done.
  - destruct override; [done|]. simpl. by case_bool_decide.
  - apply env_of_calls_fprintf.
Qed.

Lemma env_of_loop_calls override file env ts :
  env_of_calls (loop_calls override file env ts) env
  = (foldl (step_spec override) (env, []) ts).1.
Proof.
  revert env. induction ts as [|t ts IH]; intros env; [done|].
  cbn [loop_calls foldl]. rewrite env_of_calls_cons, env_of_calls_app.
  change (env_of_calls [CallFgets file] env) with env.
  rewrite env_of_line_calls, IH.
  rewrite <-(foldl_step_env _ _ _ (step_spec override (env, []) t).2).
  by rewrite <-surjective_pairing.
Qed.

Lemma stderr_of_calls_app calls calls' :
  stderr_of_calls (calls ++ calls') = stderr_of_calls calls ++ stderr_of_calls calls'.
Proof. apply omap_app. Qed.

Lemma stderr_of_calls_fprintf ds : stderr_of_calls (CallFprintf <$> ds) = ds.
Proof. induction ds; simpl; [done|]. by f_equal. Qed.

Lemma stderr_of_line_calls override env t :
  stderr_of_calls (line_calls override env t) = reported [t].
Proof.
  unfold line_calls, reported, entry_calls. cbn [mbind list_bind]. rewrite app_nil_r.
  destruct (classify t); try done.
  - destruct override; [done|]. by case_bool_decide.
  - apply stderr_of_calls_fprintf.
Qed.

Lemma stderr_of_loop_calls override file env ts :
  stderr_of_calls (loop_calls override file env ts) = reported ts.
Proof.
  revert env. induction ts as [|t ts IH]; intros env; [done|].
  cbn [loop_calls]. change (stderr_of_calls (CallFgets file :: ?l)) with (stderr_of_calls l).
  rewrite stderr_of_calls_app, IH, stderr_of_line_calls.
  unfold reported. cbn [mbind list_bind]. by rewrite app_nil_r.
Qed.

(** The environment and [stderr] of the contract are what the calls of
    [setenv] and of [fprintf] make, in their order. *)
Lemma load_calls_effects path override (w : world E) :
  let r := dotenv_spec (w_fs w) path override (w_env w) in
  env_of_calls (load_calls path override w) (w_env w) = r_env r
  ∧ stderr_of_calls (load_calls path override w) = r_err r.
Proof.
  unfold load_calls, dotenv_spec, file_calls, load_spec.
  destruct (w_fs w !! path) as [content|]; [|done]. cbn [r_env r_err]. split.
  - rewrite env_of_calls_cons, env_of_calls_app. apply env_of_loop_calls.
  - change (stderr_of_calls (CallFopen ?p ?f :: ?l)) with (stderr_of_calls l).
    rewrite stderr_of_calls_app, app_nil_r, (foldl_step_err _ _ _ []).
    apply stderr_of_loop_calls.
Qed.
End traces.

(** ** The two models agree *)

Section agreement.
Context `{CharModel} `{Environ E}.
Implicit Types (w : world E).

(** What a run that returns leaves: the calls of the contract are logged
    after those logged before, the environment is what its calls of
    [setenv] make, and the files and the open streams are as before. *)
Lemma runs_dotenv_load_inv path override line entry w w' r :
  length line = LINE_SIZE → entry_wf entry →
  runs (dotenv_load_calls path override line entry) w (Some (w', r)) →
  w' = World (w_fs w) (w_open w)
         (env_of_calls (load_calls path override w) (w_env w))
         (w_log w ++ load_calls path override w).
Proof.
  intros Hl He Hr. destruct (load_calls_effects path override w) as [-> _].
  unfold dotenv_spec. destruct (w_fs w !! path) as [content|] eqn:Hf.
  - destruct (decide (file_ok content)) as [Hok|Hok].
    + pose proof (runs_dotenv_load path override line entry w content
                    Hl He Hf Hok) as Hr'.
      by simplify_eq (runs_functional _ _ _ _ Hr Hr').
    + pose proof (runs_dotenv_load_outside path override line entry w content
                    Hl He Hf Hok) as Hr'.
      by pose proof (runs_functional _ _ _ _ Hr Hr').
  - pose proof (runs_dotenv_load_missing path override line entry w Hf) as Hr'.
    by simplify_eq (runs_functional _ _ _ _ Hr Hr').
Qed.

(** C17 (equivalence).  From every world, [dotenv_load] as the calls it
    makes (lines 108-137, [fclose] included) ends as [Loader.dotenv_load]
    says: undefined when the function is, and otherwise with its return
    value and its environment, the calls of [load_calls] logged in their
    order, and the table of open streams as it was before the call: the
    stream the call opened has been closed. *)
Theorem dotenv_load_calls_agree path override line entry w :
  length line = LINE_SIZE → entry_wf entry →
  runs (dotenv_load_calls path override line entry) w
    ((λ r, (World (w_fs w) (w_open w) (r_env r)
                  (w_log w ++ load_calls path override w), r_ret r))
     <$> dotenv_load (w_fs w) path override line entry (w_env w)).
Proof.
  intros Hl He. destruct (w_fs w !! path) as [content|] eqn:Hf.
  - destruct (decide (file_ok content)) as [Hok|Hok].
    + rewrite (dotenv_load_file _ _ _ _ _ _ content) by done.
      by apply runs_dotenv_load.
    + rewrite (dotenv_load_outside _ _ _ _ _ _ content) by done.
      by eapply runs_dotenv_load_outside.
  - unfold dotenv_load, fopen. rewrite Hf. by apply runs_dotenv_load_missing.
Qed.

(** C18 (safety).  The calls of a load that returns, in the order the code
    makes them (lines 108-137): they follow the protocol of a stream
    ([fopen] first; when it fails one message and nothing else; otherwise
    [fgets] and [fclose] on the stream [fopen] returned and on no other,
    [fclose] once and last), the streams open after the call are those open
    before it, [getenv] is never called under [override], every call of
    [setenv] carries the name and the value of a text of the file that is
    an assignment, with a name [setenv] accepts, and the environment after
    the call is the one these calls of [setenv] make. *)
Theorem dotenv_load_calls_order path override line entry w w' r :
  length line = LINE_SIZE → entry_wf entry →
  runs (dotenv_load_calls path override line entry) w (Some (w', r)) →
  ∃ calls,
    w_log w' = w_log w ++ calls ∧
    protocol Start calls = Some Done ∧
    w_open w' = w_open w ∧
    w_env w' = env_of_calls calls (w_env w) ∧
    (override = true → ∀ name, CallGetenv name ∉ calls) ∧
    (∀ name value, CallSetenv name value ∈ calls →
       env_name_ok name = true ∧
       ∃ content t, w_fs w !! path = Some content ∧ t ∈ texts content ∧
                    classify t = Assignment name value).
Proof.
  intros Hl He ->%runs_dotenv_load_inv; [|done..].
  exists (load_calls path override w). simpl.
  split_and!; [done|apply load_calls_protocol|done..| |].
  - intros -> name [[[=] _]|(_ & t & env' & _ & _ & Hc)]%load_calls_inner; [|done].
    by apply line_calls_no_getenv in Hc.
  - intros name value [[[=] _]|(content & t & env' & Hf & Ht & Hc)]%load_calls_inner;
      [|done]. apply line_calls_setenv in Hc.
    split; [by eapply classify_env_ok|by exists content, t].
Qed.
End agreement.

(** ** Running the model *)

(** A process whose only file is [.env], with no stream open and nothing
    logged. *)
Definition world_of (file : list Z) (env : list (list Z * list Z))
  : world (list (list Z * list Z)) :=
  World {[ ".env"%string := file ]} ∅ env [].

(** A file with an assignment to a variable that is set already, one to a
    variable that is not, and a line that is rejected; the process that
    loads it, and the process after the load. *)
Definition example_file : list Z :=
  text_file ["A=1"; "B = two # note"; "9x=3"].

Definition example_world : world (list (list Z * list Z)) :=
  world_of example_file (environ_of [("A", "0")]).

Definition example_loaded : world (list (list Z * list Z)) :=
  World (w_fs example_world) (w_open example_world)
    (load_spec false example_file (w_env example_world)).1
    (w_log example_world ++ load_calls ".env" false example_world).

Lemma dotenv_load_calls_agree_witness :
  runs (dotenv_load_calls (H := signed_char) ".env" false
          (replicate LINE_SIZE 7%Z) (entry_filled 7)) example_world
    ((λ r, (World (w_fs example_world) (w_open example_world) (r_env r)
                  (w_log example_world ++ load_calls ".env" false example_world),
            r_ret r))
     <$> dotenv_load (H := signed_char) (w_fs example_world) ".env" false
           (replicate LINE_SIZE 7%Z) (entry_filled 7) (w_env example_world)).
Proof.
  exact (@dotenv_load_calls_agree signed_char _ _ ".env" false
           (replicate LINE_SIZE 7%Z) (entry_filled 7) example_world
           (length_replicate _ _) (entry_filled_wf _)).
Defined.

Lemma dotenv_load_calls_order_witness :
  ∃ calls,
    w_log example_loaded = w_log example_world ++ calls ∧
    protocol Start calls = Some Done ∧
    w_open example_loaded = w_open example_world ∧
    w_env example_loaded = env_of_calls calls (w_env example_world) ∧
    (false = true → ∀ name, CallGetenv name ∉ calls) ∧
    (∀ name value, CallSetenv name value ∈ calls →
       env_name_ok name = true ∧
       ∃ content t, w_fs example_world !! ".env"%string = Some content ∧
                    t ∈ texts content ∧ classify t = Assignment name value).
Proof.
  apply (@dotenv_load_calls_order signed_char _ _ ".env" false
           (replicate LINE_SIZE 7%Z) (entry_filled 7) example_world
           example_loaded 0%Z);
    [apply length_replicate|apply entry_filled_wf|].
  apply (@runs_dotenv_load signed_char _ _ ".env" false _ _ example_world
           example_file);
    [apply length_replicate|apply entry_filled_wf|apply lookup_singleton_eq|].
  apply (bool_decide_unpack _). vm_compute. exact I.
Defined.

(** The calls of that load, evaluated: the variable [A] is set already and
    only read, [B] is read and set, and the third line is reported as it
    is left in the buffer, cut at its equals sign. *)
Lemma load_calls_example :
  load_calls ".env" false example_world
  = [CallFopen ".env" (Some 0); CallFgets 0; CallGetenv (str "A");
     CallFgets 0; CallGetenv (str "B"); CallSetenv (str "B") (str "two");
     CallFgets 0;
     CallFprintf (SkippingInvalidLine (str "9x"));
     CallFgets 0; CallFclose 0].
Proof. vm_compute. reflexivity. Qed.
