(* ===== verification/Printf.v ===== *)
(** * Printf: the conversion [%d] of [fprintf] and [snprintf]

    The test program (src/test_dotenv.c, lines 199, 209 and 210) writes the
    lines of its generated files and the names it looks up with
    ["VAR%d"] and ["value%d"], for a counter that is never negative.  The
    conversion is modelled from the C standard with stdpp's [pretty] on [N]:
    the decimal digits of the number, most significant first, no sign, no
    leading zero.

    - [decimal]: the bytes [%d] writes for a number.
    - [snprintf]: the string a call with a buffer of [size] bytes leaves,
      which holds [size - 1] characters at most.

    Main results: the bytes are digits ([decimal_digits]), there is one at
    least and [k] at most for a number below [10 ^ k] ([decimal_length]),
    and two numbers are printed alike only when they are equal
    ([decimal_inj]). *)

From stdpp Require Import pretty.
From S2P Require Import Prelude.

(** The bytes of a string literal, and of a character. *)
Definition byte_of (a : Ascii.ascii) : Z := Z.of_N (Ascii.N_of_ascii a).

Definition decimal (i : N) : list Z := str (pretty i).

(** [snprintf(buf, size, ...)] keeps the first [size - 1] characters of what
    the format expands to. *)
Definition snprintf (size : nat) (s : list Z) : list Z := take (size - 1) s.

Definition is_digit (c : Z) : Prop := (48 ≤ c ≤ 57)%Z.

#[export] Instance is_digit_dec c : Decision (is_digit c).
Proof. unfold is_digit. apply _. Defined.

(** ** Strings as bytes *)

Lemma str_cons a s : str (String.String a s) = byte_of a :: str s.
Proof. done. Qed.

Lemma byte_of_inj a b : byte_of a = byte_of b → a = b.
Proof.
  unfold byte_of. intros Hab%(inj Z.of_N).
  by rewrite <-(Ascii.ascii_N_embedding a), <-(Ascii.ascii_N_embedding b), Hab.
Qed.

#[export] Instance str_inj : Inj (=) (=) str.
Proof.
  intros s. induction s as [|a s IH]; intros [|b t]; try done.
  rewrite !str_cons. intros [= Hab Hst]. f_equal; [by apply byte_of_inj|by apply IH].
Qed.

Lemma str_length s : length (str s) = String.length s.
Proof. induction s as [|a s IH]; [done|]. rewrite str_cons. simpl. by rewrite IH. Qed.

(** ** The digits *)

Lemma pretty_N_char_digit x : is_digit (byte_of (pretty_N_char x)).
Proof.
  unfold pretty_N_char. repeat case_match; unfold is_digit; vm_compute; by split.
Qed.

(** What the conversion puts before the digits that are already there. *)
Lemma pretty_N_go_digits x s :
  Forall is_digit (str s) → Forall is_digit (str (pretty_N_go x s)).
Proof.
  revert s. induction (N.lt_wf_0 x) as [x _ IH]; intros s Hs.
  destruct (decide (x = 0%N)) as [->|Hx]; [by rewrite pretty_N_go_0|].
  rewrite pretty_N_go_step by lia. apply IH; [apply N.div_lt; lia|].
  rewrite str_cons. constructor; [apply pretty_N_char_digit|done].
Qed.

Lemma pretty_N_go_length x s k :
  (x < 10 ^ N.of_nat k)%N →
  String.length (pretty_N_go x s) ≤ k + String.length s.
Proof.
  revert x s. induction k as [|k IH]; intros x s Hx.
  { replace x with 0%N by (simpl in Hx; lia). by rewrite pretty_N_go_0. }
  destruct (decide (x = 0%N)) as [->|Hx0]; [rewrite pretty_N_go_0; clear; lia|].
  rewrite pretty_N_go_step by lia. etrans; [apply IH|simpl; lia].
  rewrite Nat2N.inj_succ, N.pow_succ_r' in Hx.
  apply N.Div0.div_lt_upper_bound. lia.
Qed.

Lemma pretty_N_go_nonempty x s : (0 < x)%N → pretty_N_go x s ≠ EmptyString.
Proof.
  revert s. induction (N.lt_wf_0 x) as [x _ IH]; intros s Hx.
  rewrite pretty_N_go_step by done.
  destruct (decide (x `div` 10 = 0)%N) as [->|Hd]; [by rewrite pretty_N_go_0|].
  apply IH; [apply N.div_lt; [done|lia]|by apply N.neq_0_lt_0].
Qed.

(** ** The conversion *)

Lemma decimal_digits i : Forall is_digit (decimal i).
Proof.
  unfold decimal, pretty, pretty_N. case_decide.
  - by repeat constructor.
  - by apply pretty_N_go_digits.
Qed.

Lemma decimal_nonempty i : decimal i ≠ [].
Proof.
  unfold decimal, pretty, pretty_N. case_decide; [done|].
  intros E. apply (pretty_N_go_nonempty i EmptyString); [lia|].
  by apply (inj str).
Qed.

Lemma decimal_length i k :
  (i < 10 ^ N.of_nat k)%N → 0 < length (decimal i) ≤ Nat.max 1 k.
Proof.
  intros Hi. split.
  { pose proof (decimal_nonempty i). destruct (decimal i); [done|simpl; lia]. }
  unfold decimal, pretty, pretty_N. rewrite str_length. case_decide; simpl; [lia|].
  pose proof (pretty_N_go_length i EmptyString k Hi). simpl in *. lia.
Qed.

Lemma decimal_inj i j : decimal i = decimal j → i = j.
Proof. unfold decimal. by intros ?%(inj str)%(inj pretty). Qed.

(** A digit is a character of a name and of an unquoted value. *)
Lemma is_digit_ascii c : is_digit c → (0 < c < 128)%Z.
Proof. unfold is_digit. lia. Qed.

(** A buffer with room for the text keeps all of it. *)
Lemma snprintf_fits size s : length s < size → snprintf size s = s.
Proof. intros Hs. unfold snprintf. apply take_ge. lia. Qed.
