(* ===== verification/Harness.v ===== *)
(** * Harness: what the test program is written with (src/test_dotenv.c)

    The cases of src/test_dotenv.c are C functions that write a file, call
    [dotenv_load], look variables up with [getenv] and compare them with
    [strcmp] inside [assert].  They share the files and the environment of
    the process, so what a case leaves is what the next one finds.  The
    cases are modelled as computations in a monad that threads that state
    and stops at the first failure.

    - [test_state]: the files, the environment, what [dotenv_load] wrote to
      [stderr] and what the program wrote to [stdout].
    - [failure]: how a run stops early: an [assert] that does not hold
      (the program aborts), or undefined behaviour ([strcmp] on a null
      pointer, an undefined call of [dotenv_load]).
    - [test]: the monad, with stdpp's [mret] and [mbind].
    - [fopen_w], [fputs], [remove], [t_getenv], [t_setenv], [strcmp],
      [t_strcmp], [t_printf], [t_assert], [t_dotenv_load]: the calls of the
      program.  Opening a file for writing always succeeds in the model.
    - [test_env_loading] (lines 9-19), [run_test] (lines 22-31).  The clock
      of [run_test] is not modelled: the line that reports a passed case
      carries no time.
    - [for_loop]: a counting loop [for (int i = 0; i < count; i++)];
      [for_each]: a loop over the rows of an array.

    The locals [line] and [entry] of [dotenv_load] are parameters: what is
    proved holds whatever they contain at each call.

    Main results: [test_env_loading_spec] (what a call leaves, on a file on
    which the load is defined), the rules for the assertions, and
    [for_loop_invariant]. *)

From stdpp Require Import gmap.
From S2P Require Import Prelude Libc Header Trim Value Name Line Env Stdio Loader.

(** How a run stops before its end. *)
Inductive failure := AssertionFailed (line : nat) | Undefined.

#[export] Instance failure_eq_dec : EqDecision failure.
Proof. solve_decision. Defined.

(** What the program prints: the lines of [run_test] and of [main]. *)
Inductive out_line :=
  | OutText (s : string)
  | OutRunning (name : string)
  | OutPassed (name : string).

(** [strcmp] on strings; the C standard fixes the sign of the result
    only. *)
Fixpoint strcmp (a b : list Z) : Z :=
  match a, b with
  | [], [] => 0
  | [], _ :: _ => -1
  | _ :: _, [] => 1
  | x :: a', y :: b' =>
      if decide (x = y) then strcmp a' b'
      else if decide (to_uchar x < to_uchar y)%Z then -1 else 1
  end.

Section harness.
Context `{CharModel} `{Environ E}.
Context (line0 : list Z) (entry0 : dotenv_entry).

Record test_state := TestState {
  ts_fs : gmap string (list Z);
  ts_env : E;
  ts_err : list diag;
  ts_out : list out_line;
}.

Definition test (A : Type) : Type := test_state → failure + (A * test_state).

#[export] Instance test_ret : MRet test := λ A x st, inr (x, st).

#[export] Instance test_bind : MBind test := λ A B f m st,
  match m st with
  | inl e => inl e
  | inr (a, st') => f a st'
  end.

Definition t_fail {A} (e : failure) : test A := λ _, inl e.
Definition t_gets {A} (f : test_state → A) : test A := λ st, inr (f st, st).
Definition t_modify (f : test_state → test_state) : test () :=
  λ st, inr ((), f st).

(** [assert(b)] on line [line]. *)
Definition t_assert (line : nat) (b : bool) : test () :=
  if b then mret () else t_fail (AssertionFailed line).

(** [fopen(path, "w")]: the file exists and is empty. *)
Definition fopen_w (path : string) : test () :=
  t_modify (λ st, TestState (<[path := []]> (ts_fs st)) (ts_env st)
                            (ts_err st) (ts_out st)).

(** [fprintf(file, ...)] on a file open for writing: the text is appended. *)
Definition fputs (path : string) (s : list Z) : test () :=
  t_modify (λ st, TestState (<[path := default [] (ts_fs st !! path) ++ s]> (ts_fs st))
                            (ts_env st) (ts_err st) (ts_out st)).

Definition remove (path : string) : test () :=
  t_modify (λ st, TestState (delete path (ts_fs st)) (ts_env st)
                            (ts_err st) (ts_out st)).

Definition t_getenv (name : list Z) : test (option (list Z)) :=
  t_gets (λ st, getenv (ts_env st) name).

Definition t_setenv (name value : list Z) : test () :=
  t_modify (λ st, TestState (ts_fs st) (setenv (ts_env st) name value)
                            (ts_err st) (ts_out st)).

(** [strcmp(p, s)] for a pointer [p] that [getenv] returned: undefined on
    the null pointer. *)
Definition t_strcmp (p : option (list Z)) (s : list Z) : test Z :=
  match p with
  | None => t_fail Undefined
  | Some a => mret (strcmp a s)
  end.

Definition t_printf (o : out_line) : test () :=
  t_modify (λ st, TestState (ts_fs st) (ts_env st) (ts_err st) (ts_out st ++ [o])).

(** The call [dotenv_load(path, override)]: the return value; the
    environment and [stderr] are changed in the state. *)
Definition t_dotenv_load (path : string) (override : bool) : test Z :=
  λ st,
    match dotenv_load (ts_fs st) path override line0 entry0 (ts_env st) with
    | None => inl Undefined
    | Some r =>
        inr (r_ret r, TestState (ts_fs st) (r_env r) (ts_err st ++ r_err r) (ts_out st))
    end.

(** Lines 9-19. *)
Definition test_env_loading (env_content : list Z) (override : bool) : test () :=
  fopen_w "test.env";;
  fputs "test.env" env_content;;
  result ← t_dotenv_load "test.env" override;
  t_assert 17 (bool_decide (result = 0%Z));;
  remove "test.env".

(** Lines 22-31. *)
Definition run_test (test_func : test ()) (test_name : string) : test () :=
  t_printf (OutRunning test_name);;
  test_func;;
  t_printf (OutPassed test_name).

(** [for (int i = first; ...; i++) body], run [count] times; the counter
    of the loops of the program is never negative. *)
Fixpoint for_loop (count : nat) (i : N) (body : N → test ()) : test () :=
  match count with
  | 0 => mret ()
  | S count' => body i;; for_loop count' (i + 1)%N body
  end.

(** A loop over the rows of an array. *)
Fixpoint for_each {A} (rows : list A) (body : A → test ()) : test () :=
  match rows with
  | [] => mret ()
  | row :: rows' => body row;; for_each rows' body
  end.

(** The assertions of the cases. *)
Definition assert_streq (line : nat) (name expected : list Z) : test () :=
  actual ← t_getenv name;
  r ← t_strcmp actual expected;
  t_assert line (bool_decide (r = 0%Z)).

Definition assert_null (line : nat) (name : list Z) : test () :=
  actual ← t_getenv name;
  t_assert line (bool_decide (actual = None)).

Definition assert_not_null (line : nat) (name : list Z) : test () :=
  actual ← t_getenv name;
  t_assert line (bool_decide (actual ≠ None)).

(** ** The state a load leaves *)

(** The state after [test_env_loading] has run on a file, in terms of the
    contract of the load. *)
Definition after_load (override : bool) (content : list Z) (st : test_state)
  : test_state :=
  TestState (delete "test.env" (ts_fs st))
            (load_spec override content (ts_env st)).1
            (ts_err st ++ reported (texts content))
            (ts_out st).
End harness.

Arguments test_state : clear implicits.
Arguments test : clear implicits.
Arguments TestState {E}.

(** ** The rules of the monad *)

Lemma strcmp_eq a b : strcmp a b = 0%Z ↔ a = b.
Proof.
  revert b. induction a as [|x a IH]; intros [|y b]; simpl; try done.
  case_decide as Hxy.
  - subst. rewrite IH. split; [by intros ->|by intros [= ->]].
  - case_decide; (split; [done|by intros [= ? ?]]).
Qed.

Section monad.
Context `{Environ E}.
Implicit Types (st : test_state E).

(** A computation that returns lets the next one run on what it left. *)
Lemma test_bind_inr {A B} (m : test E A) (f : A → test E B) st a st' :
  m st = inr (a, st') → (m ≫= f) st = f a st'.
Proof. unfold mbind, test_bind. by intros ->. Qed.

(** The same, as a rule: the first computation, then the rest on what it
    left. *)
Lemma test_bind_step {A B} (m : test E A) (f : A → test E B) st a st' r :
  m st = inr (a, st') → f a st' = r → (m ≫= f) st = r.
Proof. intros Hm <-. by apply test_bind_inr. Qed.

(** A run that ends returns its value in the state it has reached. *)
Lemma test_ret_eq {A} (a : A) fs fs' (env env' : E) err err' out out' :
  fs = fs' → env = env' → err = err' → out = out' →
  (mret a : test E A) (TestState fs env err out)
  = inr (a, TestState fs' env' err' out').
Proof. by intros -> -> -> ->. Qed.

(** A computation that fails ends the run. *)
Lemma test_bind_inl {A B} (m : test E A) (f : A → test E B) st e :
  m st = inl e → (m ≫= f) st = inl e.
Proof. unfold mbind, test_bind. by intros ->. Qed.

Lemma assert_streq_spec line name expected st :
  getenv (ts_env st) name = Some expected →
  assert_streq line name expected st = inr ((), st).
Proof.
  intros Hg. unfold assert_streq, t_getenv, t_gets, mbind, test_bind. rewrite Hg.
  simpl. by rewrite bool_decide_eq_true_2 by by apply strcmp_eq.
Qed.

Lemma assert_null_spec line name st :
  getenv (ts_env st) name = None → assert_null line name st = inr ((), st).
Proof.
  intros Hg. unfold assert_null, t_getenv, t_gets, mbind, test_bind. by rewrite Hg.
Qed.

Lemma assert_null_fails line name st value :
  getenv (ts_env st) name = Some value →
  assert_null line name st = inl (AssertionFailed line).
Proof.
  intros Hg. unfold assert_null, t_getenv, t_gets, mbind, test_bind. by rewrite Hg.
Qed.

Lemma assert_not_null_spec line name st value :
  getenv (ts_env st) name = Some value →
  assert_not_null line name st = inr ((), st).
Proof.
  intros Hg. unfold assert_not_null, t_getenv, t_gets, mbind, test_bind.
  by rewrite Hg.
Qed.

(** [run_test] on a case that passes. *)
Lemma run_test_spec (t : test E ()) name st st' :
  t (TestState (ts_fs st) (ts_env st) (ts_err st) (ts_out st ++ [OutRunning name]))
  = inr ((), st') →
  run_test t name st
  = inr ((), TestState (ts_fs st') (ts_env st') (ts_err st')
                 (ts_out st' ++ [OutPassed name])).
Proof.
  intros Ht. unfold run_test, t_printf, t_modify.
  unfold mbind at 1, test_bind at 1. by erewrite test_bind_inr by exact Ht.
Qed.

Lemma run_test_fails (t : test E ()) name st e :
  t (TestState (ts_fs st) (ts_env st) (ts_err st) (ts_out st ++ [OutRunning name]))
  = inl e →
  run_test t name st = inl e.
Proof.
  intros Ht. unfold run_test, t_printf, t_modify.
  unfold mbind at 1, test_bind at 1. by erewrite test_bind_inl by exact Ht.
Qed.

(** A loop whose body leaves the state as it is, for every value of the
    counter it runs on, leaves the state as it is. *)
Lemma for_loop_invariant count i (body : N → test E ()) st :
  (∀ j, (i ≤ j < i + N.of_nat count)%N → body j st = inr ((), st)) →
  for_loop count i body st = inr ((), st).
Proof.
  revert i. induction count as [|count IH]; intros i Hbody; [done|].
  cbn [for_loop]. erewrite test_bind_inr by (apply Hbody; lia).
  apply IH. intros j Hj. apply Hbody. lia.
Qed.
End monad.

(** ** The rules of a load *)

Section rules.
Context `{CharModel} `{Environ E}.
Context (line0 : list Z) (entry0 : dotenv_entry).
Context (Hline : length line0 = LINE_SIZE) (Hentry : entry_wf entry0).
Implicit Types (st : test_state E).

(** A load of a file that opens, on which the load is defined. *)
Lemma t_dotenv_load_spec path override st file :
  ts_fs st !! path = Some file → file_ok file →
  t_dotenv_load line0 entry0 path override st
  = inr (0%Z, TestState (ts_fs st) (load_spec override file (ts_env st)).1
                (ts_err st ++ (load_spec override file (ts_env st)).2) (ts_out st)).
Proof.
  intros Hf Hok. unfold t_dotenv_load.
  by rewrite (dotenv_load_file _ _ _ _ _ _ file).
Qed.

(** Lines 9-19 on a file on which the load is defined: the environment and
    [stderr] are those of the contract, and [test.env] is gone. *)
Lemma test_env_loading_spec content override st :
  file_ok content →
  test_env_loading line0 entry0 content override st
  = inr ((), after_load override content st).
Proof.
  intros Hok. unfold test_env_loading, fopen_w, fputs, remove, t_modify.
  unfold mbind at 1 2, test_bind at 1 2. simpl.
  erewrite test_bind_inr; [|apply (t_dotenv_load_spec _ _ _ content); [|done]].
  2:{ simpl. by rewrite !lookup_insert_eq. }
  unfold after_load, mbind, test_bind. simpl. do 2 f_equal.
  unfold load_spec at 2. rewrite foldl_step_err, app_nil_l.
  by rewrite !delete_insert_eq.
Qed.

(** On any other file the call is undefined. *)
Lemma test_env_loading_undefined content override st :
  ¬ file_ok content →
  test_env_loading line0 entry0 content override st = inl Undefined.
Proof.
  intros Hok. unfold test_env_loading, fopen_w, fputs, remove, t_modify.
  unfold mbind at 1 2, test_bind at 1 2. simpl.
  apply test_bind_inl. unfold t_dotenv_load. simpl.
  rewrite (dotenv_load_outside _ _ _ _ _ _ content); [done..| |done].
  by rewrite !lookup_insert_eq.
Qed.

(** C23 (safety). What lines 9-19 of the test program do is decided by the
    content they write: on a content on which the load is defined the call
    returns, with the environment and the diagnostics of the contract and
    [test.env] removed; on every other content its behaviour is undefined.
    No content makes the [assert] on line 17 fail. *)
Theorem test_env_loading_defined content override st :
  test_env_loading line0 entry0 content override st
  = if decide (file_ok content) then inr ((), after_load override content st)
    else inl Undefined.
Proof.
  case_decide; [by apply test_env_loading_spec|by apply test_env_loading_undefined].
Qed.

(** The environment after a load, variable by variable. *)
Lemma getenv_loaded override content (env : E) name :
  getenv (load_spec override content env).1 name
  = resolve override (getenv env name) (assigned name (texts content)).
Proof. apply foldl_step_getenv. Qed.

(** A variable the file does not assign keeps what it had. *)
Lemma getenv_loaded_unassigned override content (env : E) name :
  assigned name (texts content) = [] →
  getenv (load_spec override content env).1 name = getenv env name.
Proof. intros Ha. by rewrite getenv_loaded, Ha. Qed.

(** With [override], a variable the file assigns has the last value. *)
Lemma getenv_loaded_last content (env : E) name value :
  last (assigned name (texts content)) = Some value →
  getenv (load_spec true content env).1 name = Some value.
Proof. intros Ha. by rewrite getenv_loaded, resolve_override, Ha. Qed.

(** Without it, a variable that is set keeps its value. *)
Lemma getenv_loaded_kept content (env : E) name value :
  getenv env name = Some value →
  getenv (load_spec false content env).1 name = Some value.
Proof. intros Hg. by rewrite getenv_loaded, Hg, resolve_keep. Qed.

End rules.

Lemma test_env_loading_defined_witness :
  @test_env_loading signed_char _ list_environ (replicate LINE_SIZE 7%Z)
    (entry_filled 7) (text_file ["DEBUG=true"; "no separator"]) false
    (TestState ∅ (environ_of [("DEBUG", "0")]) [] [])
  = inr ((), TestState (delete "test.env" ∅) (environ_of [("DEBUG", "0")])
               [SkippingInvalidLine (str "no separator")] []).
Proof.
  rewrite (@test_env_loading_defined signed_char _ list_environ _ _
             (length_replicate _ _) (entry_filled_wf _)).
  vm_compute. reflexivity.
Defined.
