(* ===== verification/Generated.v ===== *)
(** * Generated: the two cases of the test program that write their file
    in a loop (src/test_dotenv.c, lines 194-215 and 225-246)

    [test_large_file] and [test_extremely_large_file] write the lines
    [VAR0=value0], [VAR1=value1], ... with [fprintf], load the file with
    [override], and compare every variable with the value its line gave it.
    They differ in the name of the file, the number of lines (a thousand, a
    hundred thousand) and the lines of their assertions, so one definition
    models both.

    - [var_name], [var_value]: what ["VAR%d"] and ["value%d"] expand to.
    - [generated_case]: the case, for a path and a number of lines.
    - [counters], [generated]: the counter values of a loop, and the file
      the first loop writes, as the [bare] rendering of its entries.

    Main results: [generated_case_spec], the state the case leaves, and
    [generated_case_passes]: the case passes whatever the number of lines,
    as long as the counter stays an [int], from every state of the files and
    of the environment.  Nothing is evaluated: the proof is the round trip
    of [Render] on the unquoted format, and the fact that two counters print
    alike only when they are equal. *)

From stdpp Require Import gmap.
From S2P Require Import Prelude Libc Header Trim Value Name Line Env Stdio Loader.
From S2P Require Import Render Printf Harness.

Definition var_name (i : N) : list Z := str "VAR" ++ decimal i.
Definition var_value (i : N) : list Z := str "value" ++ decimal i.

Section generated.
Context `{CharModel} `{Environ E}.
Context (line0 : list Z) (entry0 : dotenv_entry).

(** Lines 194-215, and 225-246: [path] and [count] are the name of the file
    and the bound of the two loops, the other arguments the lines of the
    three assertions.  The first assertion ([file != NULL]) holds in the
    model, where a file always opens for writing. *)
Definition generated_case (path : string) (count : nat)
  (l_result l_value : nat) : test E () :=
  fopen_w path;;
  for_loop count 0 (λ i,
    fputs path (str "VAR" ++ decimal i ++ str "=value" ++ decimal i ++ [C_LF]));;
  result ← t_dotenv_load line0 entry0 path true;
  t_assert l_result (bool_decide (result = 0%Z));;
  for_loop count 0 (λ i,
    assert_streq l_value (snprintf 20 (var_name i)) (snprintf 20 (var_value i)));;
  remove path.
End generated.

(** ** The file *)

Definition var_entry (i : N) : list Z * list Z := (var_name i, var_value i).

(** The values the counter of a loop takes, from [first] on. *)
Fixpoint counters (count : nat) (first : N) : list N :=
  match count with
  | 0 => []
  | S count' => first :: counters count' (first + 1)%N
  end.

Definition generated (count : nat) : list Z :=
  @render bare (var_entry <$> counters count 0).

(** ** The lines *)

Lemma is_digit_name_char c : is_digit c → name_char c = true.
Proof.
  unfold is_digit, name_char, alnum_C, alpha_C, digit_C. intros Hc.
  rewrite to_uchar_small by lia. apply orb_true_iff. left.
  apply orb_true_iff. right. lia.
Qed.

Lemma is_digit_bare c : is_digit c → (plain c ∧ c ≠ C_HASH) ∧ is_space c = false.
Proof.
  unfold is_digit, plain, is_space, space_C. intros Hc.
  rewrite to_uchar_small by lia. split; [lia|]. lia.
Qed.

Lemma var_name_inj i j : var_name i = var_name j → i = j.
Proof. unfold var_name. by intros ?%(inj (app _))%decimal_inj. Qed.

Lemma var_name_length i : (i < 2 ^ 31)%N → 3 < length (var_name i) ≤ 13.
Proof.
  intros Hi. unfold var_name. rewrite length_app.
  pose proof (decimal_length i 10 ltac:(simpl; lia)). simpl. lia.
Qed.

Lemma var_value_length i : (i < 2 ^ 31)%N → 5 < length (var_value i) ≤ 15.
Proof.
  intros Hi. unfold var_value. rewrite length_app.
  pose proof (decimal_length i 10 ltac:(simpl; lia)). simpl. lia.
Qed.

Lemma var_name_ok i : (i < 2 ^ 31)%N → check_name (var_name i) = NameOk.
Proof.
  intros Hi. pose proof (var_name_length i Hi) as Hl. unfold check_name, var_name in *.
  change (str "VAR") with [86; 65; 82]%Z in *. cbn [app] in *.
  rewrite decide_False by (rewrite MAX_VAR_NAME_eq; lia).
  replace (forallb name_char _) with true; [done|]. symmetry.
  apply forallb_Forall. do 2 (constructor; [done|]).
  eapply list.Forall_impl; [apply decimal_digits|]. apply is_digit_name_char.
Qed.

Lemma var_value_bare i : bare_value (var_value i).
Proof.
  unfold bare_value, var_value. change (str "value") with [118; 97; 108; 117; 101]%Z.
  pose proof (decimal_digits i) as Hd. split_and!; [|done| |done].
  - cbn [app]. do 5 (constructor; [by unfold plain|]).
    eapply list.Forall_impl; [exact Hd|]. intros c Hc. by apply is_digit_bare.
  - unfold last_fails. rewrite reverse_app. apply Forall_reverse in Hd.
    pose proof (decimal_nonempty i) as Hne.
    destruct (reverse (decimal i)) as [|c k] eqn:Er.
    { by apply (f_equal reverse) in Er; rewrite reverse_involutive in Er. }
    inv Hd. simpl. by apply is_digit_bare.
Qed.

(** The line the first loop writes is the unquoted rendering of the
    entry, and an entry the format can write. *)
Lemma generated_line i :
  str "VAR" ++ decimal i ++ str "=value" ++ decimal i ++ [C_LF]
  = bare_line (var_entry i).
Proof.
  unfold bare_line, var_entry, var_name, var_value. cbn [fst snd].
  change (str "=value") with (C_EQUALS :: str "value").
  by rewrite <-!(assoc_L (++)).
Qed.

Lemma var_entry_ok i : (i < 2 ^ 31)%N → bare_ok (var_entry i).
Proof.
  intros Hi. split_and!; [by apply var_name_ok|apply var_value_bare|].
  pose proof (var_name_length i Hi). pose proof (var_value_length i Hi).
  unfold bare_line, var_entry. cbn [fst snd]. rewrite LINE_SIZE_eq. list_len.
Qed.

(** ** The counters *)

Lemma elem_of_counters count first j :
  j ∈ counters count first ↔ (first ≤ j < first + N.of_nat count)%N.
Proof.
  revert first. induction count as [|count IH]; intros first; simpl.
  { rewrite elem_of_nil. lia. }
  rewrite elem_of_cons, IH. lia.
Qed.

Lemma counters_entries_ok count :
  (N.of_nat count < 2 ^ 31)%N →
  Forall bare_ok (var_entry <$> counters count 0).
Proof.
  intros Hc. apply Forall_fmap, Forall_forall. intros j Hj%elem_of_counters.
  apply var_entry_ok. lia.
Qed.

(** Every counter value gives its variable one value, its own. *)
Lemma values_of_counters count first j :
  (first ≤ j < first + N.of_nat count)%N →
  values_of (var_name j) (var_entry <$> counters count first) = [var_value j].
Proof.
  revert first. induction count as [|count IH]; intros first Hj; [lia|].
  cbn [counters fmap list_fmap values_of omap list_omap]. simpl.
  destruct (decide (first = j)) as [->|Hne].
  - rewrite decide_True by done. f_equal.
    destruct count as [|count]; [done|].
    assert (values_of (var_name j) (var_entry <$> counters (S count) (j + 1)) = []) as E;
      [|exact E].
    apply values_of_none, Forall_fmap, Forall_forall.
    intros i Hi%elem_of_counters ?%var_name_inj. lia.
  - rewrite decide_False by (intros ?%var_name_inj; done).
    apply IH. lia.
Qed.

(** ** The case *)

Section rules.
Context `{CharModel} `{Environ E}.
Context (line0 : list Z) (entry0 : dotenv_entry).
Context (Hline : length line0 = LINE_SIZE) (Hentry : entry_wf entry0).
Implicit Types (st : test_state E).

(** The first loop appends the lines of its counters to the file. *)
Lemma for_loop_fputs path count first st old :
  ts_fs st !! path = Some old →
  for_loop count first (λ i,
    fputs path (str "VAR" ++ decimal i ++ str "=value" ++ decimal i ++ [C_LF])) st
  = inr ((), TestState
               (<[path := old ++ @render bare (var_entry <$> counters count first)]>
                  (ts_fs st))
               (ts_env st) (ts_err st) (ts_out st)).
Proof.
  revert first st old. induction count as [|count IH]; intros first st old Hf.
  { destruct st. simpl in *. by rewrite app_nil_r, insert_id. }
  cbn [for_loop]. unfold mbind at 1, test_bind at 1. unfold fputs at 1, t_modify.
  rewrite Hf, generated_line. change (default [] (Some old)) with old.
  rewrite (IH _ _ (old ++ bare_line (var_entry first))) by apply lookup_insert_eq.
  cbn [ts_fs ts_env ts_err ts_out counters fmap list_fmap].
  unfold render. cbn [mbind list_bind format_line bare].
  by rewrite insert_insert_eq, <-(assoc_L (++)).
Qed.

(** The variables after the file has been loaded. *)
Lemma getenv_generated count (env : E) j :
  (N.of_nat count < 2 ^ 31)%N → (j < N.of_nat count)%N →
  getenv (load_spec true (generated count) env).1 (var_name j)
  = Some (var_value j).
Proof.
  intros Hc Hj. apply getenv_loaded_last. unfold generated.
  rewrite assigned_render by by apply counters_entries_ok.
  by rewrite values_of_counters by lia.
Qed.

Lemma generated_case_spec path count l_result l_value st :
  (N.of_nat count < 2 ^ 31)%N →
  generated_case line0 entry0 path count l_result l_value st
  = inr ((), TestState (delete path (ts_fs st))
                 (load_spec true (generated count) (ts_env st)).1
                 (ts_err st) (ts_out st)).
Proof.
  intros Hc. unfold generated_case.
  unfold mbind at 1, test_bind at 1. unfold fopen_w at 1, t_modify.
  erewrite test_bind_inr by (by apply (for_loop_fputs _ _ _ _ []), lookup_insert_eq).
  erewrite test_bind_inr
    by (apply (t_dotenv_load_spec _ _ Hline Hentry _ _ _ (generated count));
        [apply lookup_insert_eq|by apply file_ok_render, counters_entries_ok]).
  unfold mbind at 1, test_bind at 1. rewrite bool_decide_eq_true_2 by done.
  cbn [t_assert mret test_ret ts_fs ts_env ts_err ts_out].
  unfold load_spec at 2. rewrite foldl_step_err. unfold generated at 2.
  rewrite reported_render by by apply counters_entries_ok.
  rewrite !app_nil_r.
  erewrite test_bind_inr.
  2:{ apply for_loop_invariant. intros j Hj.
      pose proof (var_name_length j ltac:(lia)). pose proof (var_value_length j ltac:(lia)).
      rewrite !snprintf_fits by lia.
      apply assert_streq_spec. cbn [ts_env]. apply getenv_generated; lia. }
  unfold remove, t_modify. cbn [ts_fs ts_env ts_err ts_out].
  by rewrite insert_insert_eq, delete_insert_eq.
Qed.

(** C16 (roundtrip). A case that writes its file in a loop passes for every
    number of lines that an [int] counts, from every state: the variable of
    every line the first loop wrote with ["VAR%d=value%d"] has, after the
    load, the value the second loop prints with ["value%d"]; nothing is
    written to [stderr] and the file is removed.  This covers the thousand
    lines of [test_large_file] and the hundred thousand of
    [test_extremely_large_file]. *)
Theorem generated_case_passes path count l_result l_value st :
  (N.of_nat count < 2 ^ 31)%N →
  ∃ st', generated_case line0 entry0 path count l_result l_value st = inr ((), st') ∧
    ts_fs st' = delete path (ts_fs st) ∧
    ts_err st' = ts_err st ∧ ts_out st' = ts_out st ∧
    ∀ j, (j < N.of_nat count)%N →
      getenv (ts_env st') (snprintf 20 (var_name j)) = Some (snprintf 20 (var_value j)).
Proof.
  intros Hc. eexists. split; [by apply generated_case_spec|].
  cbn [ts_fs ts_env ts_err ts_out]. split_and!; [done..|]. intros j Hj.
  pose proof (var_name_length j ltac:(lia)). pose proof (var_value_length j ltac:(lia)).
  rewrite !snprintf_fits by lia. by apply getenv_generated.
Qed.
End rules.

Lemma generated_case_passes_witness :
  ∃ st', @generated_case signed_char _ list_environ (replicate LINE_SIZE 7%Z)
           (entry_filled 7) "large_test.env" 1000 204 211
           (TestState ∅ (environ_of [("VAR7", "old")]) [] []) = inr ((), st') ∧
    ts_fs st' = delete "large_test.env" ∅ ∧
    ts_err st' = [] ∧ ts_out st' = [] ∧
    ∀ j, (j < N.of_nat 1000)%N →
      getenv (ts_env st') (snprintf 20 (var_name j)) = Some (snprintf 20 (var_value j)).
Proof.
  apply (@generated_case_passes signed_char _ list_environ);
    [apply length_replicate|apply entry_filled_wf|reflexivity].
Defined.
