(* ===== verification/Main.v ===== *)
(** * Main: the demo program (src/main.c)

    [main] loads [example/.env] with [override] set and prints the variable
    [API_KEY], or a message when the file did not load.  Its exit status is 0
    on both paths.

    - [main_out], [main]: the code; [stdout] is the text printed.  The
      argument of [%s] is the result of [getenv] as it comes: when the
      variable is not set it is the null pointer, which [printf] is not
      defined on ([None]).

    Main results: [main_prints] (what is printed when the variable ends up
    set), [main_undefined] (a file that loads but leaves [API_KEY] unset
    takes [main] to the undefined call), [main_missing_file]. *)

From stdpp Require Import gmap.
From S2P Require Import Prelude Libc Header Trim Value Name Line Env Stdio Loader.

Section main.
Context `{CharModel} `{Environ E}.

Record main_out := MainOut {
  m_ret : Z;
  m_stdout : list Z;
  m_stderr : list diag;
  m_env : E;
}.

Definition main (fs : gmap string (list Z)) (line : list Z)
  (entry : dotenv_entry) (env : E) : option main_out :=
  r ← dotenv_load fs "example/.env" true line entry env;
  if decide (r_ret r = 0%Z) then
    value ← getenv (r_env r) (str "API_KEY");
    Some (MainOut 0 (str "API_KEY=" ++ value ++ [C_LF]) (r_err r) (r_env r))
  else
    Some (MainOut 0 (str "Failed to load .env file." ++ [C_LF]) (r_err r)
            (r_env r)).
End main.

Arguments main_out : clear implicits.

Section main_correct.
Context `{CharModel} `{Environ E}.
Context (fs : gmap string (list Z)) (line : list Z) (entry : dotenv_entry).
Context (Hline : length line = LINE_SIZE) (Hentry : entry_wf entry).

(** [main] after a file that loads, in terms of the final value of
    [API_KEY]. *)
Lemma main_opened env file :
  fs !! "example/.env" = Some file → file_ok file →
  main fs line entry env
  = match resolve true (getenv env (str "API_KEY"))
            (assigned (str "API_KEY") (texts file)) with
    | Some value =>
        Some (MainOut 0 (str "API_KEY=" ++ value ++ [C_LF])
                (reported (texts file))
                (load_spec true file env).1)
    | None => None
    end.
Proof.
  intros Hf Hok. unfold main.
  rewrite (dotenv_load_file _ _ _ _ _ _ file) by done. simpl. unfold load_spec.
  rewrite foldl_step_getenv, foldl_step_err.
  by destruct (resolve _ _ _).
Qed.

(** C38 (functional).  When the file loads and [API_KEY] ends up set, by
    the file or before, [main] prints its final value on one line and
    returns 0. *)
Theorem main_prints env file value :
  fs !! "example/.env" = Some file → file_ok file →
  resolve true (getenv env (str "API_KEY"))
    (assigned (str "API_KEY") (texts file)) = Some value →
  ∃ out, main fs line entry env = Some out ∧ m_ret out = 0%Z ∧
         m_stdout out = str "API_KEY=" ++ value ++ [C_LF].
Proof.
  intros Hf Hok Hv. rewrite (main_opened _ _ Hf Hok), Hv. by eexists.
Qed.

(** C37 (safety).  When the file loads but does not assign [API_KEY] and the
    variable was not set, [main] hands the null pointer to [%s]: the call of
    [printf] on line 13 is undefined. *)
Theorem main_undefined env file :
  fs !! "example/.env" = Some file → file_ok file →
  getenv env (str "API_KEY") = None →
  assigned (str "API_KEY") (texts file) = [] →
  main fs line entry env = None.
Proof.
  intros Hf Hok Hv Ha. by rewrite (main_opened _ _ Hf Hok), Hv, Ha.
Qed.

(** C39 (error).  When the file does not open, [main] prints the failure
    message after the one of [perror], changes nothing and still returns
    0. *)
Theorem main_missing_file env :
  fs !! "example/.env" = None →
  main fs line entry env
  = Some (MainOut 0 (str "Failed to load .env file." ++ [C_LF]) [FailedToOpen] env).
Proof.
  intros Hf. unfold main, dotenv_load, fopen. by rewrite Hf.
Qed.
End main_correct.

(** [main] in a file system that holds [file] at [example/.env]. *)
Definition run_main (cm : CharModel) (file : list Z)
  (env : list (list Z * list Z)) : option (main_out (list (list Z * list Z))) :=
  @main cm _ list_environ {[ "example/.env"%string := file ]}
    (replicate LINE_SIZE 7%Z) (entry_filled 7) env.

Lemma main_prints_witness :
  ∃ out, run_main signed_char (text_file ["# demo"; "API_KEY=123456 # note"]) []
         = Some out ∧ m_ret out = 0%Z ∧
         m_stdout out = str "API_KEY=" ++ str "123456" ++ [C_LF].
Proof.
  apply (@main_prints signed_char)
    with (file := text_file ["# demo"; "API_KEY=123456 # note"]); run_side.
Defined.

Lemma main_undefined_witness :
  run_main signed_char (text_file ["DEBUG=true"]) [] = None.
Proof.
  apply (@main_undefined signed_char) with (file := text_file ["DEBUG=true"]);
    run_side.
Defined.

Lemma main_missing_file_witness :
  @main signed_char _ list_environ ∅ (replicate LINE_SIZE 7%Z) (entry_filled 7) []
  = Some (MainOut 0 (str "Failed to load .env file." ++ [C_LF]) [FailedToOpen] []).
Proof. apply (@main_missing_file signed_char). run_side. Defined.
